(** * The concat demuxer (libavformat/concatdec.c)

    A shallow embedding of the segment table, the segment lifecycle
    ([open_file], [open_next_file]), the packet pump ([concat_read_packet])
    and the seek engine ([real_seek], [try_seek], [concat_seek]), together
    with the properties the design document states about them; and of the
    probe, the script reader and the rest of [concat_read_header] and
    [concat_read_close], with what the code shows about them and about a
    demuxer's whole life.

    The demuxer talks to the per-segment readers of libavformat only through
    a handful of calls.  Those calls are the fields of the class [LibAV]: the
    development is parametric in what they answer, and every call that is
    made is appended to a history so that "is closed", "is not re-opened"
    and "is retried" can be stated. *)

From Stdlib Require Import ZArith Ascii String List Lia Bool Permutation.
From stdpp Require Import base option list.
Import ListNotations.

Local Open Scope Z_scope.

(** ** Machine integers *)

Module Int.

(** [int64_t]: two's complement on 64 bits. *)
Definition INT64_MIN : Z := - 2 ^ 63.
Definition INT64_MAX : Z := 2 ^ 63 - 1.

Definition wrap64 (z : Z) : Z := (z + 2 ^ 63) mod 2 ^ 64 - 2 ^ 63.
Definition add64 (a b : Z) : Z := wrap64 (a + b).
Definition sub64 (a b : Z) : Z := wrap64 (a - b).

Definition in_int64 (z : Z) : Prop := INT64_MIN <= z <= INT64_MAX.

(** [int]: two's complement on 32 bits; [unsigned]: modulo 2^32. *)
Definition wrap32 (z : Z) : Z := (z + 2 ^ 31) mod 2 ^ 32 - 2 ^ 31.
Definition wrapu32 (z : Z) : Z := z mod 2 ^ 32.

End Int.
Export Int.

(** ** Constants of libavutil and libavformat

    The headers that define them are not part of this file's source; the
    values are those of libavutil/error.h, libavutil/avutil.h,
    libavutil/mathematics.h, libavformat/avformat.h and of errno on Linux. *)

Definition AV_NOPTS_VALUE : Z := INT64_MIN.

Definition MKTAG (a b c d : Z) : Z :=
  Z.lor a (Z.lor (Z.shiftl b 8) (Z.lor (Z.shiftl c 16) (Z.shiftl d 24))).

Definition AVERROR (e : Z) : Z := - e.
Definition EPERM : Z := 1.
Definition EIO : Z := 5.
Definition ENOMEM : Z := 12.
Definition EINVAL : Z := 22.
Definition ESPIPE : Z := 29.
Definition ENOSYS : Z := 38.

(** FFERRTAG('E','O','F',' '). *)
Definition AVERROR_EOF : Z := - MKTAG 69 79 70 32.

Definition AVSEEK_FLAG_BYTE : Z := 2.
Definition AVSEEK_FLAG_FRAME : Z := 8.

Definition AV_ROUND_DOWN : Z := 2.
Definition AV_ROUND_UP : Z := 3.
Definition AV_ROUND_PASS_MINMAX : Z := 8192.

Definition AVRational : Type := (Z * Z)%type.
Definition AV_TIME_BASE_Q : AVRational := (1, 1000000).

Definition CONCAT_MAX_OPEN_TRY : Z := 3.

(** ** Data model *)

(** [ConcatFile]: one segment descriptor. *)
Record ConcatFile : Type := mkFile {
  url : string;
  start_time : Z;
  duration : Z
}.

(** A per-segment reader (an [AVFormatContext *] obtained from
    [avformat_alloc_context]) is an opaque handle. *)
Definition Reader : Type := nat.

(** [ConcatContext].  [files] with [nb_files] is the list and its length;
    [cur_file], a pointer into [files], is the index it points at ([None] for
    NULL); [avf] is the reader of the active segment ([None] for NULL). *)
Record ConcatContext : Type := mkCat {
  files : list ConcatFile;
  cur_file : option nat;
  avf : option Reader;
  safe : Z;
  seekable : Z;
  error : Z;
  rw_timeout : Z
}.

Definition nb_files (c : ConcatContext) : Z := Z.of_nat (length (files c)).

(** The fields of an [AVPacket] the demuxer touches. *)
Record AVPacket : Type := mkPacket {
  pts : Z;
  dts : Z;
  stream_index : Z;
  payload : Z
}.

(** ** The calls into libavformat and libavutil

    [World] is whatever the readers, the network and the files are.  A reader
    field such as [cat->avf->start_time] is a query on the world, since the
    library fills it in. [avformat_open_input] frees the context it was given
    when it fails, which is why [open_file] has nothing left to close then.
    [control_message_cb] is [None] when [avf->control_message_cb] is NULL;
    called with IJKAVF_CM_RESOLVE_SEGMENT it answers its return code and
    [fsc.url]. *)
Class LibAV (World : Type) : Type := {
  avformat_alloc_context : World -> option Reader * World;
  avformat_open_input : Reader -> string -> Z -> World -> Z * World;
  avformat_find_stream_info : Reader -> World -> Z * World;
  avformat_close_input : Reader -> World -> World;
  av_read_frame : Reader -> AVPacket -> World -> Z * AVPacket * World;
  avformat_seek_file : Reader -> Z -> Z -> Z -> Z -> Z -> World -> Z * World;
  reader_start_time : Reader -> World -> Z;
  reader_duration : Reader -> World -> Z;
  reader_nb_streams : Reader -> World -> Z;
  reader_time_base : Reader -> Z -> World -> AVRational;
  control_message_cb : option (Z -> World -> Z * option string * World);
  av_rescale_q : Z -> AVRational -> AVRational -> Z;
  av_rescale_q_rnd : Z -> AVRational -> AVRational -> Z -> Z
}.

(** What the demuxer did to the outside, in order.  The [Call*] events are the
    library calls with their answers, the [Log*] events the two [av_log]
    messages of the open path, and [OpenFileReturned] marks each return of
    [open_file] with its argument and result.  Nothing in the program reads
    the history. *)
Inductive Event : Type :=
| CallAllocContext (r : option Reader)
| CallResolveSegment (position : Z) (cb_ret : Z) (fsc_url : option string)
| CallOpenInput (h : Reader) (u : string) (timeout : Z) (ret : Z)
| CallFindStreamInfo (h : Reader) (ret : Z)
| CallCloseInput (h : Reader)
| CallReadFrame (h : Reader) (ret : Z) (pkt : AVPacket)
| CallSeekFile (h : Reader) (stream min_ts ts max_ts flags ret : Z)
| LogImpossibleToOpen (u : string)
| LogOpenNextFailed (try_counter : Z)
| OpenFileReturned (fileno : nat) (ret : Z).

(** ** Outcome of a run

    A C function becomes a state transformer.  [Undefined] is a run that
    dereferences NULL or indexes [files] out of bounds; [OutOfFuel] is a loop
    cut short by its iteration budget. *)
Inductive result (A : Type) : Type :=
| Done (a : A)
| Undefined
| OutOfFuel.
Arguments Done {A} a.
Arguments Undefined {A}.
Arguments OutOfFuel {A}.

(** ** Program state *)

(** The demuxer's own [AVFormatContext] ([avf] in the source): its private
    [ConcatContext], [avf->duration], [avf->pb->error] ([None] when [avf->pb]
    is NULL) and the time bases of [avf->streams]; then the world and the
    history. *)
Record State (World : Type) : Type := mkState {
  cat : ConcatContext;
  ctx_duration : Z;
  pb_error : option Z;
  streams : list AVRational;
  world : World;
  history : list Event
}.
Arguments mkState {World}.
Arguments cat {World}.
Arguments ctx_duration {World}.
Arguments pb_error {World}.
Arguments streams {World}.
Arguments world {World}.
Arguments history {World}.

Section Updates.

Context {World : Type}.

Definition with_cat (c : ConcatContext) (s : State World) : State World :=
  mkState c (ctx_duration s) (pb_error s) (streams s) (world s) (history s).
Definition with_world (w : World) (s : State World) : State World :=
  mkState (cat s) (ctx_duration s) (pb_error s) (streams s) w (history s).
Definition with_pb_error (e : option Z) (s : State World) : State World :=
  mkState (cat s) (ctx_duration s) e (streams s) (world s) (history s).
Definition with_ctx_duration (d : Z) (s : State World) : State World :=
  mkState (cat s) d (pb_error s) (streams s) (world s) (history s).
Definition logged (e : Event) (s : State World) : State World :=
  mkState (cat s) (ctx_duration s) (pb_error s) (streams s) (world s)
          (history s ++ [e]).

End Updates.

Definition with_files (fs : list ConcatFile) (c : ConcatContext) :=
  mkCat fs (cur_file c) (avf c) (safe c) (seekable c) (error c) (rw_timeout c).
Definition with_cur_file (i : option nat) (c : ConcatContext) :=
  mkCat (files c) i (avf c) (safe c) (seekable c) (error c) (rw_timeout c).
Definition with_avf (r : option Reader) (c : ConcatContext) :=
  mkCat (files c) (cur_file c) r (safe c) (seekable c) (error c) (rw_timeout c).
Definition with_seekable (b : Z) (c : ConcatContext) :=
  mkCat (files c) (cur_file c) (avf c) (safe c) b (error c) (rw_timeout c).
Definition with_error (e : Z) (c : ConcatContext) :=
  mkCat (files c) (cur_file c) (avf c) (safe c) (seekable c) e (rw_timeout c).

Definition with_start_time (t : Z) (f : ConcatFile) : ConcatFile :=
  mkFile (url f) t (duration f).
Definition with_duration (d : Z) (f : ConcatFile) : ConcatFile :=
  mkFile (url f) (start_time f) d.

(** ** The monad of the embedding: state passing with the two abnormal
    outcomes. *)

Definition StateM (S A : Type) : Type := S -> result (A * S).

Definition pure {S A} (a : A) : StateM S A := fun s => Done (a, s).
Definition bind {S A B} (m : StateM S A) (k : A -> StateM S B) : StateM S B :=
  fun s => match m s with
           | Done (a, s') => k a s'
           | Undefined => Undefined
           | OutOfFuel => OutOfFuel
           end.
Definition undefined {S A} : StateM S A := fun _ => Undefined.
Definition out_of_fuel {S A} : StateM S A := fun _ => OutOfFuel.
Definition gets {S A} (f : S -> A) : StateM S A := fun s => Done (f s, s).
Definition modify {S} (f : S -> S) : StateM S unit := fun s => Done (tt, f s).

(** Dereference of a pointer that may be NULL or out of bounds. *)
Definition deref {S A} (o : option A) : StateM S A :=
  match o with Some a => pure a | None => undefined end.

Declare Scope concat_scope.
Delimit Scope concat_scope with concat.
Notation "x <- c1 ;; c2" := (bind c1 (fun x => c2))
  (at level 100, c1 at next level, right associativity) : concat_scope.
Notation "c1 ;;; c2" := (bind c1 (fun _ => c2))
  (at level 100, right associativity) : concat_scope.
Local Open Scope concat_scope.

Section Lifecycle.

Context {World : Type} {lib : LibAV World}.

Local Abbreviation M := (StateM (State World)).

Definition modify_cat (f : ConcatContext -> ConcatContext) : M unit :=
  modify (fun s => with_cat (f (cat s)) s).
Definition emit (e : Event) : M unit := modify (logged e).

(** The library calls, lifted: each runs on the current world and is entered
    in the history with its answer. *)
Definition call_alloc_context : M (option Reader) :=
  fun s => let '(r, w) := avformat_alloc_context (world s) in
           Done (r, logged (CallAllocContext r) (with_world w s)).

Definition call_open_input (h : Reader) (u : string) (timeout : Z) : M Z :=
  fun s => let '(ret, w) := avformat_open_input h u timeout (world s) in
           Done (ret, logged (CallOpenInput h u timeout ret) (with_world w s)).

Definition call_find_stream_info (h : Reader) : M Z :=
  fun s => let '(ret, w) := avformat_find_stream_info h (world s) in
           Done (ret, logged (CallFindStreamInfo h ret) (with_world w s)).

(** [avformat_close_input(&p)] does nothing when [p] is NULL. *)
Definition call_close_input (p : option Reader) : M unit :=
  match p with
  | None => pure tt
  | Some h =>
      fun s => Done (tt, logged (CallCloseInput h)
                           (with_world (avformat_close_input h (world s)) s))
  end.

Definition call_read_frame (h : Reader) (pkt : AVPacket) : M (Z * AVPacket) :=
  fun s => let '(ret, pkt', w) := av_read_frame h pkt (world s) in
           Done ((ret, pkt'), logged (CallReadFrame h ret pkt') (with_world w s)).

Definition call_seek_file (h : Reader) (stream min_ts ts max_ts flags : Z) : M Z :=
  fun s => let '(ret, w) :=
             avformat_seek_file h stream min_ts ts max_ts flags (world s) in
           Done (ret, logged (CallSeekFile h stream min_ts ts max_ts flags ret)
                             (with_world w s)).

(** The IJKAVF_CM_RESOLVE_SEGMENT round of [open_file]: the locator to open,
    [file->url] unless the callback answers 0 with a non-NULL [fsc.url]. *)
Definition resolve_segment (fileno : nat) (file_url : string) : M string :=
  match control_message_cb with
  | None => pure file_url
  | Some cb =>
      fun s => let '(cb_ret, fsc_url, w) := cb (Z.of_nat fileno) (world s) in
               let u := if cb_ret =? 0
                        then match fsc_url with Some u' => u' | None => file_url end
                        else file_url in
               Done (u, logged (CallResolveSegment (Z.of_nat fileno) cb_ret fsc_url)
                               (with_world w s))
  end.

(** [file->start_time] as [open_file] leaves it: backfilled from the previous
    descriptor only while it is still [AV_NOPTS_VALUE]. *)
Definition backfill_start_time (fs : list ConcatFile) (fileno : nat)
    (file : ConcatFile) : M ConcatFile :=
  if start_time file =? AV_NOPTS_VALUE then
    match fileno with
    | O => pure (with_start_time 0 file)
    | S prev =>
        p <- deref (fs !! prev) ;;
        pure (with_start_time (add64 (start_time p) (duration p)) file)
    end
  else pure file.

(** [open_file].  The options dictionary carries [rw_timeout] and nothing
    else, so the timeout is handed to [avformat_open_input] directly;
    releasing the callback's string ([fsc.url_free]) and the dictionary is
    left out.  After a failed [avformat_open_input] the new context is gone
    and [new_avf] is NULL. *)
Definition open_file (fileno : nat) : M Z :=
  c <- gets cat ;;
  file <- deref (files c !! fileno) ;;
  new_avf <- call_alloc_context ;;
  match new_avf with
  | None =>
      emit (OpenFileReturned fileno (AVERROR ENOMEM)) ;;;
      pure (AVERROR ENOMEM)
  | Some h =>
      u <- resolve_segment fileno (url file) ;;
      ret <- call_open_input h u (rw_timeout c) ;;
      let new_avf := if ret <? 0 then None else Some h in
      ret <- (if ret <? 0 then pure ret else call_find_stream_info h) ;;
      if ret <? 0 then
        emit (LogImpossibleToOpen (url file)) ;;;
        call_close_input new_avf ;;;
        emit (OpenFileReturned fileno ret) ;;;
        pure ret
      else
        call_close_input (avf c) ;;;
        file' <- backfill_start_time (files c) fileno file ;;
        modify_cat (fun c => with_files (<[fileno := file']> (files c))
                              (with_cur_file (Some fileno)
                                (with_avf new_avf c))) ;;;
        emit (OpenFileReturned fileno 0) ;;;
        pure 0
  end.

(** [open_next_file].  [fileno] is [cat->cur_file - cat->files]. *)
Definition open_next_file : M Z :=
  c <- gets cat ;;
  fileno <- deref (cur_file c) ;;
  file <- deref (files c !! fileno) ;;
  (if duration file =? AV_NOPTS_VALUE then
     h <- deref (avf c) ;;
     d <- gets (fun s => reader_duration h (world s)) ;;
     modify_cat (fun c => with_files (<[fileno := with_duration d file]> (files c)) c)
   else pure tt) ;;;
  let fileno := S fileno in
  if (length (files c) <=? fileno)%nat then pure AVERROR_EOF
  else open_file fileno.

End Lifecycle.

(** ** Building the table ([add_file] and the end of [concat_read_header]) *)

Section Header.

(** [safe_filename]: letters, digits, [_] and [-] anywhere; [/] and [.] only
    after the first character of a path component.  [at_start] is
    [f == start]. *)
Definition is_safe_char (c : Ascii.ascii) : bool :=
  let n := Z.of_N (Ascii.N_of_ascii c) in
  let low := Z.lor n 32 - 97 in
  ((0 <=? low) && (low <? 26)) || ((0 <=? n - 48) && (n - 48 <? 10))
  || (n =? 95) || (n =? 45).

Fixpoint safe_filename_from (at_start : bool) (f : string) : bool :=
  match f with
  | EmptyString => true
  | String c rest =>
      if is_safe_char c then safe_filename_from false rest
      else if at_start then false
      else if Ascii.eqb c "/"%char then safe_filename_from true rest
      else if negb (Ascii.eqb c "."%char) then false
      else safe_filename_from false rest
  end.

Definition safe_filename (f : string) : bool := safe_filename_from true f.

(** [add_file], allocations succeeding.  [absolute_url] is what
    [ff_make_absolute_url] makes of the script's own name and [filename]. *)
Definition add_file (absolute_url : string -> string) (filename : string)
    (c : ConcatContext) : Z + ConcatContext :=
  if (safe c >? 0) && negb (safe_filename filename) then inl (AVERROR EPERM)
  else inr (with_files
              (files c ++ [mkFile (absolute_url filename)
                                  AV_NOPTS_VALUE AV_NOPTS_VALUE]) c).

(** The [for] loop at the end of [concat_read_header], from the descriptor
    [fs] starts with: the table as the loop leaves it, how many descriptors
    it got past ([i] at the exit, counted from here) and [time]. *)
Fixpoint backfill (fs : list ConcatFile) (time : Z)
    : list ConcatFile * nat * Z :=
  match fs with
  | [] => ([], 0%nat, time)
  | f :: rest =>
      let '(f, time) :=
        if start_time f =? AV_NOPTS_VALUE
        then (with_start_time time f, time)
        else (f, start_time f) in
      if duration f =? AV_NOPTS_VALUE then (f :: rest, 0%nat, time)
      else
        let '(rest', i, time') := backfill rest (add64 time (duration f)) in
        (f :: rest', S i, time')
  end.

(** The loop and the [if (i == cat->nb_files)] after it. *)
Definition read_header_backfill {World : Type} (s : State World) : State World :=
  let '(fs, i, time) := backfill (files (cat s)) 0 in
  let s := with_cat (with_files fs (cat s)) s in
  if (i =? length fs)%nat
  then with_cat (with_seekable 1 (cat s)) (with_ctx_duration time s)
  else s.

End Header.

(** ** The packet pump *)

Section Pump.

Context {World : Type} {lib : LibAV World}.

Local Abbreviation M := (StateM (State World)).

(** How the [while (1)] of [concat_read_packet] is left: by [break] with the
    answer of [av_read_frame], or by [goto fail] once the retries are used
    up. *)
Inductive LoopExit : Type :=
| Break (ret : Z) (pkt : AVPacket)
| GotoFail (ret : Z) (pkt : AVPacket).

(** [avf->pb->error = ret], guarded by [avf->pb && ret != AVERROR_EOF]. *)
Definition set_pb_error (ret : Z) : M unit :=
  modify (fun s => match pb_error s with
                   | Some _ => if negb (ret =? AVERROR_EOF)
                               then with_pb_error (Some ret) s else s
                   | None => s
                   end).

Fixpoint read_loop (fuel : nat) (try_counter : Z) (pkt : AVPacket) : M LoopExit :=
  match fuel with
  | O => out_of_fuel
  | S fuel' =>
      c <- gets cat ;;
      h <- deref (avf c) ;;
      r <- call_read_frame h pkt ;;
      let '(ret, pkt) := r in
      if negb (ret =? AVERROR_EOF) then pure (Break ret pkt)
      else
        ret <- open_next_file ;;
        if ret <? 0 then
          let try_counter := try_counter + 1 in
          if try_counter >? CONCAT_MAX_OPEN_TRY then
            modify_cat (with_error ret) ;;;
            set_pb_error ret ;;;
            pure (GotoFail AVERROR_EOF pkt)
          else
            emit (LogOpenNextFailed try_counter) ;;;
            read_loop fuel' try_counter pkt
        else read_loop fuel' try_counter pkt
  end.

(** The timestamp fix-up at the end of [concat_read_packet]. *)
Definition offset_timestamp (t delta : Z) : Z :=
  if negb (t =? AV_NOPTS_VALUE) then add64 t delta else t.

(** Iterations the loop can need: each one either moves to the next file or
    uses up one of the four failures. *)
Definition read_budget (c : ConcatContext) : nat := (length (files c) + 4)%nat.

Definition concat_read_packet (pkt : AVPacket) : M (Z * AVPacket) :=
  c <- gets cat ;;
  if negb (error c =? 0) then pure (error c, pkt)
  else
    r <- read_loop (read_budget c) 0 pkt ;;
    match r with
    | GotoFail ret pkt => pure (ret, pkt)
    | Break ret pkt =>
        if ret <? 0 then pure (ret, pkt)
        else
          c <- gets cat ;;
          fileno <- deref (cur_file c) ;;
          file <- deref (files c !! fileno) ;;
          h <- deref (avf c) ;;
          reader_start <- gets (fun s => reader_start_time h (world s)) ;;
          time_base <- gets (fun s => reader_time_base h (stream_index pkt) (world s)) ;;
          let delta := av_rescale_q (sub64 (start_time file) reader_start)
                                    AV_TIME_BASE_Q time_base in
          pure (ret, mkPacket (offset_timestamp (pts pkt) delta)
                              (offset_timestamp (dts pkt) delta)
                              (stream_index pkt) (payload pkt))
    end.

End Pump.

(** ** The seek engine *)

Section Seek.

Context {World : Type} {lib : LibAV World}.

Local Abbreviation M := (StateM (State World)).

Definition rescale_interval (tb_in tb_out : AVRational) (min_ts ts max_ts : Z)
    : Z * Z * Z :=
  (av_rescale_q_rnd min_ts tb_in tb_out (Z.lor AV_ROUND_UP AV_ROUND_PASS_MINMAX),
   av_rescale_q ts tb_in tb_out,
   av_rescale_q_rnd max_ts tb_in tb_out (Z.lor AV_ROUND_DOWN AV_ROUND_PASS_MINMAX)).

Definition try_seek (stream min_ts ts max_ts flags : Z) : M Z :=
  c <- gets cat ;;
  fileno <- deref (cur_file c) ;;
  file <- deref (files c !! fileno) ;;
  h <- deref (avf c) ;;
  reader_start <- gets (fun s => reader_start_time h (world s)) ;;
  let t0 := sub64 (start_time file) reader_start in
  let ts := sub64 ts t0 in
  let min_ts := if min_ts =? INT64_MIN then INT64_MIN else sub64 min_ts t0 in
  let max_ts := if max_ts =? INT64_MAX then INT64_MAX else sub64 max_ts t0 in
  if stream >=? 0 then
    nb_streams <- gets (fun s => reader_nb_streams h (world s)) ;;
    if stream >=? nb_streams then pure (AVERROR EIO)
    else
      time_base <- gets (fun s => reader_time_base h stream (world s)) ;;
      let '(min_ts, ts, max_ts) :=
        rescale_interval AV_TIME_BASE_Q time_base min_ts ts max_ts in
      call_seek_file h stream min_ts ts max_ts flags
  else call_seek_file h stream min_ts ts max_ts flags.

(** [cat->files[i]] for an [int] index. *)
Definition file_at (fs : list ConcatFile) (i : Z) : option ConcatFile :=
  if i <? 0 then None else fs !! Z.to_nat i.

(** The binary search of [real_seek]; [left], [right] and [mid] are [int]. *)
Fixpoint locate (fuel : nat) (fs : list ConcatFile) (ts : Z) (left right : Z)
    : result Z :=
  if wrap32 (right - left) >? 1 then
    match fuel with
    | O => OutOfFuel
    | S fuel' =>
        let mid := Z.quot (wrap32 (left + right)) 2 in
        match file_at fs mid with
        | None => Undefined
        | Some f =>
            if ts <? start_time f then locate fuel' fs ts left mid
            else locate fuel' fs ts mid right
        end
    end
  else Done left.

Definition lift_result {A} (r : result A) : M A :=
  fun s => match r with
           | Done a => Done (a, s)
           | Undefined => Undefined
           | OutOfFuel => OutOfFuel
           end.

(** The rest of [real_seek], from the first [open_file] on. *)
Definition seek_from (left : Z) (stream min_ts ts max_ts flags : Z) : M Z :=
  ret <- open_file (Z.to_nat (wrapu32 left)) ;;
  if ret <? 0 then pure ret
  else
    ret <- try_seek stream min_ts ts max_ts flags ;;
    c <- gets cat ;;
    retry <- (if (ret <? 0) && (wrapu32 left <? wrapu32 (nb_files c - 1))
              then next <- deref (file_at (files c) (wrap32 (left + 1))) ;;
                   pure (start_time next <? max_ts)
              else pure false) ;;
    if retry then
      ret <- open_file (Z.to_nat (wrapu32 (wrap32 (left + 1)))) ;;
      if ret <? 0 then pure ret
      else try_seek stream min_ts ts max_ts flags
    else pure ret.

Definition real_seek (stream min_ts ts max_ts flags : Z) : M Z :=
  st <- gets streams ;;
  if (stream >=? 0) && (stream >=? Z.of_nat (length st)) then pure (AVERROR EINVAL)
  else
    window <- (if stream >=? 0
               then time_base <- deref (st !! Z.to_nat stream) ;;
                    pure (rescale_interval time_base AV_TIME_BASE_Q min_ts ts max_ts)
               else pure (min_ts, ts, max_ts)) ;;
    let '(min_ts, ts, max_ts) := window in
    c <- gets cat ;;
    left <- lift_result (locate (length (files c)) (files c) ts 0
                                (wrap32 (nb_files c))) ;;
    seek_from left stream min_ts ts max_ts flags.

Definition concat_seek (stream min_ts ts max_ts flags : Z) : M Z :=
  c <- gets cat ;;
  let cur_file_saved := cur_file c in
  let cur_avf_saved := avf c in
  modify_cat (with_error 0) ;;;
  if seekable c =? 0 then pure (AVERROR ESPIPE)
  else if negb (Z.land flags (Z.lor AVSEEK_FLAG_BYTE AVSEEK_FLAG_FRAME) =? 0)
  then pure (AVERROR ENOSYS)
  else
    modify_cat (with_avf None) ;;;
    ret <- real_seek stream min_ts ts max_ts flags ;;
    if ret <? 0 then
      c <- gets cat ;;
      call_close_input (avf c) ;;;
      modify_cat (fun c => with_cur_file cur_file_saved (with_avf cur_avf_saved c)) ;;;
      pure ret
    else
      call_close_input cur_avf_saved ;;;
      pure ret.

End Seek.

(** ** The vocabulary of the statements

    Projections of the history, the triple [runs], and the predicates the
    lemmas and theorems below are stated with. *)

Section Vocabulary.

Context {World : Type} {lib : LibAV World}.

Local Abbreviation M := (StateM (State World)).
Implicit Types (s : State World) (c : ConcatContext) (evs : list Event).
Implicit Types (fs : list ConcatFile).

(** Readers that [avformat_open_input] handed over (it answered 0 or more). *)
Definition opened (evs : list Event) : list Reader :=
  omap (fun e => match e with
                 | CallOpenInput h _ _ ret => if ret <? 0 then None else Some h
                 | _ => None
                 end) evs.

(** Readers given to [avformat_close_input]. *)
Definition closed (evs : list Event) : list Reader :=
  omap (fun e => match e with CallCloseInput h => Some h | _ => None end) evs.

(** The calls of [open_file]: index asked for and result. *)
Definition attempts (evs : list Event) : list (nat * Z) :=
  omap (fun e => match e with OpenFileReturned i r => Some (i, r) | _ => None end) evs.

(** The try counters of the "open_next_file() failed" warnings. *)
Definition warnings (evs : list Event) : list Z :=
  omap (fun e => match e with LogOpenNextFailed n => Some n | _ => None end) evs.

(** Calls of [av_read_frame]. *)
Definition reads (evs : list Event) : list Reader :=
  omap (fun e => match e with CallReadFrame h _ _ => Some h | _ => None end) evs.

(** NULL closes nothing, a reader closes itself. *)
Definition reader_list (p : option Reader) : list Reader :=
  match p with Some h => [h] | None => [] end.

(** What [open_file] leaves in [file->start_time]. *)
Definition start_time_after_open (fs : list ConcatFile) (fileno : nat)
    (file : ConcatFile) : Z :=
  if start_time file =? AV_NOPTS_VALUE then
    match fileno with
    | O => 0
    | S prev => match fs !! prev with
                | Some p => add64 (start_time p) (duration p)
                | None => start_time file
                end
    end
  else start_time file.

(** Each call of [open_file] asks for the successor of the segment that is
    active at that moment: after a failure the same index again, after a
    success the next one.  [cur] is the active index before the first call. *)
Fixpoint attempts_follow (cur : nat) (l : list (nat * Z)) : bool :=
  match l with
  | [] => true
  | (j, r) :: l' =>
      (j =? S cur)%nat && attempts_follow (if r <? 0 then cur else j) l'
  end.

(** What [avf->pb->error] holds once [set_pb_error] has run. *)
Definition pb_error_after (ret : Z) (pb : option Z) : option Z :=
  match pb with
  | Some e => if negb (ret =? AVERROR_EOF) then Some ret else Some e
  | None => None
  end.

(** [runs m s Q]: from [s] the program [m] returns, and its result [a], final
    state [s'] and the events [evs] it added to the history satisfy
    [Q a s' evs]. *)
Definition runs {A} (m : M A) s (Q : A -> State World -> list Event -> Prop) : Prop :=
  exists a s' evs, m s = Done (a, s') /\ history s' = history s ++ evs /\ Q a s' evs.

(** The state [open_file] leaves on success, given the reader it opened. *)
Definition installed (fileno : nat) (file : ConcatFile) (h : Reader)
    (c : ConcatContext) : ConcatContext :=
  with_files (<[fileno := with_start_time
                            (start_time_after_open (files c) fileno file) file]>
                (files c))
    (with_cur_file (Some fileno) (with_avf (Some h) c)).

(** A segment is active: [cur_file] points into the table and its reader is
    installed.  A successful [open_file] leaves the demuxer so (as does
    [concat_read_header], which ends on [open_file(avf, 0)]), and
    [concat_read_packet] and [concat_seek] keep it so. *)
Definition ready s (i : nat) (h : Reader) : Prop :=
  cur_file (cat s) = Some i /\ avf (cat s) = Some h /\
  (i < length (files (cat s)))%nat.

(** The fields no operation after the header writes. *)
Definition same_setup s s' : Prop :=
  ctx_duration s' = ctx_duration s /\ streams s' = streams s /\
  safe (cat s') = safe (cat s) /\ seekable (cat s') = seekable (cat s) /\
  rw_timeout (cat s') = rw_timeout (cat s) /\
  length (files (cat s')) = length (files (cat s)).

(** What holds when the loop of [concat_read_packet] is left, having been
    entered in [s] with [try_counter] and active segment [i]. *)
Definition loop_post s (try_counter : Z) (i : nat)
    (r : LoopExit) s' evs : Prop :=
  same_setup s s' /\
  (exists i' h', ready s' i' h' /\ (i <= i')%nat /\
     match r with
     | Break ret pkt' =>
         ret <> AVERROR_EOF /\
         error (cat s') = error (cat s) /\ pb_error s' = pb_error s /\
         exists evs0, evs = evs0 ++ [CallReadFrame h' ret pkt']
     | GotoFail ret pkt' =>
         ret = AVERROR_EOF /\ error (cat s') < 0 /\
         pb_error s' = pb_error_after (error (cat s')) (pb_error s) /\
         Z.of_nat (length (warnings evs)) = 3 - try_counter /\
         ((error (cat s') = AVERROR_EOF /\ S i' = length (files (cat s))) \/
          (exists l, attempts evs = l ++ [(S i', error (cat s'))]))
     end) /\
  Z.of_nat (length (warnings evs)) <= 3 - try_counter /\
  attempts_follow i (attempts evs) = true.

(** The packet [concat_read_packet] hands out for the packet [raw] of the
    reader [h], the segment [file] being active. *)
Definition adjusted (w : World) (h : Reader) (file : ConcatFile)
    (raw : AVPacket) : AVPacket :=
  let delta :=
    av_rescale_q (sub64 (start_time file) (reader_start_time h w))
                 AV_TIME_BASE_Q (reader_time_base h (stream_index raw) w) in
  mkPacket (offset_timestamp (pts raw) delta) (offset_timestamp (dts raw) delta)
           (stream_index raw) (payload raw).

(** [start_time] does not decrease along the table. *)
Definition sorted_starts fs : Prop :=
  forall i j fi fj, (i <= j)%nat ->
    fs !! i = Some fi -> fs !! j = Some fj -> start_time fi <= start_time fj.


(** Table sizes for which [left + right] stays an [int]. *)
Definition int_indexable fs : Prop := Z.of_nat (length fs) <= 2 ^ 30.

(** The search as [real_seek] runs it: over the whole table, with the
    table's length for budget. *)
Definition located fs (ts : Z) (k : nat) : Prop :=
  locate (length fs) fs ts 0 (wrap32 (Z.of_nat (length fs))) = Done (Z.of_nat k).

(** Events that open, close or read nothing and are no return of
    [open_file]. *)
Definition silent evs : Prop :=
  opened evs = [] /\ closed evs = [] /\ attempts evs = [] /\
  warnings evs = [] /\ reads evs = [].

(** The fallback of [real_seek] may go ahead: there is a next segment and
    it starts before [max_ts]. *)
Definition fallback_allowed (fs : list ConcatFile) (k : nat) (max_ts : Z) : Prop :=
  exists next, fs !! S k = Some next /\ start_time next < max_ts.

(** What [real_seek] has done once segment [k] was located: which segments
    it opened, which one is left installed, and that every reader it opened
    and did not leave installed is closed. *)
Definition seek_post s (k : nat) (max_ts : Z) (ret : Z) s' evs : Prop :=
  same_setup s s' /\ error (cat s') = error (cat s) /\
  pb_error s' = pb_error s /\
  warnings evs = [] /\ reads evs = [] /\
  Permutation (reader_list (avf (cat s')) ++ closed evs)
              (reader_list (avf (cat s)) ++ opened evs) /\
  ((ret < 0 /\ attempts evs = [(k, ret)] /\ cat s' = cat s) \/
   (attempts evs = [(k, 0)] /\ (exists h', ready s' k h') /\
    (ret < 0 -> ~ fallback_allowed (files (cat s)) k max_ts)) \/
   (exists r, attempts evs = [(k, 0); (S k, r)] /\
      fallback_allowed (files (cat s)) k max_ts /\
      ((r < 0 /\ ret = r /\ exists h', ready s' k h') \/
       (r = 0 /\ exists h', ready s' (S k) h')))).

(** The window [real_seek] searches and seeks with: the caller's, rescaled
    to AV_TIME_BASE_Q when a stream is named. *)
Definition seek_window (st : list AVRational) (stream min_ts ts max_ts : Z)
    : Z * Z * Z :=
  if stream >=? 0 then
    match st !! Z.to_nat stream with
    | Some time_base => rescale_interval time_base AV_TIME_BASE_Q min_ts ts max_ts
    | None => (min_ts, ts, max_ts)
    end
  else (min_ts, ts, max_ts).

Definition window_ts (w : Z * Z * Z) : Z := snd (fst w).
Definition window_max (w : Z * Z * Z) : Z := snd w.

(** [real_seek] refuses a stream index the demuxer does not have. *)
Definition stream_rejected (st : list AVRational) (stream : Z) : bool :=
  (stream >=? 0) && (stream >=? Z.of_nat (length st)).

(** Byte and frame seeks are refused. *)
Definition flags_rejected (flags : Z) : bool :=
  negb (Z.land flags (Z.lor AVSEEK_FLAG_BYTE AVSEEK_FLAG_FRAME) =? 0).

(** Everything [concat_seek] can do from an active segment [h0]. *)
Definition seek_outcome (s : State World) (h0 : Reader)
    (stream min_ts ts max_ts flags : Z) (ret : Z) (s' : State World)
    (evs : list Event) : Prop :=
  let w := seek_window (streams s) stream min_ts ts max_ts in
  error (cat s') = 0 /\ same_setup s s' /\ pb_error s' = pb_error s /\
  warnings evs = [] /\ reads evs = [] /\
  (ret < 0 ->
     cur_file (cat s') = cur_file (cat s) /\ avf (cat s') = avf (cat s) /\
     Permutation (closed evs) (opened evs)) /\
  (0 <= ret ->
     exists j h' evs0,
       ready s' j h' /\ evs = evs0 ++ [CallCloseInput h0] /\
       Permutation (h' :: closed evs0) (opened evs)) /\
  ((attempts evs = [] /\ ret < 0 /\
    (seekable (cat s) = 0 \/ flags_rejected flags = true \/
     stream_rejected (streams s) stream = true)) \/
   (seekable (cat s) <> 0 /\ flags_rejected flags = false /\
    stream_rejected (streams s) stream = false /\
    exists k, located (files (cat s)) (window_ts w) k /\
      (k < length (files (cat s)))%nat /\
      ((exists r, attempts evs = [(k, r)] /\
                  (0 <= ret -> cur_file (cat s') = Some k) /\
                  (r = 0 -> ret < 0 ->
                   ~ fallback_allowed (files (cat s)) k (window_max w))) \/
       (exists r, attempts evs = [(k, 0); (S k, r)] /\
                  fallback_allowed (files (cat s)) k (window_max w) /\
                  (0 <= ret -> cur_file (cat s') = Some (S k)))))).

(** A table as [add_file] fills it: no [start_time] is known yet. *)
Definition starts_unknown fs : Prop :=
  Forall (fun f => start_time f = AV_NOPTS_VALUE) fs.

(** Every duration was given, by the script or by the resolver. *)
Definition durations_known fs : Prop :=
  Forall (fun f => duration f <> AV_NOPTS_VALUE) fs.

(** [time] after the first [k] durations, in the loop's own arithmetic. *)
Definition time_after fs (time : Z) (k : nat) : Z :=
  fold_left add64 (map duration (take k fs)) time.

(** The design document's NotSupported: [concat_seek] reports it as
    [AVERROR(ESPIPE)] for a table that is not seekable and as
    [AVERROR(ENOSYS)] for a byte or frame seek. *)
Definition NotSupported (ret : Z) : Prop :=
  ret = AVERROR ESPIPE \/ ret = AVERROR ENOSYS.

End Vocabulary.

(** ** What a seek asked of the readers *)

(** The calls of [avformat_seek_file]: reader asked and answer. *)
Definition seek_answers (evs : list Event) : list (Reader * Z) :=
  omap (fun e => match e with
                 | CallSeekFile h _ _ _ _ _ ret => Some (h, ret)
                 | _ => None
                 end) evs.



(** ** Scripted readers

    A world in which every library call answers the same thing each time:
    the four return codes are given, a reader is named after the number of
    contexts allocated before it, and every packet read is the same. *)

Module Scripted.

Record Answers : Type := mkAnswers {
  open_ret : Z;
  find_ret : Z;
  read_ret : Z;
  seek_ret : Z
}.

Definition packet : AVPacket := mkPacket 100 AV_NOPTS_VALUE 0 7.

Definition rescale (a : Z) (bq cq : AVRational) : Z :=
  a * (fst bq * snd cq) / (snd bq * fst cq).

Definition lib (a : Answers) : LibAV nat := {|
  avformat_alloc_context := fun w => (Some w, S w);
  avformat_open_input := fun _ _ _ w => (open_ret a, w);
  avformat_find_stream_info := fun _ w => (find_ret a, w);
  avformat_close_input := fun _ w => w;
  av_read_frame := fun _ _ w => (read_ret a, packet, w);
  avformat_seek_file := fun _ _ _ _ _ _ w => (seek_ret a, w);
  reader_start_time := fun _ _ => 2000000;
  reader_duration := fun _ _ => 10000000;
  reader_nb_streams := fun _ _ => 1;
  reader_time_base := fun _ _ _ => (1, 1000);
  control_message_cb := None;
  av_rescale_q := rescale;
  av_rescale_q_rnd := fun a bq cq _ => rescale a bq cq
|}.

(** Readers that deliver packets and accept seeks; readers at their end
    whose successors cannot be opened (EIO); readers that refuse seeks. *)
Definition healthy : Answers := mkAnswers 0 0 0 0.
Definition unreachable : Answers := mkAnswers (AVERROR EIO) 0 AVERROR_EOF 0.
Definition no_seek : Answers := mkAnswers 0 0 0 (AVERROR EIO).

(** Three segments of 10 s, 5 s and 7 s, the first one open. *)
Definition table : list ConcatFile :=
  [mkFile "a" 0 10000000; mkFile "b" 10000000 5000000;
   mkFile "c" 15000000 7000000].

Definition playing (seekable error : Z) : State nat :=
  mkState (mkCat table (Some 0%nat) (Some 0%nat) 1 seekable error (-1))
          22000000 (Some 0) [(1, 1000)] 1%nat [].

(** The same three segments as [add_file] and the script leave them, the
    last one without a duration. *)
Definition script_complete : list ConcatFile :=
  [mkFile "a" AV_NOPTS_VALUE 10000000; mkFile "b" AV_NOPTS_VALUE 5000000;
   mkFile "c" AV_NOPTS_VALUE 7000000].
Definition script_open_ended : list ConcatFile :=
  [mkFile "a" AV_NOPTS_VALUE 10000000; mkFile "b" AV_NOPTS_VALUE 5000000;
   mkFile "c" AV_NOPTS_VALUE AV_NOPTS_VALUE].

Definition parsed (fs : list ConcatFile) : State nat :=
  mkState (mkCat fs None None 1 0 0 (-1)) 0 (Some 0) [] 0%nat [].


End Scripted.

(** ** The script: [concat_probe], [get_keyword], [add_file] with its
    allocations, [concat_read_close] and [concat_read_header] *)

(** SPACE_CHARS of libavformat/internal.h: blank, tab, CR, LF. *)
Definition SPACE_CHARS : string :=
  String " " (String "009" (String "013" (String "010" EmptyString))).

(** FFERRTAG('I','N','D','A'), AVPROBE_SCORE_MAX and AVPROBE_PADDING_SIZE
    (libavutil/error.h, libavformat/avformat.h). *)
Definition AVERROR_INVALIDDATA : Z := - MKTAG 73 78 68 65.
Definition AVPROBE_SCORE_MAX : Z := 100.
Definition AVPROBE_PADDING_SIZE : nat := 32.

(** Does [c] occur in the C string [set]? *)
Fixpoint in_set (c : ascii) (set : string) : bool :=
  match set with
  | EmptyString => false
  | String d rest => Ascii.eqb c d || in_set c rest
  end.

(** [strspn] and [strcspn] of the C library. *)
Fixpoint strspn (s accept : string) : nat :=
  match s with
  | EmptyString => O
  | String c rest => if in_set c accept then S (strspn rest accept) else O
  end.

Fixpoint strcspn (s reject : string) : nat :=
  match s with
  | EmptyString => O
  | String c rest => if in_set c reject then O else S (strcspn rest reject)
  end.

(** [cursor + n] and the [n] characters it steps over. *)
Fixpoint advance (n : nat) (cursor : string) : string :=
  match n, cursor with
  | O, _ => cursor
  | S n', String _ rest => advance n' rest
  | S _, EmptyString => EmptyString
  end.

Fixpoint upto (n : nat) (cursor : string) : string :=
  match n, cursor with
  | O, _ => EmptyString
  | S n', String c rest => String c (upto n' rest)
  | S _, EmptyString => EmptyString
  end.

(** [get_keyword]: the keyword returned (the text from [ret] to the NUL the
    function writes, or to the end of the line) and the cursor it leaves.
    A line is a C string: its end is the terminating NUL. *)
Definition get_keyword (cursor : string) : string * string :=
  let cursor := advance (strspn cursor SPACE_CHARS) cursor in
  let n := strcspn cursor SPACE_CHARS in
  let ret := upto n cursor in
  match advance n cursor with
  | EmptyString => (ret, EmptyString)
  | String _ rest => (ret, advance (strspn rest SPACE_CHARS) rest)
  end.

(** [concat_probe].  [probe->buf] is the bytes read, followed by
    AVPROBE_PADDING_SIZE zero bytes, so the 20 bytes [memcmp] looks at are
    always there. *)
Fixpoint zero_bytes (n : nat) : string :=
  match n with
  | O => EmptyString
  | S n' => String "000" (zero_bytes n')
  end.

Definition concat_probe (buf : string) : Z :=
  if String.eqb (upto 20 (buf ++ zero_bytes AVPROBE_PADDING_SIZE))
                "ffconcat version 1.0"
  then AVPROBE_SCORE_MAX else 0.

(** [add_file] with its allocations.  [malloc_ok] and [realloc_ok] are what
    [av_malloc] (for the url) and [av_realloc] (for the table) answer;
    [size_limit] is SIZE_MAX over the size of a descriptor; [nb_files_alloc] is an
    [unsigned].  The result is the error code, or the context with the new
    capacity. *)
Definition add_file_alloc (absolute_url : string -> string) (size_limit : Z)
    (malloc_ok realloc_ok : bool) (filename : string)
    (c : ConcatContext) (nb_files_alloc : Z) : Z + ConcatContext * Z :=
  if (safe c >? 0) && negb (safe_filename filename) then inl (AVERROR EPERM)
  else if negb malloc_ok then inl (AVERROR ENOMEM)
  else
    let added :=
      with_files (files c ++ [mkFile (absolute_url filename)
                                     AV_NOPTS_VALUE AV_NOPTS_VALUE]) c in
    if nb_files c >=? nb_files_alloc then
      let n := Z.max (wrapu32 (nb_files_alloc * 2)) 16 in
      if (n <=? nb_files c) || (n >? size_limit) || negb realloc_ok
      then inl (AVERROR ENOMEM)
      else inr (added, n)
    else inr (added, nb_files_alloc).

(** What [concat_read_header] needs besides the readers.  [av_get_token]
    answers the token at the cursor ([None] for NULL); [av_parse_time] its
    return code and the duration; [ff_make_absolute_url] the locator for a
    base and a name; the two resolver calls are [avf->control_message_cb]
    with IJKAVF_CM_RESOLVE_SEGMENT_CONCAT (return code and [fsc_cat.count]
    after the call) and IJKAVF_CM_RESOLVE_SEGMENT_OFFLINE (return code,
    [fsc.url], [fsc.duration]).  [avformat_new_stream] and
    [avcodec_copy_context] work on the demuxer's own context, not on the
    readers: the world only says whether stream [i] can be made and copied.
    [av_strdup] says whether the copy of a string can be allocated. *)
Class HeaderLib (World : Type) : Type := {
  av_strdup : string -> World -> bool;
  av_get_token : string -> option string;
  av_parse_time : string -> Z * Z;
  ff_make_absolute_url : string -> string -> string;
  resolve_segment_concat : World -> Z * Z * World;
  resolve_segment_offline : Z -> World -> Z * option string * Z * World;
  avformat_new_stream : nat -> World -> bool;
  avcodec_copy_context : Reader -> nat -> World -> Z
}.

(** [fsc_cat] and [ret] are not initialised in [concat_read_header]: without
    a callback they hold whatever was there. *)
Record Indeterminate : Type := mkIndeterminate {
  uninit_count : Z;
  uninit_ret : Z
}.

(** The time base [avformat_new_stream] gives a new stream
    (libavformat/utils.c). *)
Definition NEW_STREAM_TIME_BASE : AVRational := (1, 90000).

Definition with_safe (v : Z) (c : ConcatContext) : ConcatContext :=
  mkCat (files c) (cur_file c) (avf c) v (seekable c) (error c) (rw_timeout c).

(** How the script loop is left: by [FAIL], or normally with [ret] and the
    descriptor [file] points at.  Both carry [cat] as it is by then. *)
Inductive Built : Type :=
| Failed (ret : Z) (c : ConcatContext)
| Parsed (ret : Z) (c : ConcatContext) (file : option nat).

Section HeaderProgram.

Context {World : Type} {lib : LibAV World} {hlib : HeaderLib World}.

Local Abbreviation M := (StateM (State World)).

(** [!*keyword || *keyword == '#'] *)
Definition skipped (keyword : string) : bool :=
  match keyword with
  | EmptyString => true
  | String c _ => Ascii.eqb c "#"
  end.

(** [file->duration = dur], [file] being [&cat->files[i]]. *)
Definition set_duration (i : nat) (dur : Z) (c : ConcatContext) : ConcatContext :=
  with_files (alter (with_duration dur) i (files c)) c.

(** One round of the [while] loop of [concat_read_header], on the line in
    [buf] ([line] is only printed); [add_file]'s allocations succeed. *)
Definition script_line (script_name : string) (buf : string)
    (c : ConcatContext) (file : option nat) : Built :=
  let '(keyword, cursor) := get_keyword buf in
  if skipped keyword then Parsed 0 c file
  else if String.eqb keyword "file" then
    match av_get_token cursor with
    | None => Failed AVERROR_INVALIDDATA c
    | Some filename =>
        match add_file (ff_make_absolute_url script_name) filename c with
        | inl ret => Failed ret c
        | inr c' => Parsed 0 c' (Some (length (files c)))
        end
    end
  else if String.eqb keyword "duration" then
    let '(dur_str, _) := get_keyword cursor in
    match file with
    | None => Failed AVERROR_INVALIDDATA c
    | Some i =>
        let '(ret, dur) := av_parse_time dur_str in
        if ret <? 0 then Failed ret c
        else Parsed ret (set_duration i dur c) file
    end
  else if String.eqb keyword "ffconcat" then
    let '(ver_kw, cursor) := get_keyword cursor in
    let '(ver_val, _) := get_keyword cursor in
    if negb (String.eqb ver_kw "version") || negb (String.eqb ver_val "1.0")
    then Failed AVERROR_INVALIDDATA c
    else Parsed 0 (if safe c <? 0 then with_safe 1 c else c) file
  else Failed AVERROR_INVALIDDATA c.

(** Modelled from the spec: [ff_get_line] (libavformat/aviobuf.c) hands over
    the script one line at a time and answers the line's length, 0 once
    there is nothing left.  [lines] are the buffers it fills, in order; the
    [while] loop of [concat_read_header] runs over them until one is empty. *)
Fixpoint read_script (script_name : string) (lines : list string)
    (c : ConcatContext) (file : option nat) : Built :=
  match lines with
  | [] => Parsed 0 c file
  | buf :: rest =>
      let ret := Z.of_nat (String.length buf) in
      if ret <=? 0 then Parsed ret c file
      else
        match script_line script_name buf c file with
        | Failed e c' => Failed e c'
        | Parsed _ c' file' => read_script script_name rest c' file'
        end
  end.

(** A library call that answers and changes the world. *)
Definition ask {A} (f : World -> A * World) : M A :=
  fun s => let '(a, w) := f (world s) in Done (a, with_world w s).

(** The [for] loop over the resolver's segments, from [i] on, [n] rounds to
    go: [inl] is [FAIL(ret)], [inr] is [ret] at the end.  The result of
    [av_strdup] goes to [add_file] unchecked: when the copy could not be
    allocated, [add_file] reads through NULL, in [safe_filename] or in
    [strlen]. *)
Fixpoint resolve_segments (script_name : string) (n : nat) (i : Z) (ret : Z)
    : M (Z + Z) :=
  match n with
  | O => pure (inr ret)
  | S n' =>
      r <- ask (resolve_segment_offline i) ;;
      let '(cb_ret, fsc_url, fsc_duration) := r in
      match fsc_url with
      | Some u =>
          if cb_ret =? 0 then
            copied <- gets (fun s => av_strdup u (world s)) ;;
            if negb copied then undefined
            else
            c <- gets cat ;;
            match add_file (ff_make_absolute_url script_name) u c with
            | inl e => pure (inl e)
            | inr c' =>
                modify_cat (fun _ =>
                  set_duration (length (files c)) fsc_duration c') ;;;
                resolve_segments script_name n' (i + 1) 0
            end
          else resolve_segments script_name n' (i + 1) ret
      | None => resolve_segments script_name n' (i + 1) ret
      end
  end.

(** [concat_read_close].  The table is released: [files] is the empty list
    afterwards.  The source leaves [cat->nb_files] as it was next to the
    null [cat->files]; the table here has no count of its own, [nb_files]
    is its length, so a state after [concat_read_close] stands for a demuxer
    that is not used again: it says nothing of a second close, which in the
    source would go through the stale count. *)
Definition concat_read_close : M Z :=
  c <- gets cat ;;
  call_close_input (avf c) ;;;
  modify_cat (fun c => with_files [] (with_avf None c)) ;;;
  pure 0.

(** [fail: concat_read_close(avf); return ret;] *)
Definition header_fail (ret : Z) : M Z :=
  concat_read_close ;;; pure ret.

Definition with_streams (st : list AVRational) (s : State World) : State World :=
  mkState (cat s) (ctx_duration s) (pb_error s) st (world s) (history s).

(** The loop that copies the streams of the first reader, from stream [i]
    on, [n] streams to go; it answers 0 or the error to fail with. *)
Fixpoint copy_streams (n : nat) (i : nat) (h : Reader) : M Z :=
  match n with
  | O => pure 0
  | S n' =>
      made <- gets (fun s => avformat_new_stream i (world s)) ;;
      if negb made then pure (AVERROR ENOMEM)
      else
        modify (fun s => with_streams (streams s ++ [NEW_STREAM_TIME_BASE]) s) ;;;
        ret <- gets (fun s => avcodec_copy_context h i (world s)) ;;
        if ret <? 0 then pure ret
        else
          time_base <- gets (fun s => reader_time_base h (Z.of_nat i) (world s)) ;;
          modify (fun s => with_streams
                             (<[(length (streams s) - 1)%nat := time_base]> (streams s)) s) ;;;
          copy_streams n' (S i) h
  end.

(** The script part: the [while] loop, skipped when the resolver reported
    segments. *)
Definition run_script (script_name : string) (lines : list string)
    (count ret : Z) : M (Z + Z) :=
  if count <=? 0 then
    c <- gets cat ;;
    match read_script script_name lines c None with
    | Failed e c' => modify_cat (fun _ => c') ;;; pure (inl e)
    | Parsed ret' c' _ => modify_cat (fun _ => c') ;;; pure (inr ret')
    end
  else pure (inr ret).

(** The resolver part: [inl] is [FAIL(ret)], [inr] is [ret] and
    [fsc_cat.count] afterwards. *)
Definition run_resolver (script_name : string) (stack : Indeterminate)
    : M (Z + Z * Z) :=
  match control_message_cb with
  | None => pure (inr (uninit_ret stack, uninit_count stack))
  | Some _ =>
      r <- ask resolve_segment_concat ;;
      let '(cb_ret, count) := r in
      if cb_ret =? 0 then
        r <- resolve_segments script_name (Z.to_nat count) 0 (uninit_ret stack) ;;
        match r with
        | inl e => pure (inl e)
        | inr ret => pure (inr (ret, count))
        end
      else pure (inr (uninit_ret stack, count))
  end.

(** [concat_read_header].  [script_name] is [avf->filename]. *)
Definition concat_read_header (script_name : string) (lines : list string)
    (stack : Indeterminate) : M Z :=
  r <- run_resolver script_name stack ;;
  match r with
  | inl e => header_fail e
  | inr (ret, count) =>
      r <- run_script script_name lines count ret ;;
      match r with
      | inl e => header_fail e
      | inr ret =>
          if ret <? 0 then header_fail ret
          else
            c <- gets cat ;;
            if nb_files c =? 0 then header_fail AVERROR_INVALIDDATA
            else
              modify read_header_backfill ;;;
              ret <- open_file 0 ;;
              if ret <? 0 then header_fail ret
              else
                c <- gets cat ;;
                h <- deref (avf c) ;;
                n <- gets (fun s => reader_nb_streams h (world s)) ;;
                ret <- copy_streams (Z.to_nat n) 0 h ;;
                if ret <? 0 then header_fail ret else pure 0
      end
  end.

End HeaderProgram.

(** ** The vocabulary of the script reader *)

Definition is_space (c : ascii) : bool := in_set c SPACE_CHARS.

(** Every character of [s] passes [test]. *)
Fixpoint all_chars (test : ascii -> bool) (s : string) : bool :=
  match s with
  | EmptyString => true
  | String c rest => test c && all_chars test rest
  end.

(** [s] does not begin with a blank. *)
Definition starts_on_text (s : string) : bool :=
  match s with
  | EmptyString => true
  | String c _ => negb (is_space c)
  end.

(** The magic [concat_probe] looks for. *)
Definition ffconcat_magic : string := "ffconcat version 1.0".

(** [c] is fine at position [i] of the name [f]: a letter, a digit, [_] or
    [-]; or a [/] or a [.] that neither begins the name nor follows a [/]. *)
Definition char_allowed_at (f : string) (i : nat) (c : ascii) : Prop :=
  is_safe_char c = true \/
  ((c = "/"%char \/ c = "."%char) /\
   exists j p, i = S j /\ String.get j f = Some p /\ p <> "/"%char).

(** Capacities [add_file] can have reached: none yet, or 16 doubled some
    times, up to 2^31, with the table within it. *)
Definition capacity_ok (used nb_files_alloc : Z) : Prop :=
  0 <= used <= nb_files_alloc /\
  (nb_files_alloc = 0 \/
   exists k, 0 <= k <= 27 /\ nb_files_alloc = 16 * 2 ^ k).

(** [file] is where the script loop keeps it: NULL while the table is
    empty, on the descriptor added last afterwards. *)
Definition points_at_last (c : ConcatContext) (file : option nat) : Prop :=
  match file with
  | None => files c = []
  | Some i => length (files c) = S i
  end.

(** [c'] is [c] after some rounds of the script loop or of the resolver
    loop: descriptors were added behind the ones there were, for names that
    passed [safe_filename] if safe mode was on; [safe] was at most switched
    on from its unset value; no other field was written; and no [start_time]
    was given. *)
Definition table_extended (absolute_url : string -> string)
    (c c' : ConcatContext) : Prop :=
  cur_file c' = cur_file c /\ avf c' = avf c /\ seekable c' = seekable c /\
  error c' = error c /\ rw_timeout c' = rw_timeout c /\
  (safe c' = safe c \/ (safe c < 0 /\ safe c' = 1)) /\
  (exists names,
     map url (files c') = map url (files c) ++ map absolute_url names /\
     (0 < safe c -> Forall (fun name => safe_filename name = true) names)) /\
  (Forall (fun f => start_time f = AV_NOPTS_VALUE) (files c) ->
   Forall (fun f => start_time f = AV_NOPTS_VALUE) (files c')).

(** What the demuxer keeps of a table once it plays: the length, every
    [url], and every [start_time] and [duration] that is known. *)
Definition table_kept (fs fs' : list ConcatFile) : Prop :=
  length fs' = length fs /\
  forall k f, fs !! k = Some f ->
    exists f', fs' !! k = Some f' /\ url f' = url f /\
      (start_time f <> AV_NOPTS_VALUE -> start_time f' = start_time f) /\
      (duration f <> AV_NOPTS_VALUE -> duration f' = duration f).

Section SessionVocabulary.

Context {World : Type} {lib : LibAV World}.

Local Abbreviation M := (StateM (State World)).

(** The demuxer as [concat_read_header] finds it: the private data zeroed,
    but for the options [safe] and [rw_timeout]. *)
Definition unopened (s : State World) : Prop :=
  files (cat s) = [] /\ cur_file (cat s) = None /\ avf (cat s) = None /\
  seekable (cat s) = 0 /\ error (cat s) = 0.

(** The books of the readers balance over [evs]: the reader installed at the
    end and the readers closed are the reader installed at the start and the
    readers opened. *)
Definition accounted (s s' : State World) (evs : list Event) : Prop :=
  Permutation (reader_list (avf (cat s')) ++ closed evs)
              (reader_list (avf (cat s)) ++ opened evs).

(** The calls a client makes between [concat_read_header] and
    [concat_read_close], through the [read_packet] and [read_seek2] entries
    of [ff_concat_demuxer]. *)
Inductive Call : Type :=
| ReadPacket (pkt : AVPacket)
| Seek (stream min_ts ts max_ts flags : Z).

Fixpoint session (calls : list Call) : M unit :=
  match calls with
  | [] => pure tt
  | ReadPacket pkt :: rest => concat_read_packet pkt ;;; session rest
  | Seek stream min_ts ts max_ts flags :: rest =>
      concat_seek stream min_ts ts max_ts flags ;;; session rest
  end.

(** [m] keeps [R]: whenever it returns, [R] relates the state it was
    started in and the state it leaves. *)
Definition keeps {A} (R : State World -> State World -> Prop) (m : M A) : Prop :=
  forall s a s', m s = Done (a, s') -> R s s'.

(** What every operation on a playing demuxer keeps: the table, in the
    sense of [table_kept], and the books of the readers over the events it
    added. *)
Definition steady (s s' : State World) : Prop :=
  table_kept (files (cat s)) (files (cat s')) /\
  exists evs, history s' = history s ++ evs /\ accounted s s' evs.

End SessionVocabulary.

(** A line the script loop passes over: blanks only, or a [#] as its first
    character that is not a blank.  ([ff_get_line] hands over no empty
    line before the end of the script.) *)
Definition comment_or_blank (buf : string) : Prop :=
  buf <> EmptyString /\
  (all_chars is_space buf = true \/
   exists lead rest,
     buf = (lead ++ String "#" rest)%string /\ all_chars is_space lead = true).

(** [cat] when the script loop is left, either way. *)
Definition context_of (b : Built) : ConcatContext :=
  match b with
  | Failed _ c => c
  | Parsed _ c _ => c
  end.

Section HeaderVocabulary.

Context {World : Type} {lib : LibAV World} {hlib : HeaderLib World}.

(** The rounds the resolver loop of [concat_read_header] makes from [s]:
    none without a callback or when the callback refuses, [fsc_cat.count]
    otherwise. *)
Definition resolver_count (s : State World) : nat :=
  match control_message_cb with
  | None => 0%nat
  | Some _ =>
      let '(cb_ret, count, _) := resolve_segment_concat (world s) in
      if cb_ret =? 0 then Z.to_nat count else 0%nat
  end.

(** What the resolver loop takes up: of the callback's answers for the
    positions from [i] on, [n] of them, those with the code 0 and a
    locator, in order, each with its duration. *)
Fixpoint resolved (n : nat) (i : Z) (w : World) : list (string * Z) :=
  match n with
  | O => []
  | S n' =>
      let '(cb_ret, fsc_url, fsc_duration, w') := resolve_segment_offline i w in
      match fsc_url with
      | Some u =>
          if cb_ret =? 0 then (u, fsc_duration) :: resolved n' (i + 1) w'
          else resolved n' (i + 1) w'
      | None => resolved n' (i + 1) w'
      end
  end.

(** The descriptors the resolver loop makes of them for the script [name]:
    the locator made absolute, no start, the duration the callback gave. *)
Definition resolved_files (name : string) (segments : list (string * Z))
    : list ConcatFile :=
  map (fun p => mkFile (ff_make_absolute_url name (fst p)) AV_NOPTS_VALUE (snd p))
      segments.

(** The resolver loop is never out of memory for the copy of a locator:
    there is no callback, so that the loop does not run, or [av_strdup]
    always succeeds. *)
Definition resolver_allocates : Prop :=
  control_message_cb = None \/ forall u w, av_strdup u w = true.

(** [fs] is the table [concat_read_header] has built from [s] when it
    comes to the checks behind the script loop: when the loop ran (the
    count it found is not positive) what the loop makes of the lines, up to
    the line where it stops; else what the resolver loop has added. *)
Definition built_by (name : string) (lines : list string)
    (stack : Indeterminate) (s : State World) (fs : list ConcatFile) : Prop :=
  exists ret count s1,
    run_resolver name stack s = Done (inr (ret, count), s1) /\
    fs = if count <=? 0
         then files (context_of (read_script name lines (cat s) None))
         else files (cat s1).

(** A script and a resolver small enough for a table [real_seek] can
    search with [int] indices. *)
Definition script_fits (lines : list string) (s : State World) : Prop :=
  Z.of_nat (length lines + resolver_count s) <= 2 ^ 30.

(** Everything [concat_read_header] can do from a demuxer that was just
    allocated.  Either it fails, with a negative code, the table released,
    no reader installed and every reader it opened closed again; or it
    returns 0: the table is what the pass over the starts makes of the
    table [fs] that was built, descriptors with unknown starts, for names
    that passed [safe_filename] if safe mode was on; segment 0 is active on
    the one reader that was opened; and the demuxer has got one stream for
    each stream of that reader, with its time base. *)
Definition header_outcome (name : string) (lines : list string)
    (stack : Indeterminate)
    (s : State World) (ret : Z) (s' : State World) (evs : list Event) : Prop :=
  pb_error s' = pb_error s /\ error (cat s') = 0 /\
  rw_timeout (cat s') = rw_timeout (cat s) /\
  (safe (cat s') = safe (cat s) \/ (safe (cat s) < 0 /\ safe (cat s') = 1)) /\
  warnings evs = [] /\ reads evs = [] /\
  ((ret < 0 /\ files (cat s') = [] /\ avf (cat s') = None /\
    closed evs = opened evs /\ exists made, streams s' = streams s ++ made) \/
   (ret = 0 /\ exists h fs,
      built_by name lines stack s fs /\
      Forall (fun f => start_time f = AV_NOPTS_VALUE) fs /\ fs <> [] /\
      (length fs <= length lines + resolver_count s)%nat /\
      (exists names,
         map url fs = map (ff_make_absolute_url name) names /\
         (0 < safe (cat s) ->
          Forall (fun filename => safe_filename filename = true) names)) /\
      files (cat s') = fst (fst (backfill fs 0)) /\
      cur_file (cat s') = Some 0%nat /\ avf (cat s') = Some h /\
      (if (snd (fst (backfill fs 0)) =? length fs)%nat
       then seekable (cat s') = 1 /\ ctx_duration s' = snd (backfill fs 0)
       else seekable (cat s') = 0 /\ ctx_duration s' = ctx_duration s) /\
      opened evs = [h] /\ closed evs = [] /\ attempts evs = [(0%nat, 0)] /\
      streams s' = streams s ++
        map (fun k => reader_time_base h (Z.of_nat k) (world s'))
            (seq 0 (Z.to_nat (reader_nb_streams h (world s')))))).

(** A demuxer's life as its client drives it: the header, then, if that
    succeeded, any calls, then [concat_read_close]. *)
Definition play (name : string) (lines : list string) (stack : Indeterminate)
    (calls : list Call) : StateM (State World) Z :=
  ret <- concat_read_header name lines stack ;;
  if ret <? 0 then pure ret
  else session calls ;;; concat_read_close.

End HeaderVocabulary.

(** The version number ends where the magic does: at the end of the line
    or at a blank. *)
Definition version_ends (rest : string) : bool :=
  match rest with
  | EmptyString => true
  | String c _ => is_space c
  end.

(** ** A scripted header library

    Tokens are blank-separated words, durations are whole seconds in decimal
    digits, locators are the names themselves, the resolver knows two
    segments of 4 s and every stream can be made and copied. *)

Module ScriptedHeader.

Fixpoint digits (s : string) (acc : Z) : option Z :=
  match s with
  | EmptyString => Some acc
  | String c rest =>
      let d := Z.of_N (N_of_ascii c) - 48 in
      if (0 <=? d) && (d <? 10) then digits rest (10 * acc + d) else None
  end.

Definition parse_seconds (s : string) : Z * Z :=
  match s with
  | EmptyString => (AVERROR EINVAL, 0)
  | _ => match digits s 0 with
         | Some n => (0, n * 1000000)
         | None => (AVERROR EINVAL, 0)
         end
  end.

Definition hlib : HeaderLib nat := {|
  av_strdup := fun _ _ => true;
  av_get_token := fun cursor =>
    match fst (get_keyword cursor) with
    | EmptyString => None
    | name => Some name
    end;
  av_parse_time := parse_seconds;
  ff_make_absolute_url := fun _ name => name;
  resolve_segment_concat := fun w => (0, 2, w);
  resolve_segment_offline := fun i w =>
    (0, Some (if (i =? 0)%Z then "r0"%string else "r1"%string), 4000000, w);
  avformat_new_stream := fun _ _ => true;
  avcodec_copy_context := fun _ _ _ => 0
|}.

(** The same library out of memory for copies of strings. *)
Definition hlib_no_memory : HeaderLib nat := {|
  av_strdup := fun _ _ => false;
  av_get_token := av_get_token (HeaderLib := hlib);
  av_parse_time := parse_seconds;
  ff_make_absolute_url := fun _ name => name;
  resolve_segment_concat := fun w => (0, 2, w);
  resolve_segment_offline := fun i w =>
    (0, Some (if (i =? 0)%Z then "r0"%string else "r1"%string), 4000000, w);
  avformat_new_stream := fun _ _ => true;
  avcodec_copy_context := fun _ _ _ => 0
|}.

(** Readers as [Scripted.lib] has them, with a resolver callback that leaves
    the locators alone. *)
Definition lib_with_resolver (a : Scripted.Answers) : LibAV nat := {|
  avformat_alloc_context := fun w => (Some w, S w);
  avformat_open_input := fun _ _ _ w => (Scripted.open_ret a, w);
  avformat_find_stream_info := fun _ w => (Scripted.find_ret a, w);
  avformat_close_input := fun _ w => w;
  av_read_frame := fun _ _ w => (Scripted.read_ret a, Scripted.packet, w);
  avformat_seek_file := fun _ _ _ _ _ _ w => (Scripted.seek_ret a, w);
  reader_start_time := fun _ _ => 2000000;
  reader_duration := fun _ _ => 10000000;
  reader_nb_streams := fun _ _ => 1;
  reader_time_base := fun _ _ _ => (1, 1000);
  control_message_cb := Some (fun _ w => (1, None, w));
  av_rescale_q := Scripted.rescale;
  av_rescale_q_rnd := fun a bq cq _ => Scripted.rescale a bq cq
|}.

(** A demuxer that has not read its header yet. *)
Definition fresh (safe : Z) : State nat :=
  mkState (mkCat [] None None safe 0 0 (-1)) 0 (Some 0) [] 0%nat [].

Definition stack : Indeterminate := mkIndeterminate 0 0.

(** A script with its version line, two segments with durations, a comment
    and a blank line. *)
Definition script : list string :=
  [String.append "ffconcat version 1.0" (String "010" EmptyString);
   String.append "# two clips" (String "010" EmptyString);
   String.append "file a.mkv" (String "010" EmptyString);
   String.append "duration 10" (String "010" EmptyString);
   String "010" EmptyString;
   String.append "file b.mkv" (String "010" EmptyString);
   String.append "duration 5" (String "010" EmptyString)].

End ScriptedHeader.

(** ** Machine integers, within range *)

Lemma wrap64_small z : in_int64 z -> wrap64 z = z.
Proof.
  unfold in_int64, INT64_MIN, INT64_MAX, wrap64. intros Hz.
  rewrite Z.mod_small; lia.
Qed.

Lemma wrap64_range z : in_int64 (wrap64 z).
Proof.
  unfold in_int64, INT64_MIN, INT64_MAX, wrap64.
  pose proof (Z.mod_pos_bound (z + 2 ^ 63) (2 ^ 64)). lia.
Qed.

Lemma add64_exact a b : in_int64 (a + b) -> add64 a b = a + b.
Proof. apply wrap64_small. Qed.

Lemma sub64_exact a b : in_int64 (a - b) -> sub64 a b = a - b.
Proof. apply wrap64_small. Qed.

Lemma wrap32_small z : - 2 ^ 31 <= z < 2 ^ 31 -> wrap32 z = z.
Proof. unfold wrap32. intros Hz. rewrite Z.mod_small; lia. Qed.

Lemma wrapu32_small z : 0 <= z < 2 ^ 32 -> wrapu32 z = z.
Proof. unfold wrapu32. intros Hz. apply Z.mod_small; lia. Qed.

Lemma AVERROR_EOF_value : AVERROR_EOF = -541478725.
Proof. reflexivity. Qed.

(** ** Total-correctness triples *)

Ltac simpl_state :=
  cbn [cat ctx_duration pb_error streams world history
       with_cat with_world with_pb_error with_ctx_duration logged
       files cur_file avf safe seekable error rw_timeout
       with_files with_cur_file with_avf with_seekable with_error
       url start_time duration with_start_time with_duration
       fst snd] in *.

Lemma omap_app_opened evs1 evs2 :
  opened (evs1 ++ evs2) = opened evs1 ++ opened evs2.
Proof. apply omap_app. Qed.
Lemma omap_app_closed evs1 evs2 :
  closed (evs1 ++ evs2) = closed evs1 ++ closed evs2.
Proof. apply omap_app. Qed.
Lemma omap_app_attempts evs1 evs2 :
  attempts (evs1 ++ evs2) = attempts evs1 ++ attempts evs2.
Proof. apply omap_app. Qed.
Lemma omap_app_warnings evs1 evs2 :
  warnings (evs1 ++ evs2) = warnings evs1 ++ warnings evs2.
Proof. apply omap_app. Qed.
Lemma omap_app_reads evs1 evs2 :
  reads (evs1 ++ evs2) = reads evs1 ++ reads evs2.
Proof. apply omap_app. Qed.

Section Triples.

Context {World : Type} {lib : LibAV World}.

Local Abbreviation M := (StateM (State World)).
Implicit Types (s : State World) (c : ConcatContext) (evs : list Event).

Lemma runs_weaken {A} (m : M A) s (Q Q' : A -> State World -> list Event -> Prop) :
  runs m s Q -> (forall a s' evs, Q a s' evs -> Q' a s' evs) -> runs m s Q'.
Proof. intros (a & s' & evs & Hm & Hh & HQ) Himp. exists a, s', evs. auto. Qed.

Lemma runs_bind {A B} (m : M A) (k : A -> M B) s Q :
  runs m s (fun a s1 evs1 =>
    runs (k a) s1 (fun b s2 evs2 => Q b s2 (evs1 ++ evs2))) ->
  runs (bind m k) s Q.
Proof.
  intros (a & s1 & evs1 & Hm & Hh1 & b & s2 & evs2 & Hk & Hh2 & HQ).
  exists b, s2, (evs1 ++ evs2). unfold bind. rewrite Hm.
  repeat split; [assumption | | assumption].
  rewrite Hh2, Hh1. symmetry. apply app_assoc.
Qed.

Lemma runs_pure {A} (a : A) s Q : Q a s [] -> runs (pure a) s Q.
Proof. intros HQ. exists a, s, []. rewrite app_nil_r. auto. Qed.

Lemma runs_gets {A} (f : State World -> A) s Q : Q (f s) s [] -> runs (gets f) s Q.
Proof. intros HQ. exists (f s), s, []. rewrite app_nil_r. auto. Qed.

Lemma runs_modify_cat (f : ConcatContext -> ConcatContext) s Q :
  Q tt (with_cat (f (cat s)) s) [] -> runs (modify_cat f) s Q.
Proof.
  intros HQ. exists tt, (with_cat (f (cat s)) s), []. simpl_state.
  rewrite app_nil_r. auto.
Qed.

Lemma runs_emit (e : Event) s Q : Q tt (logged e s) [e] -> runs (emit e) s Q.
Proof. intros HQ. exists tt, (logged e s), [e]. auto. Qed.

Lemma runs_deref {A} (o : option A) (a : A) s Q :
  o = Some a -> Q a s [] -> runs (deref o) s Q.
Proof. intros -> HQ. apply runs_pure, HQ. Qed.

Lemma runs_lift_result {A} (r : result A) (a : A) s Q :
  r = Done a -> Q a s [] -> runs (lift_result r) s Q.
Proof. intros -> HQ. exists a, s, []. rewrite app_nil_r. auto. Qed.

Lemma runs_alloc_context s Q :
  (forall r w, avformat_alloc_context (world s) = (r, w) ->
     Q r (logged (CallAllocContext r) (with_world w s)) [CallAllocContext r]) ->
  runs call_alloc_context s Q.
Proof.
  intros HQ. unfold runs, call_alloc_context.
  destruct (avformat_alloc_context (world s)) as [r w].
  do 3 eexists. split; [reflexivity|]. split; [reflexivity|].
  apply HQ. reflexivity.
Qed.

Lemma runs_open_input h u t s Q :
  (forall ret w, avformat_open_input h u t (world s) = (ret, w) ->
     Q ret (logged (CallOpenInput h u t ret) (with_world w s))
       [CallOpenInput h u t ret]) ->
  runs (call_open_input h u t) s Q.
Proof.
  intros HQ. unfold runs, call_open_input.
  destruct (avformat_open_input h u t (world s)) as [r w].
  do 3 eexists. split; [reflexivity|]. split; [reflexivity|].
  apply HQ. reflexivity.
Qed.

Lemma runs_find_stream_info h s Q :
  (forall ret w, avformat_find_stream_info h (world s) = (ret, w) ->
     Q ret (logged (CallFindStreamInfo h ret) (with_world w s))
       [CallFindStreamInfo h ret]) ->
  runs (call_find_stream_info h) s Q.
Proof.
  intros HQ. unfold runs, call_find_stream_info.
  destruct (avformat_find_stream_info h (world s)) as [r w].
  do 3 eexists. split; [reflexivity|]. split; [reflexivity|].
  apply HQ. reflexivity.
Qed.

Lemma runs_close_input p s Q :
  Q tt (match p with
        | Some h => logged (CallCloseInput h)
                      (with_world (avformat_close_input h (world s)) s)
        | None => s
        end)
       (match p with Some h => [CallCloseInput h] | None => [] end) ->
  runs (call_close_input p) s Q.
Proof.
  intros HQ. destruct p as [h|]; [|apply runs_pure, HQ].
  do 3 eexists. split; [reflexivity|]. split; [reflexivity|]. exact HQ.
Qed.

Lemma runs_read_frame h pkt s Q :
  (forall ret pkt' w, av_read_frame h pkt (world s) = (ret, pkt', w) ->
     Q (ret, pkt') (logged (CallReadFrame h ret pkt') (with_world w s))
       [CallReadFrame h ret pkt']) ->
  runs (call_read_frame h pkt) s Q.
Proof.
  intros HQ. unfold runs, call_read_frame.
  destruct (av_read_frame h pkt (world s)) as [[r p] w].
  do 3 eexists. split; [reflexivity|]. split; [reflexivity|].
  apply HQ. reflexivity.
Qed.

Lemma runs_seek_file h stream min_ts ts max_ts flags s Q :
  (forall ret w,
     avformat_seek_file h stream min_ts ts max_ts flags (world s) = (ret, w) ->
     Q ret (logged (CallSeekFile h stream min_ts ts max_ts flags ret) (with_world w s))
       [CallSeekFile h stream min_ts ts max_ts flags ret]) ->
  runs (call_seek_file h stream min_ts ts max_ts flags) s Q.
Proof.
  intros HQ. unfold runs, call_seek_file.
  destruct (avformat_seek_file h stream min_ts ts max_ts flags (world s)) as [r w].
  do 3 eexists. split; [reflexivity|]. split; [reflexivity|].
  apply HQ. reflexivity.
Qed.

Lemma runs_set_pb_error ret s Q :
  Q tt (with_pb_error (pb_error_after ret (pb_error s)) s) [] ->
  runs (set_pb_error ret) s Q.
Proof.
  intros HQ. unfold set_pb_error, pb_error_after in *.
  eexists tt, _, []. split; [reflexivity|].
  destruct s as [c d pb st w hist]. simpl_state.
  destruct pb as [e|]; [destruct (negb (ret =? AVERROR_EOF))|];
    simpl_state; rewrite app_nil_r; auto.
Qed.

(** The resolver round changes the world only and adds at most its own call
    to the history. *)
Lemma runs_resolve_segment fileno file_url s Q :
  (forall u w evs,
     (forall e, e ∈ evs -> exists p r o, e = CallResolveSegment p r o) ->
     Q u (mkState (cat s) (ctx_duration s) (pb_error s) (streams s) w
                  (history s ++ evs)) evs) ->
  runs (resolve_segment fileno file_url) s Q.
Proof.
  intros HQ. unfold resolve_segment. destruct control_message_cb as [cb|].
  - unfold runs. destruct (cb (Z.of_nat fileno) (world s)) as [[r o] w] eqn:E.
    do 3 eexists. split; [reflexivity|]. split; [reflexivity|].
    apply (HQ _ w [CallResolveSegment (Z.of_nat fileno) r o]).
    intros e He. apply list_elem_of_singleton in He. eauto.
  - apply runs_pure. specialize (HQ file_url (world s) []).
    rewrite app_nil_r in HQ. destruct s. apply HQ.
    intros e He. inversion He.
Qed.

End Triples.

(** One step of symbolic execution on a goal [runs m s Q]. *)
Ltac wp_step :=
  lazymatch goal with
  | |- runs (bind _ _) _ _ => apply runs_bind
  | |- runs (pure _) _ _ => apply runs_pure
  | |- runs (gets _) _ _ => apply runs_gets
  | |- runs (modify_cat _) _ _ => apply runs_modify_cat
  | |- runs (emit _) _ _ => apply runs_emit
  | |- runs (set_pb_error _) _ _ => apply runs_set_pb_error
  | |- runs call_alloc_context _ _ => apply runs_alloc_context; intros ? ? ?
  | |- runs (call_open_input _ _ _) _ _ => apply runs_open_input; intros ? ? ?
  | |- runs (call_find_stream_info _) _ _ =>
      apply runs_find_stream_info; intros ? ? ?
  | |- runs (call_close_input _) _ _ => apply runs_close_input
  | |- runs (call_read_frame _ _) _ _ => apply runs_read_frame; intros ? ? ? ?
  | |- runs (call_seek_file _ _ _ _ _ _) _ _ =>
      apply runs_seek_file; intros ? ? ?
  | |- runs (resolve_segment _ _) _ _ =>
      apply runs_resolve_segment; intros ? ? ? ?
  end; cbv beta; simpl_state.

Ltac wp := repeat wp_step.

(** Normalises the projections of a history built by [wp]. *)
Ltac events :=
  repeat (rewrite ?omap_app_opened, ?omap_app_closed, ?omap_app_attempts,
            ?omap_app_warnings, ?omap_app_reads);
  cbn [opened closed attempts warnings reads omap list_omap app].

(** ** Reading a run backwards: what a program that returned has done *)

Section Inversion.

Context {World : Type} {lib : LibAV World}.

Local Abbreviation M := (StateM (State World)).
Implicit Types (s : State World) (evs : list Event).

Lemma bind_done {A B} (m : M A) (k : A -> M B) s b s' :
  bind m k s = Done (b, s') ->
  exists a s1, m s = Done (a, s1) /\ k a s1 = Done (b, s').
Proof.
  unfold bind. destruct (m s) as [[a s1]| |]; [eauto | discriminate..].
Qed.

Lemma runs_done {A} (m : M A) s Q a s' :
  runs m s Q -> m s = Done (a, s') ->
  exists evs, history s' = history s ++ evs /\ Q a s' evs.
Proof.
  intros (a0 & s0 & evs & Hm & Hh & HQ) Hrun.
  rewrite Hm in Hrun. injection Hrun as <- <-. eauto.
Qed.

Lemma runs_strengthen {A} (m : M A) s Q (P : A -> State World -> list Event -> Prop) :
  runs m s Q ->
  (forall a s' evs, m s = Done (a, s') -> history s' = history s ++ evs ->
     P a s' evs) ->
  runs m s (fun a s' evs => Q a s' evs /\ P a s' evs).
Proof.
  intros (a & s' & evs & Hm & Hh & HQ) HP. exists a, s', evs. auto.
Qed.


End Inversion.

Section LifecycleFacts.

Context {World : Type} {lib : LibAV World}.

Local Abbreviation M := (StateM (State World)).
Implicit Types (s : State World) (c : ConcatContext) (evs : list Event).

(** Resolver calls are none of the events the projections look for. *)
Lemma resolver_events_silent evs :
  (forall e, e ∈ evs -> exists p r o, e = CallResolveSegment p r o) ->
  opened evs = [] /\ closed evs = [] /\ attempts evs = [] /\
  warnings evs = [] /\ reads evs = [].
Proof.
  induction evs as [|e evs IH]; intros Hall; [repeat split|].
  destruct (Hall e) as (p & r & o & ->); [left|].
  destruct IH as (? & ? & ? & ? & ?).
  { intros e' He'. apply Hall. by right. }
  cbn. auto.
Qed.

Lemma runs_backfill fs fileno file s Q :
  fs !! fileno = Some file ->
  Q (with_start_time (start_time_after_open fs fileno file) file) s [] ->
  runs (backfill_start_time fs fileno file) s Q.
Proof.
  intros Hfile HQ. unfold backfill_start_time.
  unfold start_time_after_open in HQ.
  destruct (start_time file =? AV_NOPTS_VALUE) eqn:Hnopts.
  - destruct fileno as [|prev]; [apply runs_pure, HQ|].
    destruct (lookup_lt_is_Some_2 fs prev) as [p Hp].
    { apply lookup_lt_Some in Hfile. lia. }
    rewrite Hp in HQ. wp. eapply runs_deref; [exact Hp|]. wp. exact HQ.
  - apply runs_pure. destruct file; exact HQ.
Qed.

(** Everything [open_file] can do, by outcome. *)
Lemma open_file_spec s fileno file :
  files (cat s) !! fileno = Some file ->
  runs (open_file fileno) s (fun ret s' evs =>
    ctx_duration s' = ctx_duration s /\
    pb_error s' = pb_error s /\
    streams s' = streams s /\
    warnings evs = [] /\ reads evs = [] /\
    attempts evs = [(fileno, ret)] /\
    ((ret < 0 /\ cat s' = cat s /\ closed evs = opened evs) \/
     (ret = 0 /\ exists h,
        opened evs = [h] /\
        closed evs = reader_list (avf (cat s)) /\
        cat s' = installed fileno file h (cat s)))).
Proof.
  intros Hfile. unfold open_file. wp.
  eapply runs_deref; [exact Hfile|]. wp.
  destruct r as [h|]; wp.
  2:{ repeat (split; [reflexivity|]). left. repeat split. }
  destruct (resolver_events_silent evs) as (Eo & Ec & Ea & Ew & Er); [assumption|].
  destruct (ret <? 0) eqn:Hret; wp.
  { rewrite Hret. wp. events. rewrite Eo, Ec, Ea, Ew, Er.
    cbn. rewrite Hret. repeat (split; [reflexivity|]). left. split; [lia|]. split; reflexivity. }
  destruct (ret0 <? 0) eqn:Hret0; wp.
  { events. rewrite Eo, Ec, Ea, Ew, Er.
    cbn. rewrite Hret. repeat (split; [reflexivity|]). left. split; [lia|]. split; reflexivity. }
  eapply runs_backfill; [exact Hfile|]. wp.
  repeat (split; [reflexivity|]).
  events. rewrite Eo, Ec, Ea, Ew, Er, Hret.
  destruct (avf (cat s)) as [h0|]; cbn.
  all: repeat (split; [reflexivity|]); right; split; [reflexivity|].
  all: exists h; repeat split.
Qed.

Lemma same_setup_refl s : same_setup s s.
Proof. repeat split. Qed.

Lemma same_setup_trans s1 s2 s3 :
  same_setup s1 s2 -> same_setup s2 s3 -> same_setup s1 s3.
Proof.
  unfold same_setup. intros (?&?&?&?&?&?) (?&?&?&?&?&?).
  repeat split; congruence.
Qed.

(** Everything [open_next_file] can do from an active segment. *)
Lemma open_next_file_spec s i h :
  ready s i h ->
  runs open_next_file s (fun ret s' evs =>
    same_setup s s' /\ pb_error s' = pb_error s /\
    error (cat s') = error (cat s) /\
    warnings evs = [] /\ reads evs = [] /\
    ((ret < 0 /\ ready s' i h /\ closed evs = opened evs /\
      ((ret = AVERROR_EOF /\ attempts evs = [] /\ S i = length (files (cat s))) \/
       (attempts evs = [(S i, ret)] /\ (S i < length (files (cat s)))%nat))) \/
     (ret = 0 /\ (S i < length (files (cat s)))%nat /\
      attempts evs = [(S i, 0)] /\
      exists h', ready s' (S i) h' /\ opened evs = [h'] /\ closed evs = [h]))).
Proof.
  intros (Hcur & Havf & Hlt). unfold open_next_file. wp.
  destruct (lookup_lt_is_Some_2 (files (cat s)) i Hlt) as [file Hfile].
  eapply runs_deref; [exact Hcur|]. wp.
  eapply runs_deref; [exact Hfile|]. wp.
  eapply runs_weaken with (Q := fun _ s1 evs1 =>
    evs1 = [] /\ ready s1 i h /\ same_setup s s1 /\
    pb_error s1 = pb_error s /\ error (cat s1) = error (cat s)).
  { destruct (duration file =? AV_NOPTS_VALUE); wp.
    - eapply runs_deref; [exact Havf|]. wp.
      unfold ready, same_setup. simpl_state. rewrite length_insert.
      repeat split; assumption.
    - unfold ready. repeat split; assumption. }
  cbv beta. intros _ s1 evs1 (-> & Hready1 & Hsetup1 & Hpb1 & Herr1).
  assert (Hlen1 : length (files (cat s1)) = length (files (cat s)))
    by apply Hsetup1.
  destruct (length (files (cat s)) <=? S i)%nat eqn:Hlast.
  - apply Nat.leb_le in Hlast. wp. events.
    repeat (split; [assumption || reflexivity|]).
    left. split; [reflexivity|]. split; [assumption|]. split; [reflexivity|].
    left. repeat split. lia.
  - apply Nat.leb_gt in Hlast.
    destruct (lookup_lt_is_Some_2 (files (cat s1)) (S i)) as [next Hnext]; [lia|].
    eapply runs_weaken; [apply (open_file_spec _ _ _ Hnext)|]. cbv beta.
    intros ret s2 evs2 (Hd & Hp & Hst & Hw & Hr & Ha & Hcases). events.
    destruct Hready1 as (Hcur1 & Havf1 & Hlt1).
    destruct Hsetup1 as (Hd1 & Hst1 & Hsafe1 & Hseek1 & Hto1 & _).
    destruct Hcases as [(Hneg & Hcat & Hclosed) | (-> & h' & Hopened & Hclosed & Hcat)].
    + unfold same_setup, ready. rewrite Hcat.
      split; [repeat split; congruence|].
      repeat (split; [congruence|]).
      left. split; [assumption|].
      split; [repeat split; assumption|].
      split; [assumption|]. right. split; [assumption|lia].
    + unfold same_setup, ready. rewrite Hcat. unfold installed. simpl_state.
      rewrite length_insert.
      split; [repeat split; congruence|].
      repeat (split; [congruence|]).
      right. split; [reflexivity|]. split; [lia|]. split; [assumption|].
      exists h'. rewrite Hclosed, Havf1. repeat split; [lia | assumption].
Qed.

End LifecycleFacts.

Section PumpFacts.

Context {World : Type} {lib : LibAV World}.

Local Abbreviation M := (StateM (State World)).
Implicit Types (s : State World) (c : ConcatContext) (evs : list Event).

(** The loop went round once, adding [pre] to the history, before it was
    left. *)
Lemma loop_post_extend s s1 tc tc1 i i1 pre r s' evs :
  same_setup s s1 ->
  error (cat s1) = error (cat s) -> pb_error s1 = pb_error s ->
  (i <= i1)%nat ->
  Z.of_nat (length (warnings pre)) + tc = tc1 ->
  (forall l, attempts_follow i (attempts pre ++ l) = attempts_follow i1 l) ->
  loop_post s1 tc1 i1 r s' evs ->
  loop_post s tc i r s' (pre ++ evs).
Proof.
  intros Hsetup Herr Hpb Hle Hwarn Hfollow (Hsetup' & Hexit & Hcount & Hatt).
  unfold loop_post. events. rewrite length_app, Hfollow.
  split; [eapply same_setup_trans; eassumption|].
  split; [|split; [lia|assumption]].
  destruct Hexit as (i' & h' & Hready' & Hle' & Hexit).
  exists i', h'. split; [assumption|]. split; [lia|].
  destruct r as [ret pkt'|ret pkt'].
  - destruct Hexit as (Hne & Herr' & Hpb' & evs0 & ->).
    repeat (split; [congruence|]).
    exists (pre ++ evs0). apply app_assoc.
  - destruct Hexit as (-> & Hneg & Hpb' & Hlen & Hlast).
    split; [reflexivity|]. split; [assumption|].
    split; [congruence|]. split; [lia|].
    destruct Hlast as [(Heof & Hend) | (l & Hl)].
    + left. split; [assumption|].
      destruct Hsetup as (_ & _ & _ & _ & _ & Hlen1). congruence.
    + right. exists (attempts pre ++ l). rewrite Hl. apply app_assoc.
Qed.

(** How the loop of [concat_read_packet] ends, whatever the readers answer:
    it always ends within the budget, it logs at most [3 - try_counter]
    warnings, and every [open_file] it makes follows the active segment. *)
Lemma read_loop_spec fuel : forall try_counter pkt s i h,
  ready s i h ->
  0 <= try_counter <= 3 ->
  Z.of_nat (length (files (cat s))) - 1 - Z.of_nat i + 4 - try_counter
    <= Z.of_nat fuel ->
  runs (read_loop fuel try_counter pkt) s (loop_post s try_counter i).
Proof.
  induction fuel as [|fuel IH]; intros tc pkt s i h Hready Htc Hfuel.
  { destruct Hready as (_ & _ & Hlt). lia. }
  cbn [read_loop]. wp.
  pose proof Hready as (Hcur & Havf & Hlt).
  eapply runs_deref; [exact Havf|]. wp.
  destruct (ret =? AVERROR_EOF) eqn:Heof; cbn [negb]; wp.
  2:{ unfold loop_post. split; [repeat split|].
      events. split; [|split; [cbn; lia | reflexivity]].
      exists i, h. split; [exact Hready|]. split; [lia|].
      apply Z.eqb_neq in Heof. repeat (split; [assumption || reflexivity|]).
      exists []. reflexivity. }
  eapply runs_weaken.
  { eapply (open_next_file_spec _ i h). exact Hready. }
  cbv beta. intros ret1 s1 evs1 (Hsetup1 & Hpb1 & Herr1 & Hw1 & Hr1 & Hcases).
  simpl_state.
  assert (Hlen1 : length (files (cat s1)) = length (files (cat s)))
    by apply Hsetup1.
  destruct Hcases as [(Hneg & Hready1 & Hclosed1 & Hatt1) |
                      (-> & Hnext & Hatt1 & h1 & Hready1 & _)].
  - assert (Hlt0 : (ret1 <? 0) = true) by (apply Z.ltb_lt; lia).
    rewrite Hlt0. unfold CONCAT_MAX_OPEN_TRY.
    assert (Hfollow1 : forall l,
      attempts_follow i (attempts evs1 ++ l) = attempts_follow i l).
    { intros l. destruct Hatt1 as [(_ & -> & _) | (-> & _)]; [reflexivity|].
      cbn. rewrite Nat.eqb_refl, Hlt0. reflexivity. }
    destruct (tc + 1 >? 3) eqn:Hmax; wp.
    + unfold loop_post. simpl_state. split; [exact Hsetup1|]. events.
      rewrite Hw1, !app_nil_r. cbn [length app].
      specialize (Hfollow1 []). rewrite app_nil_r in Hfollow1.
      split; [|split; [lia | exact Hfollow1]].
      exists i, h. split; [exact Hready1|]. split; [lia|].
      split; [reflexivity|]. split; [assumption|].
      split; [congruence|]. split; [lia|].
      destruct Hatt1 as [(-> & _ & Hend) | (Hatt & _)].
      * left. split; [reflexivity | assumption].
      * right. exists []. exact Hatt.
    + eapply runs_weaken.
      { apply (IH (tc + 1) pkt' _ i h); [exact Hready1 | lia |].
        simpl_state. lia. }
      cbv beta. intros r s' evs Hpost.
      replace ([] ++ [] ++ [CallReadFrame h ret pkt'] ++ evs1 ++
               [LogOpenNextFailed (tc + 1)] ++ evs)
        with (([CallReadFrame h ret pkt'] ++ evs1 ++
               [LogOpenNextFailed (tc + 1)]) ++ evs)
        by (rewrite <- !app_assoc; reflexivity).
      eapply loop_post_extend; [| | | | | |exact Hpost]; simpl_state.
      * exact Hsetup1.
      * exact Herr1.
      * exact Hpb1.
      * lia.
      * events. rewrite Hw1. cbn. lia.
      * intros l. events. rewrite <- app_assoc. apply Hfollow1.
  - cbn [Z.ltb Z.compare]. eapply runs_weaken.
    { apply (IH tc pkt' _ (S i) h1); [exact Hready1 | lia | lia]. }
    cbv beta. intros r s' evs Hpost.
    replace ([] ++ [] ++ [CallReadFrame h ret pkt'] ++ evs1 ++ evs)
      with (([CallReadFrame h ret pkt'] ++ evs1) ++ evs)
      by (rewrite <- !app_assoc; reflexivity).
    eapply loop_post_extend; [| | | | | |exact Hpost]; simpl_state.
    + exact Hsetup1.
    + exact Herr1.
    + exact Hpb1.
    + lia.
    + events. rewrite Hw1. cbn. lia.
    + intros l. events. rewrite Hatt1. cbn. rewrite Nat.eqb_refl. reflexivity.
Qed.

(** Once the error is set, [concat_read_packet] answers it and touches
    nothing: not the state, not the readers, not the history. *)
Lemma concat_read_packet_sticky s pkt :
  error (cat s) <> 0 ->
  concat_read_packet pkt s = Done ((error (cat s), pkt), s).
Proof.
  intros Herr. unfold concat_read_packet, bind, gets.
  apply Z.eqb_neq in Herr. rewrite Herr. reflexivity.
Qed.

(** [concat_read_packet] from an active segment with no error pending. *)
Lemma concat_read_packet_spec s i h pkt :
  ready s i h -> error (cat s) = 0 ->
  runs (concat_read_packet pkt) s (fun r s' evs =>
    exists exit, loop_post s 0 i exit s' evs /\
      match exit with
      | GotoFail ret pkt' => r = (ret, pkt')
      | Break ret raw =>
          if ret <? 0 then r = (ret, raw)
          else exists i' h' file,
                 ready s' i' h' /\ files (cat s') !! i' = Some file /\
                 r = (ret, adjusted (world s') h' file raw)
      end).
Proof.
  intros Hready Herr. unfold concat_read_packet. wp.
  rewrite Herr. cbn [Z.eqb negb]. wp.
  eapply runs_weaken.
  { apply (read_loop_spec _ 0 pkt s i h Hready); [lia|].
    unfold read_budget. destruct Hready as (_ & _ & Hlt). lia. }
  cbv beta. intros exit s' evs Hpost.
  destruct exit as [ret raw|ret pkt']; wp.
  2:{ exists (GotoFail ret pkt'). rewrite !app_nil_r. cbn [app]. auto. }
  destruct (ret <? 0) eqn:Hret; wp.
  { exists (Break ret raw). rewrite !app_nil_r. cbn [app]. rewrite Hret. auto. }
  pose proof Hpost as (_ & (i' & h' & Hready' & _) & _).
  pose proof Hready' as (Hcur' & Havf' & Hlt').
  destruct (lookup_lt_is_Some_2 (files (cat s')) i' Hlt') as [file Hfile].
  eapply runs_deref; [exact Hcur'|]. wp.
  eapply runs_deref; [exact Hfile|]. wp.
  eapply runs_deref; [exact Havf'|]. wp.
  exists (Break ret raw). rewrite !app_nil_r. cbn [app]. rewrite Hret.
  split; [assumption|]. exists i', h', file. auto.
Qed.

(** In a list of [open_file] calls that follows the active segment, a call
    after a failed one asks for the same index and a call after a successful
    one for the next index. *)
Lemma attempts_follow_adjacent l : forall cur l1 j1 r1 j2 r2 l2,
  attempts_follow cur l = true ->
  l = l1 ++ (j1, r1) :: (j2, r2) :: l2 ->
  (r1 < 0 -> j2 = j1) /\ (0 <= r1 -> j2 = S j1).
Proof.
  induction l as [|[j r] l IH]; intros cur l1 j1 r1 j2 r2 l2 Hfollow Hsplit.
  { destruct l1; discriminate. }
  cbn in Hfollow. apply andb_prop in Hfollow as [Hj Hrest].
  destruct l1 as [|e l1]; cbn in Hsplit.
  - injection Hsplit as -> -> ->. cbn in Hrest.
    apply andb_prop in Hrest as [Hj2 _].
    apply Nat.eqb_eq in Hj, Hj2. subst j1.
    destruct (r1 <? 0) eqn:Hr1.
    + apply Z.ltb_lt in Hr1. split; [intros _; exact Hj2 | lia].
    + apply Z.ltb_ge in Hr1. split; [lia | intros _; exact Hj2].
  - injection Hsplit as _ ->. eapply IH; [exact Hrest | reflexivity].
Qed.

End PumpFacts.

(** ** The binary search *)

Section Locate.

Implicit Types (fs : list ConcatFile).

(** The search keeps [ts] bracketed: [left] is the bottom of the table or
    starts at or before [ts], [right] is the end of the table or starts after
    [ts]; and so it is for the index returned and its successor. *)
Lemma locate_bracket fuel : forall fs ts left right,
  int_indexable fs ->
  0 <= left < right -> right <= Z.of_nat (length fs) ->
  right - left <= Z.of_nat fuel + 1 ->
  exists k, locate fuel fs ts left right = Done k /\ left <= k < right /\
    ((k = left /\ right = k + 1) \/
     (k = left /\ exists f, file_at fs (k + 1) = Some f /\ ts < start_time f) \/
     (right = k + 1 /\ exists f, file_at fs k = Some f /\ start_time f <= ts) \/
     (exists f f', file_at fs k = Some f /\ start_time f <= ts /\
                   file_at fs (k + 1) = Some f' /\ ts < start_time f')).
Proof.
  unfold int_indexable.
  induction fuel as [|fuel IH]; intros fs ts left right Hsize Hlr Hr Hfuel.
  - exists left. cbn [locate].
    rewrite wrap32_small by lia.
    destruct (right - left >? 1) eqn:Hgt; [lia|].
    split; [reflexivity|]. split; [lia|]. left. lia.
  - cbn [locate]. rewrite !wrap32_small by lia.
    destruct (right - left >? 1) eqn:Hgt.
    2:{ exists left. split; [reflexivity|]. split; [lia|]. left. lia. }
    rewrite Z.quot_div_nonneg by lia.
    assert (Hmid : left < (left + right) / 2 < right).
    { assert (right - left > 1) by lia.
      pose proof (Z.div_mod (left + right) 2).
      pose proof (Z.mod_pos_bound (left + right) 2). lia. }
    revert Hmid. generalize ((left + right) / 2). intros mid Hmid.
    destruct (lookup_lt_is_Some_2 fs (Z.to_nat mid)) as [f Hf]; [lia|].
    assert (Hat : file_at fs mid = Some f).
    { unfold file_at. destruct (mid <? 0) eqn:E; [lia | exact Hf]. }
    rewrite Hat.
    destruct (ts <? start_time f) eqn:Hcmp.
    + destruct (IH fs ts left mid) as (k & Hk & Hrange & Hcases); try lia.
      exists k. split; [exact Hk|]. split; [lia|].
      destruct Hcases as [(-> & ->) | [(-> & f' & Hf' & Hlt) |
        [(-> & f' & Hf' & Hle) | (f1 & f2 & ? & ? & ? & ?)]]].
      * right. left. split; [reflexivity|]. exists f. split; [assumption|lia].
      * right. left. split; [reflexivity|]. exists f'. auto.
      * right. right. right. exists f', f. repeat split; [assumption.. | lia].
      * right. right. right. exists f1, f2. auto.
    + destruct (IH fs ts mid right) as (k & Hk & Hrange & Hcases); try lia.
      exists k. split; [exact Hk|]. split; [lia|].
      destruct Hcases as [(-> & ->) | [(-> & f' & Hf' & Hlt) |
        [(-> & f' & Hf' & Hle) | (f1 & f2 & ? & ? & ? & ?)]]].
      * right. right. left. split; [reflexivity|]. exists f. split; [assumption|lia].
      * right. right. right. exists f, f'. repeat split; [assumption | lia | assumption..].
      * right. right. left. split; [reflexivity|]. exists f'. auto.
      * right. right. right. exists f1, f2. auto.
Qed.

Lemma file_at_lookup fs (z : Z) f :
  0 <= z -> file_at fs z = Some f -> fs !! Z.to_nat z = Some f.
Proof. unfold file_at. intros Hz. destruct (z <? 0) eqn:E; [lia | auto]. Qed.

(** Sorted or not, the search ends on an index of the table. *)
Lemma locate_total fs ts :
  fs <> [] -> int_indexable fs ->
  exists k, located fs ts k /\ (k < length fs)%nat.
Proof.
  intros Hne Hsize.
  assert (Hlen : 0 < Z.of_nat (length fs)) by (destruct fs; [congruence | cbn; lia]).
  pose proof Hsize as Hsize'. unfold int_indexable in Hsize'.
  destruct (locate_bracket (length fs) fs ts 0 (Z.of_nat (length fs)))
    as (kz & Hk & Hrange & _); try lia; try assumption.
  exists (Z.to_nat kz). unfold located.
  rewrite wrap32_small, Z2Nat.id by lia. split; [exact Hk | lia].
Qed.

(** On a sorted table the search returns an index of the table with every
    segment that starts at or before [ts] at or below it; the segment found
    starts at or before [ts] itself unless no segment does, and then it is
    segment 0. *)
Lemma locate_greatest_index fs ts :
  fs <> [] -> int_indexable fs -> sorted_starts fs ->
  exists k, located fs ts k /\ (k < length fs)%nat /\
    (forall j fj, fs !! j = Some fj -> start_time fj <= ts -> (j <= k)%nat) /\
    ((exists fk, fs !! k = Some fk /\ start_time fk <= ts) \/
     (k = 0%nat /\ forall j fj, fs !! j = Some fj -> ts < start_time fj)).
Proof.
  intros Hne Hsize Hsorted.
  assert (Hlen : 0 < Z.of_nat (length fs)) by (destruct fs; [congruence | cbn; lia]).
  pose proof Hsize as Hsize'. unfold int_indexable in Hsize'.
  destruct (locate_bracket (length fs) fs ts 0 (Z.of_nat (length fs)))
    as (kz & Hk & Hrange & Hcases); try lia; try assumption.
  exists (Z.to_nat kz). unfold located.
  rewrite wrap32_small, Z2Nat.id by lia.
  split; [exact Hk|]. split; [lia|].
  assert (Habove : (exists f', file_at fs (kz + 1) = Some f' /\ ts < start_time f') ->
            forall j fj, fs !! j = Some fj -> start_time fj <= ts ->
                         (j <= Z.to_nat kz)%nat).
  { intros (f' & Hf' & Hlt) j fj Hj Hle.
    apply file_at_lookup in Hf'; [|lia].
    destruct (le_lt_dec j (Z.to_nat kz)) as [|Hgt]; [assumption|].
    assert (start_time f' <= start_time fj).
    { apply (Hsorted (Z.to_nat (kz + 1)) j); [lia | assumption..]. }
    lia. }
  assert (Hend : Z.of_nat (length fs) = kz + 1 ->
            forall j fj, fs !! j = Some fj -> start_time fj <= ts ->
                         (j <= Z.to_nat kz)%nat).
  { intros Hlast j fj Hj _. apply lookup_lt_Some in Hj. lia. }
  assert (Hbelow : kz = 0 ->
            (exists fk, fs !! Z.to_nat kz = Some fk /\ start_time fk <= ts) \/
            (Z.to_nat kz = 0%nat /\
             forall j fj, fs !! j = Some fj -> ts < start_time fj)).
  { intros ->. destruct (lookup_lt_is_Some_2 fs 0) as [f0 Hf0]; [lia|].
    destruct (Z_le_gt_dec (start_time f0) ts) as [Hle|Hgt].
    - left. exists f0. auto.
    - right. split; [reflexivity|]. intros j fj Hj.
      assert (start_time f0 <= start_time fj).
      { apply (Hsorted 0%nat j); [lia | assumption..]. }
      lia. }
  destruct Hcases as [(-> & Hr) | [(-> & Hnext) |
    [(Hr & f & Hf & Hle) | (f & f' & Hf & Hle & Hf' & Hlt)]]].
  - split; [apply Hend; lia | apply Hbelow; reflexivity].
  - split; [apply Habove; assumption | apply Hbelow; reflexivity].
  - split; [apply Hend; lia|]. left. exists f.
    split; [apply file_at_lookup; [lia | assumption] | assumption].
  - split; [apply Habove; eauto|]. left. exists f.
    split; [apply file_at_lookup; [lia | assumption] | assumption].
Qed.


End Locate.

(** ** The seek engine, by outcome *)

Section SeekFacts.

Context {World : Type} {lib : LibAV World}.

Local Abbreviation M := (StateM (State World)).
Implicit Types (s : State World) (c : ConcatContext) (evs : list Event).

(** [try_seek] only talks to the active reader. *)
Lemma try_seek_spec s i h stream min_ts ts max_ts flags :
  ready s i h ->
  runs (try_seek stream min_ts ts max_ts flags) s (fun ret s' evs =>
    cat s' = cat s /\ ctx_duration s' = ctx_duration s /\
    pb_error s' = pb_error s /\ streams s' = streams s /\ silent evs).
Proof.
  intros (Hcur & Havf & Hlt). unfold try_seek. wp.
  destruct (lookup_lt_is_Some_2 (files (cat s)) i Hlt) as [file Hfile].
  eapply runs_deref; [exact Hcur|]. wp.
  eapply runs_deref; [exact Hfile|]. wp.
  eapply runs_deref; [exact Havf|]. wp.
  destruct (stream >=? 0); wp.
  - destruct (stream >=? reader_nb_streams h (world s)); wp.
    + repeat split.
    + unfold rescale_interval. wp. repeat split.
  - repeat split.
Qed.

Lemma installed_ready s s' k file h :
  files (cat s) !! k = Some file ->
  cat s' = installed k file h (cat s) ->
  ready s' k h /\ error (cat s') = error (cat s) /\
  safe (cat s') = safe (cat s) /\ seekable (cat s') = seekable (cat s) /\
  rw_timeout (cat s') = rw_timeout (cat s) /\
  length (files (cat s')) = length (files (cat s)) /\
  (forall j, j <> k -> files (cat s') !! j = files (cat s) !! j).
Proof.
  intros Hfile Hcat. unfold ready. rewrite Hcat. unfold installed. simpl_state.
  rewrite length_insert. apply lookup_lt_Some in Hfile.
  split; [auto|]. do 5 (split; [reflexivity|]).
  intros j Hj. apply list_lookup_insert_ne. congruence.
Qed.

Lemma seek_from_spec s left stream min_ts ts max_ts flags :
  int_indexable (files (cat s)) ->
  0 <= left < Z.of_nat (length (files (cat s))) ->
  runs (seek_from left stream min_ts ts max_ts flags) s
       (seek_post s (Z.to_nat left) max_ts).
Proof.
  unfold int_indexable. intros Hsize Hleft. unfold seek_from. wp.
  rewrite wrapu32_small by lia.
  destruct (lookup_lt_is_Some_2 (files (cat s)) (Z.to_nat left)) as [file Hfile];
    [lia|].
  set (k := Z.to_nat left) in *.
  eapply runs_weaken; [apply (open_file_spec _ _ _ Hfile)|]. cbv beta.
  intros ret1 s1 evs1 (Hd1 & Hp1 & Hst1 & Hw1 & Hr1 & Ha1 & Hcases1).
  destruct Hcases1 as [(Hneg1 & Hcat1 & Hclosed1) |
                       (-> & h1 & Hopened1 & Hclosed1 & Hcat1)].
  { assert (Hlt1 : (ret1 <? 0) = true) by lia. rewrite Hlt1. wp.
    unfold seek_post, same_setup. rewrite !app_nil_r, Hcat1, Hclosed1.
    split; [repeat split; assumption|].
    repeat (split; [assumption || reflexivity|]).
    left. auto. }
  cbn [Z.ltb Z.compare].
  destruct (installed_ready s s1 k file h1 Hfile Hcat1)
    as (Hready1 & Herr1 & Hsafe1 & Hseek1 & Hto1 & Hlen1 & Hother1).
  wp. eapply runs_weaken; [apply (try_seek_spec _ _ _ _ _ _ _ _ Hready1)|].
  cbv beta. intros ret2 s2 evs2 (Hcat2 & Hd2 & Hp2 & Hst2 & Hsil2).
  destruct Hsil2 as (Ho2 & Hc2 & Ha2 & Hw2 & Hr2).
  wp.
  assert (Hnext : forall f, files (cat s2) !! S k = Some f <->
                            files (cat s) !! S k = Some f).
  { intros f. rewrite Hcat2, Hother1 by lia. reflexivity. }
  assert (Hsetup2 : same_setup s s2).
  { unfold same_setup. rewrite Hcat2. repeat split; congruence. }
  eapply runs_weaken with (Q := fun a s0 evs0 =>
    s0 = s2 /\ evs0 = [] /\
    (a = true -> ret2 < 0 /\ fallback_allowed (files (cat s)) k max_ts) /\
    (a = false -> ret2 < 0 -> ~ fallback_allowed (files (cat s)) k max_ts)).
  { unfold nb_files. rewrite Hcat2, Hlen1. rewrite wrapu32_small by lia.
    destruct (ret2 <? 0) eqn:Hret2; cbn [andb].
    2:{ wp. do 2 (split; [reflexivity|]). split; [discriminate | lia]. }
    destruct (left <? Z.of_nat (length (files (cat s))) - 1) eqn:Hlast.
    2:{ wp. do 2 (split; [reflexivity|]). split; [discriminate|].
        intros _ _ (next & Hn & _). apply lookup_lt_Some in Hn. lia. }
    rewrite wrap32_small by lia.
    destruct (lookup_lt_is_Some_2 (files (cat s)) (S k)) as [next Hn]; [lia|].
    wp. eapply runs_deref.
    { unfold file_at. destruct (left + 1 <? 0) eqn:E; [lia|].
      replace (Z.to_nat (left + 1)) with (S k) by lia.
      rewrite <- Hcat2. apply Hnext, Hn. }
    wp. do 2 (split; [reflexivity|]). split.
    - intros Hlt. split; [lia|]. exists next. split; [exact Hn | lia].
    - intros Hge _ (next' & Hn' & Hlt). rewrite Hn in Hn'.
      injection Hn' as <-. lia. }
  cbv beta. intros retry s0 evs0 (-> & -> & Hyes & Hno).
  assert (Hready2 : ready s2 k h1) by (unfold ready; rewrite Hcat2; exact Hready1).
  assert (Havf2 : avf (cat s2) = Some h1) by apply Hready2.
  destruct retry; wp.
  2:{ unfold seek_post. events. rewrite !app_nil_r.
      rewrite Hw1, Hw2, Hr1, Hr2, Ha1, Ha2, Hopened1, Ho2, Hclosed1, Hc2, Havf2.
      split; [exact Hsetup2|]. do 4 (split; [congruence || reflexivity|]).
      split; [rewrite !app_nil_r; apply Permutation_app_comm|].
      right. left. split; [reflexivity|]. split; [eauto|]. auto. }
  destruct Hyes as (Hret2 & Hallowed); [reflexivity|].
  rewrite wrap32_small, wrapu32_small by lia.
  replace (Z.to_nat (left + 1)) with (S k) by lia.
  pose proof Hallowed as (next & Hn & Hmax). apply Hnext in Hn.
  eapply runs_weaken; [apply (open_file_spec _ _ _ Hn)|]. cbv beta.
  intros ret3 s3 evs3 (Hd3 & Hp3 & Hst3 & Hw3 & Hr3 & Ha3 & Hcases3).
  destruct Hcases3 as [(Hneg3 & Hcat3 & Hclosed3) |
                       (-> & h3 & Hopened3 & Hclosed3 & Hcat3)].
  { assert (Hlt3 : (ret3 <? 0) = true) by lia. rewrite Hlt3. wp.
    unfold seek_post. events. rewrite !app_nil_r.
    rewrite Hw1, Hw2, Hw3, Hr1, Hr2, Hr3, Ha1, Ha2, Ha3, Hopened1, Ho2,
      Hclosed1, Hc2, Hclosed3, Hcat3, Havf2.
    split; [unfold same_setup in *; rewrite Hcat3; intuition congruence|].
    do 4 (split; [congruence || reflexivity|]).
    split.
    { cbn [app reader_list]. apply Permutation_middle. }
    right. right. exists ret3. split; [reflexivity|]. split; [assumption|].
    left. split; [assumption|]. split; [reflexivity|]. exists h1.
    unfold ready. rewrite Hcat3. exact Hready2. }
  cbn [Z.ltb Z.compare].
  destruct (installed_ready s2 s3 (S k) next h3 Hn Hcat3)
    as (Hready3 & Herr3 & Hsafe3 & Hseek3 & Hto3 & Hlen3 & Hother3).
  eapply runs_weaken; [apply (try_seek_spec _ _ _ _ _ _ _ _ Hready3)|].
  cbv beta. intros ret4 s4 evs4 (Hcat4 & Hd4 & Hp4 & Hst4 & Hsil4).
  destruct Hsil4 as (Ho4 & Hc4 & Ha4 & Hw4 & Hr4).
  unfold seek_post. events. rewrite ?app_nil_r.
  rewrite Hw1, Hw2, Hw3, Hw4, Hr1, Hr2, Hr3, Hr4, Ha1, Ha2, Ha3, Ha4,
    Hopened1, Ho2, Hopened3, Ho4, Hclosed1, Hc2, Hclosed3, Hc4, Hcat4, Havf2.
  assert (Havf3 : avf (cat s3) = Some h3) by apply Hready3. rewrite Havf3.
  split.
  { unfold same_setup in *. rewrite Hcat4. intuition congruence. }
  do 4 (split; [congruence || reflexivity|]).
  split.
  { cbn [app reader_list].
    change [h1; h3] with ([h1] ++ [h3]). rewrite app_assoc.
    apply Permutation_cons_append. }
  right. right. exists 0. split; [reflexivity|]. split; [assumption|].
  right. split; [reflexivity|]. exists h3.
  unfold ready. rewrite Hcat4. exact Hready3.
Qed.

Lemma real_seek_spec s stream min_ts ts max_ts flags :
  int_indexable (files (cat s)) -> files (cat s) <> [] ->
  runs (real_seek stream min_ts ts max_ts flags) s (fun ret s' evs =>
    let w := seek_window (streams s) stream min_ts ts max_ts in
    (stream_rejected (streams s) stream = true /\
     ret = AVERROR EINVAL /\ s' = s /\ evs = []) \/
    (stream_rejected (streams s) stream = false /\
     exists k, located (files (cat s)) (window_ts w) k /\
               (k < length (files (cat s)))%nat /\
               seek_post s k (window_max w) ret s' evs)).
Proof.
  intros Hsize Hne. unfold real_seek, seek_window, stream_rejected. wp.
  destruct ((stream >=? 0) && (stream >=? Z.of_nat (length (streams s)))) eqn:Hrej.
  { wp. left. auto. }
  wp.
  eapply runs_weaken with (Q := fun w s1 evs1 =>
    s1 = s /\ evs1 = [] /\
    w = seek_window (streams s) stream min_ts ts max_ts).
  { unfold seek_window. destruct (stream >=? 0) eqn:Hstream; wp.
    - cbn [andb] in Hrej.
      destruct (lookup_lt_is_Some_2 (streams s) (Z.to_nat stream)) as [tb Htb];
        [lia|].
      eapply runs_deref; [exact Htb|]. wp. rewrite Htb. auto.
    - auto. }
  cbv beta. intros [[min' ts'] max'] s1 evs1 (-> & -> & Hw). wp.
  destruct (locate_total (files (cat s)) ts' Hne Hsize) as (k & Hloc & Hlt).
  eapply runs_lift_result; [exact Hloc|]. wp.
  eapply runs_weaken.
  { apply seek_from_spec; [assumption | lia]. }
  cbv beta. intros ret s' evs Hpost. right. split; [reflexivity|].
  fold (seek_window (streams s) stream min_ts ts max_ts). rewrite <- Hw.
  exists k. unfold window_ts, window_max. cbn [fst snd].
  rewrite Nat2Z.id in Hpost. auto.
Qed.

Lemma close_events_projections (p : option Reader) :
  let evs := match p with Some h => [CallCloseInput h] | None => [] end in
  closed evs = reader_list p /\ opened evs = [] /\ attempts evs = [] /\
  warnings evs = [] /\ reads evs = [].
Proof. destruct p; repeat split. Qed.

Lemma concat_seek_spec s i0 h0 stream min_ts ts max_ts flags :
  ready s i0 h0 -> int_indexable (files (cat s)) ->
  runs (concat_seek stream min_ts ts max_ts flags) s
       (seek_outcome s h0 stream min_ts ts max_ts flags).
Proof.
  intros (Hcur & Havf & Hlt) Hsize. unfold concat_seek. wp.
  destruct (seekable (cat s) =? 0) eqn:Hseekable; wp.
  { unfold seek_outcome, same_setup. simpl_state.
    repeat (split; [reflexivity|]). split; [repeat split|]. split; [reflexivity|].
    do 2 (split; [reflexivity|]).
    split; [intros _; repeat split; constructor|].
    split; [unfold AVERROR, ESPIPE; lia|].
    left. split; [reflexivity|]. split; [unfold AVERROR, ESPIPE; lia|]. left. lia. }
  fold (flags_rejected flags).
  destruct (flags_rejected flags) eqn:Hflags; wp.
  { unfold seek_outcome, same_setup. simpl_state.
    repeat (split; [reflexivity|]). split; [repeat split|]. split; [reflexivity|].
    do 2 (split; [reflexivity|]).
    split; [intros _; repeat split; constructor|].
    split; [unfold AVERROR, ENOSYS; lia|].
    left. split; [reflexivity|]. split; [unfold AVERROR, ENOSYS; lia|]. auto. }
  assert (Hne : files (cat s) <> []).
  { intros E. rewrite E in Hlt. cbn in Hlt. lia. }
  eapply runs_weaken.
  { apply real_seek_spec; simpl_state; assumption. }
  cbv beta. simpl_state. intros ret s1 evs1 Hreal.
  destruct Hreal as [(Hrej & -> & -> & ->) |
                     (Hrej & k & Hloc & Hk & Hpost)].
  { change (AVERROR EINVAL <? 0) with true. cbv iota. wp.
    unfold seek_outcome, same_setup. simpl_state.
    repeat (split; [reflexivity|]). split; [repeat split|]. split; [reflexivity|].
    do 2 (split; [reflexivity|]).
    split; [intros _; repeat split; constructor|].
    split; [unfold AVERROR, EINVAL; lia|].
    left. split; [reflexivity|]. split; [unfold AVERROR, EINVAL; lia|]. auto. }
  destruct Hpost as (Hsetup & Herr & Hpb & Hw & Hr & Hperm & Hcases).
  simpl_state. cbn [reader_list app] in Hperm.
  assert (Hsetup' : same_setup s s1).
  { unfold same_setup in *. simpl_state. exact Hsetup. }
  apply Z.eqb_neq in Hseekable.
  destruct (ret <? 0) eqn:Hret; wp.
  - assert (Hrest : (attempts evs1 = [] /\ ret < 0 /\
                     (seekable (cat s) = 0 \/ flags_rejected flags = true \/
                      stream_rejected (streams s) stream = true)) \/
                    (seekable (cat s) <> 0 /\ flags_rejected flags = false /\
                     stream_rejected (streams s) stream = false /\
                     exists k, located (files (cat s))
                       (window_ts (seek_window (streams s) stream min_ts ts max_ts)) k /\
                       (k < length (files (cat s)))%nat /\
                       ((exists r, attempts evs1 = [(k, r)] /\
                           (0 <= ret -> cur_file (cat s) = Some k) /\
                           (r = 0 -> ret < 0 ->
                            ~ fallback_allowed (files (cat s)) k
                               (window_max (seek_window (streams s) stream min_ts ts max_ts)))) \/
                        (exists r, attempts evs1 = [(k, 0); (S k, r)] /\
                           fallback_allowed (files (cat s)) k
                             (window_max (seek_window (streams s) stream min_ts ts max_ts)) /\
                           (0 <= ret -> cur_file (cat s) = Some (S k)))))).
    { right. do 3 (split; [assumption|]). exists k.
      do 2 (split; [assumption|]).
      destruct Hcases as [(Hneg & Hatt & _) |
        [(Hatt & _ & Hnofb) | (r & Hatt & Hfb & _)]].
      + left. exists ret. split; [assumption|]. split; lia.
      + left. exists 0. split; [assumption|]. split; [lia|].
        intros _ _. apply Hnofb. lia.
      + right. exists r. split; [assumption|]. split; [assumption | lia]. }
    destruct (avf (cat s1)) as [h1|] eqn:Havf1; wp.
    all: unfold seek_outcome; simpl_state; events.
    all: rewrite Hw, Hr, ?app_nil_r; cbn [app reader_list] in *.
    all: split; [exact Herr|].
    all: split; [unfold same_setup in *; simpl_state; exact Hsetup'|].
    all: do 3 (split; [congruence || reflexivity|]).
    all: split; [intros _; do 2 (split; [reflexivity|])|].
    1: rewrite <- Hperm; symmetry; apply Permutation_cons_append.
    2: exact Hperm.
    all: split; [lia | exact Hrest].
  - rewrite Havf. wp.
    unfold seek_outcome. simpl_state. events.
    rewrite Hw, Hr, ?app_nil_r. cbn [app].
    split; [congruence|]. split; [exact Hsetup'|].
    do 3 (split; [congruence || reflexivity|]).
    split; [lia|].
    assert (Hinst : exists j h', ready s1 j h' /\
      ((exists r, attempts evs1 = [(k, r)] /\ j = k) \/
       (exists r, attempts evs1 = [(k, 0); (S k, r)] /\ j = S k /\
          fallback_allowed (files (cat s)) k
            (window_max (seek_window (streams s) stream min_ts ts max_ts))))).
    { destruct Hcases as [(Hneg & _) |
        [(Hatt & (h' & Hready') & _) |
         (r & Hatt & Hfb & [(Hneg & -> & _) | (-> & h' & Hready')])]];
        try lia.
      - exists k, h'. split; [assumption|]. left. eauto.
      - exists (S k), h'. split; [assumption|]. right. eauto. }
    destruct Hinst as (j & h' & Hready' & Hatt).
    pose proof Hready' as (Hcur' & Havf' & _). rewrite Havf' in Hperm.
    split.
    { intros _. exists j, h', evs1. split; [exact Hready'|].
      split; [reflexivity|]. exact Hperm. }
    right. do 3 (split; [assumption|]). exists k.
    do 2 (split; [assumption|]).
    destruct Hatt as [(r & Hatt & ->) | (r & Hatt & -> & Hfb)].
    + left. exists r. split; [assumption|]. split; [auto | lia].
    + right. exists r. auto.
Qed.

(** [ready] is established by [open_file] and kept by the two entry
    points, which keep the size of the table as well. *)
Lemma open_file_makes_ready s fileno file :
  files (cat s) !! fileno = Some file ->
  runs (open_file fileno) s (fun ret s' _ =>
    0 <= ret -> exists h, ready s' fileno h).
Proof.
  intros Hfile. eapply runs_weaken; [apply (open_file_spec _ _ _ Hfile)|].
  cbv beta. intros ret s' evs (_ & _ & _ & _ & _ & _ & Hcases) Hok.
  destruct Hcases as [(Hneg & _) | (_ & h & _ & _ & Hcat)]; [lia|].
  exists h. eapply installed_ready; eassumption.
Qed.

Lemma concat_read_packet_keeps_ready s i h pkt :
  ready s i h ->
  runs (concat_read_packet pkt) s (fun _ s' _ =>
    (exists i' h', ready s' i' h') /\
    length (files (cat s')) = length (files (cat s))).
Proof.
  intros Hready. destruct (decide (error (cat s) = 0)) as [Herr|Herr].
  - eapply runs_weaken; [apply (concat_read_packet_spec _ _ _ _ Hready Herr)|].
    cbv beta. intros r s' evs (exit & (Hsetup & (i' & h' & Hready' & _) & _) & _).
    split; [eauto | apply Hsetup].
  - exists (error (cat s), pkt), s, [].
    split; [apply concat_read_packet_sticky; assumption|].
    split; [symmetry; apply app_nil_r|]. split; [eauto | reflexivity].
Qed.

Lemma concat_seek_keeps_ready s i h stream min_ts ts max_ts flags :
  ready s i h -> int_indexable (files (cat s)) ->
  runs (concat_seek stream min_ts ts max_ts flags) s (fun _ s' _ =>
    (exists i' h', ready s' i' h') /\
    length (files (cat s')) = length (files (cat s))).
Proof.
  intros Hready Hsize.
  eapply runs_weaken; [apply (concat_seek_spec _ _ _ _ _ _ _ _ Hready Hsize)|].
  cbv beta. intros ret s' evs (_ & Hsetup & _ & _ & _ & Hfail & Hok & _).
  assert (Hlen : length (files (cat s')) = length (files (cat s)))
    by apply Hsetup.
  split; [|exact Hlen].
  destruct (Z_lt_le_dec ret 0) as [Hneg|Hpos].
  - destruct (Hfail Hneg) as (Hc & Ha & _).
    destruct Hready as (Hcur & Havf & Hlt).
    exists i, h. unfold ready. rewrite Hc, Ha, Hlen. auto.
  - destruct (Hok Hpos) as (j & h' & _ & Hready' & _). eauto.
Qed.

End SeekFacts.

(** ** The backfill pass *)

Section HeaderFacts.

Implicit Types (fs : list ConcatFile).

Lemma add_file_starts_unknown absolute_url filename c c' :
  starts_unknown (files c) ->
  add_file absolute_url filename c = inr c' ->
  starts_unknown (files c').
Proof.
  unfold add_file, starts_unknown. intros Hfs.
  destruct ((safe c >? 0) && negb (safe_filename filename)); [discriminate|].
  intros [= <-]. cbn. apply Forall_app. split; [assumption|].
  constructor; [reflexivity | constructor].
Qed.

(** What the loop does to a table whose starts are all unknown, entered
    with [time]. *)
Lemma backfill_spec fs : forall time,
  starts_unknown fs ->
  exists fs' i time',
    backfill fs time = (fs', i, time') /\
    length fs' = length fs /\ (i <= length fs)%nat /\
    (forall k f, fs !! k = Some f -> (k <= i)%nat ->
       fs' !! k = Some (with_start_time (time_after fs time k) f)) /\
    (forall k, (i < k)%nat -> fs' !! k = fs !! k) /\
    (forall k f, fs !! k = Some f -> (k < i)%nat -> duration f <> AV_NOPTS_VALUE) /\
    (i = length fs -> time' = time_after fs time (length fs)) /\
    ((i < length fs)%nat -> exists f, fs !! i = Some f /\ duration f = AV_NOPTS_VALUE).
Proof.
  induction fs as [|f rest IH]; intros time Hunknown.
  { exists [], 0%nat, time. split; [reflexivity|].
    repeat split; try reflexivity; try (cbn; lia); try (intros; discriminate). }
  apply Forall_cons in Hunknown as [Hf Hrest].
  cbn [backfill]. rewrite Hf, Z.eqb_refl. cbn [duration with_start_time].
  destruct (duration f =? AV_NOPTS_VALUE) eqn:Hdur.
  - exists (with_start_time time f :: rest), 0%nat, time.
    split; [reflexivity|]. split; [reflexivity|]. split; [cbn; lia|].
    split.
    { intros k f' Hk Hle. assert (k = 0%nat) as -> by lia.
      cbn in Hk. injection Hk as <-. reflexivity. }
    split; [intros [|k] Hk; [lia | reflexivity]|].
    split; [intros; lia|]. split; [cbn; lia|].
    intros _. exists f. split; [reflexivity | lia].
  - destruct (IH (add64 time (duration f)) Hrest)
      as (rest' & i & time' & Hrun & Hlen & Hi & Hupto & Hafter & Hknown & Hdone & Hstop).
    rewrite Hrun. exists (with_start_time time f :: rest'), (S i), time'.
    split; [reflexivity|]. split; [cbn; lia|]. split; [cbn; lia|].
    split.
    { intros [|k] f' Hk Hle; cbn in Hk.
      - injection Hk as <-. reflexivity.
      - cbn. apply Hupto; [assumption | lia]. }
    split; [intros [|k] Hk; [lia | cbn; apply Hafter; lia]|].
    split.
    { intros [|k] f' Hk Hlt; cbn in Hk.
      - injection Hk as <-. lia.
      - apply (Hknown k); [assumption | lia]. }
    split.
    { intros Hall. cbn in Hall. cbn. apply Hdone. lia. }
    intros Hlt. cbn in Hlt. cbn. apply Hstop. lia.
Qed.

End HeaderFacts.

(** ** The design document's statements *)

(** ** The seek, read off the history *)

Section SeekTrace.

Context {World : Type} {lib : LibAV World}.

Local Abbreviation M := (StateM (State World)).
Implicit Types (s : State World) (c : ConcatContext) (evs : list Event).










End SeekTrace.

Section Statements.

Context {World : Type} {lib : LibAV World}.

Implicit Types (s : State World) (evs : list Event).

(** C7.  [open_file] on an index of the table always returns.  When it
    fails (allocation, open or stream analysis), the demuxer is as before:
    same [ConcatContext] (table, active segment, reader), same other fields;
    the previous reader is not closed, only the reader just opened, if any.
    When it succeeds it returns 0, the previous reader (if any) is closed,
    the new one is installed with [cur_file] on the index, and the table
    changes in that descriptor's [start_time] alone, which is backfilled
    (0 for index 0, else the previous start plus the previous duration) only
    where it was [AV_NOPTS_VALUE]. *)
Theorem open_file_all_or_nothing s fileno file :
  files (cat s) !! fileno = Some file ->
  runs (open_file fileno) s (fun ret s' evs =>
    ctx_duration s' = ctx_duration s /\ pb_error s' = pb_error s /\
    streams s' = streams s /\
    ((ret < 0 /\ cat s' = cat s /\ closed evs = opened evs) \/
     (ret = 0 /\ exists h,
        opened evs = [h] /\ closed evs = reader_list (avf (cat s)) /\
        avf (cat s') = Some h /\ cur_file (cat s') = Some fileno /\
        safe (cat s') = safe (cat s) /\ seekable (cat s') = seekable (cat s) /\
        error (cat s') = error (cat s) /\
        rw_timeout (cat s') = rw_timeout (cat s) /\
        exists t,
          files (cat s') =
            <[fileno := mkFile (url file) t (duration file)]> (files (cat s)) /\
          (start_time file <> AV_NOPTS_VALUE -> t = start_time file) /\
          (start_time file = AV_NOPTS_VALUE -> fileno = 0%nat -> t = 0) /\
          (start_time file = AV_NOPTS_VALUE ->
           forall prev p, fileno = S prev -> files (cat s) !! prev = Some p ->
                          t = add64 (start_time p) (duration p))))).
Proof.
  intros Hfile. eapply runs_weaken; [apply (open_file_spec _ _ _ Hfile)|].
  cbv beta. intros ret s' evs (Hd & Hp & Hst & _ & _ & _ & Hcases).
  do 3 (split; [assumption|]).
  destruct Hcases as [Hfail | (-> & h & Ho & Hc & Hcat)]; [left; exact Hfail|].
  right. split; [reflexivity|]. exists h. do 2 (split; [assumption|]).
  rewrite Hcat. unfold installed. simpl_state.
  do 6 (split; [reflexivity|]).
  exists (start_time_after_open (files (cat s)) fileno file).
  split; [reflexivity|]. unfold start_time_after_open.
  destruct (start_time file =? AV_NOPTS_VALUE) eqn:Hnopts.
  - apply Z.eqb_eq in Hnopts. split; [congruence|]. split.
    + intros _ ->. reflexivity.
    + intros _ prev p -> Hprev. rewrite Hprev. reflexivity.
  - apply Z.eqb_neq in Hnopts. split; [reflexivity|].
    split; intros; contradiction.
Qed.

(** C10.  From an active segment [i], a failed [open_next_file] leaves
    segment [i] and its reader active, having asked [open_file] for [i + 1]
    or for nothing (when [i] is the last segment).  Hence within one
    [concat_read_packet] every [open_file] asks for the successor of the
    segment then active: the call after a failed one asks for the same index
    again, the call after a successful one for the next index, and no index
    is passed over. *)
Theorem retries_target_same_segment s i h pkt :
  ready s i h -> error (cat s) = 0 ->
  runs open_next_file s (fun ret s' evs =>
    ret < 0 ->
    ready s' i h /\ (attempts evs = [] \/ attempts evs = [(S i, ret)])) /\
  runs (concat_read_packet pkt) s (fun _ s' evs =>
    attempts_follow i (attempts evs) = true /\
    forall l1 j1 r1 j2 r2 l2,
      attempts evs = l1 ++ (j1, r1) :: (j2, r2) :: l2 ->
      (r1 < 0 -> j2 = j1) /\ (0 <= r1 -> j2 = S j1)).
Proof.
  intros Hready Herr. split.
  - eapply runs_weaken; [apply (open_next_file_spec _ _ _ Hready)|].
    cbv beta. intros ret s' evs (_ & _ & _ & _ & _ & Hcases) Hneg.
    destruct Hcases as [(_ & Hready' & _ & Hatt) | (-> & _)]; [|lia].
    split; [assumption|].
    destruct Hatt as [(_ & Hatt & _) | (Hatt & _)]; auto.
  - eapply runs_weaken; [apply (concat_read_packet_spec _ _ _ _ Hready Herr)|].
    cbv beta. intros r s' evs (exit & (_ & _ & _ & Hfollow) & _).
    split; [assumption|]. intros l1 j1 r1 j2 r2 l2 Hsplit.
    eapply attempts_follow_adjacent; eassumption.
Qed.


(** C6.  When [concat_read_packet], entered without a pending error,
    answers 0 or more, the last thing it did was the [av_read_frame] on
    the active reader that produced the packet [raw], and the packet it
    hands out is [raw] with [delta] added (in [int64_t]) to [pts] and to
    [dts], each left as it is when it is [AV_NOPTS_VALUE]; [delta] is
    [av_rescale_q] of the active segment's [start_time] minus the reader's
    [start_time], from AV_TIME_BASE_Q to the time base of the packet's
    stream in that reader. *)
Theorem read_packet_offsets_timestamps s i h pkt :
  ready s i h -> error (cat s) = 0 ->
  runs (concat_read_packet pkt) s (fun r s' evs =>
    0 <= fst r ->
    exists i' h' file raw evs0,
      ready s' i' h' /\ files (cat s') !! i' = Some file /\
      evs = evs0 ++ [CallReadFrame h' (fst r) raw] /\
      let delta :=
        av_rescale_q
          (sub64 (start_time file) (reader_start_time h' (world s')))
          AV_TIME_BASE_Q
          (reader_time_base h' (stream_index raw) (world s')) in
      pts (snd r) = (if pts raw =? AV_NOPTS_VALUE then AV_NOPTS_VALUE
                     else add64 (pts raw) delta) /\
      dts (snd r) = (if dts raw =? AV_NOPTS_VALUE then AV_NOPTS_VALUE
                     else add64 (dts raw) delta) /\
      stream_index (snd r) = stream_index raw /\
      payload (snd r) = payload raw).
Proof.
  intros Hready Herr.
  eapply runs_weaken; [apply (concat_read_packet_spec _ _ _ _ Hready Herr)|].
  cbv beta. intros r s' evs (exit & (_ & Hexit & _) & Hr) Hok.
  destruct Hexit as (i' & h' & Hready' & _ & Hexit).
  destruct exit as [ret raw|ret pkt'].
  2:{ destruct Hexit as (-> & _). subst r. cbn in Hok.
      rewrite AVERROR_EOF_value in Hok. lia. }
  destruct Hexit as (_ & _ & _ & evs0 & Hevs).
  destruct (ret <? 0) eqn:Hret.
  { subst r. cbn in Hok. lia. }
  destruct Hr as (i2 & h2 & file & Hready2 & Hfile & ->).
  assert (i2 = i' /\ h2 = h') as (-> & ->).
  { destruct Hready' as (Hc & Ha & _), Hready2 as (Hc2 & Ha2 & _).
    split; congruence. }
  exists i', h', file, raw, evs0. cbn [fst snd].
  split; [assumption|]. split; [assumption|]. split; [assumption|].
  unfold adjusted, offset_timestamp. cbn [pts dts stream_index payload].
  split; [|split; [|split; reflexivity]].
  - destruct (pts raw =? AV_NOPTS_VALUE) eqn:E; [|reflexivity].
    cbn [negb]. lia.
  - destruct (dts raw =? AV_NOPTS_VALUE) eqn:E; [|reflexivity].
    cbn [negb]. lia.
Qed.

(** C2, as the code has it.  Every [concat_seek] from an active segment
    returns with the error cleared, whether the seek succeeded or failed
    (refusals for a table that is not seekable or for byte and frame flags
    included); and a [concat_read_packet] entered with the error set leaves
    it as it is. *)
Theorem sticky_error_cleared_by_any_seek s i h stream min_ts ts max_ts flags :
  ready s i h -> int_indexable (files (cat s)) ->
  runs (concat_seek stream min_ts ts max_ts flags) s
       (fun _ s' _ => error (cat s') = 0) /\
  (error (cat s) <> 0 ->
   forall pkt, runs (concat_read_packet pkt) s (fun r s' evs =>
     error (cat s') = error (cat s) /\ fst r = error (cat s) /\ evs = [])).
Proof.
  intros Hready Hsize. split.
  - eapply runs_weaken; [apply (concat_seek_spec _ _ _ _ _ _ _ _ Hready Hsize)|].
    cbv beta. intros ret s' evs (Herr & _). exact Herr.
  - intros Herr pkt. exists (error (cat s), pkt), s, [].
    split; [apply concat_read_packet_sticky; assumption|].
    split; [symmetry; apply app_nil_r|]. auto.
Qed.

(** C3.  Every [concat_seek] from an active segment returns.  When it
    fails (a refusal, no such stream, or an open or an in-segment seek that
    fails, on the segment located or on the one after it), the segment and
    the reader that were active are active again and the readers closed
    during the call are exactly the readers opened during it.  When it
    succeeds, a segment is active with its reader [h'], the demuxer's last
    act was to close the reader [h0] that was active before, and the
    readers closed before that are the readers opened during the call other
    than [h']. *)
Theorem seek_rolls_back_or_commits s i0 h0 stream min_ts ts max_ts flags :
  ready s i0 h0 -> int_indexable (files (cat s)) ->
  runs (concat_seek stream min_ts ts max_ts flags) s (fun ret s' evs =>
    (ret < 0 ->
       cur_file (cat s') = Some i0 /\ avf (cat s') = Some h0 /\
       Permutation (closed evs) (opened evs)) /\
    (0 <= ret ->
       exists j h' evs0,
         ready s' j h' /\ evs = evs0 ++ [CallCloseInput h0] /\
         Permutation (h' :: closed evs0) (opened evs))).
Proof.
  intros Hready Hsize.
  eapply runs_weaken; [apply (concat_seek_spec _ _ _ _ _ _ _ _ Hready Hsize)|].
  cbv beta. intros ret s' evs (_ & _ & _ & _ & _ & Hfail & Hok & _).
  destruct Hready as (Hcur & Havf & _).
  split; [|exact Hok].
  intros Hneg. destruct (Hfail Hneg) as (Hc & Ha & Hperm).
  repeat split; congruence || assumption.
Qed.

(** C8.  A [concat_seek] on a table that is not seekable, or with
    AVSEEK_FLAG_BYTE or AVSEEK_FLAG_FRAME set, returns a NotSupported code
    ([AVERROR(ESPIPE)] for the table, else [AVERROR(ENOSYS)]) and does
    nothing but clear the error: no library call, the same active segment
    and reader. *)
Theorem unsupported_seeks_rejected s stream min_ts ts max_ts flags :
  seekable (cat s) = 0 \/
  Z.land flags (Z.lor AVSEEK_FLAG_BYTE AVSEEK_FLAG_FRAME) <> 0 ->
  exists ret,
    concat_seek stream min_ts ts max_ts flags s
    = Done (ret, with_cat (with_error 0 (cat s)) s) /\
    NotSupported ret /\ ret < 0 /\
    (seekable (cat s) = 0 -> ret = AVERROR ESPIPE) /\
    (seekable (cat s) <> 0 -> ret = AVERROR ENOSYS).
Proof.
  intros Hwhy. unfold concat_seek, bind, gets, modify_cat, modify, pure.
  cbn [cat with_cat seekable with_error].
  destruct (seekable (cat s) =? 0) eqn:Hseekable.
  - exists (AVERROR ESPIPE). split; [reflexivity|].
    split; [left; reflexivity|]. split; [reflexivity|].
    split; [reflexivity|]. lia.
  - destruct Hwhy as [Hs | Hflags]; [lia|].
    apply Z.eqb_neq in Hflags. rewrite Hflags. cbn [negb].
    exists (AVERROR ENOSYS). split; [reflexivity|].
    split; [right; reflexivity|]. split; [reflexivity|].
    split; [lia | reflexivity].
Qed.


(** C5.  On a table that is not empty, is sorted by [start_time] and of a
    size whose index sums fit an [int], the binary search of [real_seek]
    ends within its budget on an index [k] of the table; every segment that
    starts at or before the target has index at most [k]; and segment [k]
    itself starts at or before the target, unless every segment starts after
    it, in which case [k] is 0. *)
Theorem locate_finds_greatest_start (fs : list ConcatFile) (ts : Z) :
  fs <> [] -> int_indexable fs -> sorted_starts fs ->
  exists k,
    locate (length fs) fs ts 0 (wrap32 (Z.of_nat (length fs)))
    = Done (Z.of_nat k) /\
    (k < length fs)%nat /\
    (forall j fj, fs !! j = Some fj -> start_time fj <= ts -> (j <= k)%nat) /\
    ((exists fk, fs !! k = Some fk /\ start_time fk <= ts) \/
     (k = 0%nat /\ forall j fj, fs !! j = Some fj -> ts < start_time fj)).
Proof. apply locate_greatest_index. Qed.

(** C4.  The loop at the end of [concat_read_header], run on a table
    whose starts are all unknown, as [add_file] leaves them, keeps every
    [url] and [duration].  If every duration is known, [seekable] is set to
    1, [avf->duration] is the sum of the durations (added in [int64_t] from
    0), the first start is 0 and each further start is the previous start
    plus the previous duration.  If segment [j] is the first one whose
    duration is unknown, [seekable] and [avf->duration] are left as they
    were, the starts up to and including [j] are chained from 0 in the same
    way, and the descriptors after [j] are untouched. *)
Theorem backfill_pass_table s :
  starts_unknown (files (cat s)) ->
  let s' := read_header_backfill s in
  let fs := files (cat s) in
  let fs' := files (cat s') in
  length fs' = length fs /\
  (forall k f', fs' !! k = Some f' ->
     exists f, fs !! k = Some f /\ url f' = url f /\ duration f' = duration f) /\
  (durations_known fs ->
     seekable (cat s') = 1 /\
     ctx_duration s' = fold_left add64 (map duration fs) 0 /\
     (forall f0, fs' !! 0%nat = Some f0 -> start_time f0 = 0) /\
     (forall i fi fj, fs' !! i = Some fi -> fs' !! S i = Some fj ->
        start_time fj = add64 (start_time fi) (duration fi))) /\
  (forall j fj,
     fs !! j = Some fj -> duration fj = AV_NOPTS_VALUE ->
     (forall k f, (k < j)%nat -> fs !! k = Some f -> duration f <> AV_NOPTS_VALUE) ->
     seekable (cat s') = seekable (cat s) /\
     ctx_duration s' = ctx_duration s /\
     (forall f0, fs' !! 0%nat = Some f0 -> start_time f0 = 0) /\
     (forall i fi fi1, (i < j)%nat -> fs' !! i = Some fi -> fs' !! S i = Some fi1 ->
        start_time fi1 = add64 (start_time fi) (duration fi)) /\
     (forall k, (j < k)%nat -> fs' !! k = fs !! k)).
Proof.
  intros Hunknown s' fs fs'.
  destruct (backfill_spec fs 0 Hunknown)
    as (out & i & time' & Hrun & Hlen & Hi & Hupto & Hafter & Hknown & Hdone & Hstop).
  assert (Hfs' : fs' = out).
  { subst fs' s'. unfold read_header_backfill. fold fs. rewrite Hrun.
    simpl_state. destruct (i =? length out)%nat; reflexivity. }
  assert (Hentry : forall k f', out !! k = Some f' ->
            exists f, fs !! k = Some f /\
              ((k <= i)%nat /\ f' = with_start_time (time_after fs 0 k) f \/
               (i < k)%nat /\ f' = f)).
  { intros k f' Hk'.
    destruct (lookup_lt_is_Some_2 fs k) as [f Hf].
    { apply lookup_lt_Some in Hk'. lia. }
    exists f. split; [assumption|].
    destruct (le_lt_dec k i) as [Hle|Hgt].
    - left. split; [assumption|]. rewrite (Hupto k f Hf Hle) in Hk'. congruence.
    - right. split; [assumption|]. rewrite (Hafter k Hgt) in Hk'. congruence. }
  assert (Hchain : forall k fk fk1, (k < i)%nat ->
            out !! k = Some fk -> out !! S k = Some fk1 ->
            start_time fk1 = add64 (start_time fk) (duration fk)).
  { intros k fk fk1 Hlt Hk Hk1.
    destruct (Hentry k fk Hk) as (f & Hf & [(_ & ->) | (? & _)]); [|lia].
    destruct (Hentry (S k) fk1 Hk1) as (f1 & Hf1 & [(_ & ->) | (? & _)]); [|lia].
    cbn [start_time duration with_start_time]. unfold time_after.
    rewrite (take_S_r fs k f Hf), map_app, fold_left_app. reflexivity. }
  assert (Hfirst : forall f0, out !! 0%nat = Some f0 -> start_time f0 = 0).
  { intros f0 H0.
    destruct (Hentry 0%nat f0 H0) as (f & Hf & [(_ & ->) | (? & _)]); [|lia].
    reflexivity. }
  rewrite Hfs'. split; [assumption|]. split.
  { intros k f' Hk'. destruct (Hentry k f' Hk') as (f & Hf & [(_ & ->) | (_ & ->)]);
      exists f; auto. }
  split.
  - intros Hall.
    assert (Hcomplete : i = length fs).
    { destruct (le_lt_dec (length fs) i) as [|Hlt]; [lia|].
      destruct (Hstop Hlt) as (f & Hf & Hdur).
      unfold durations_known in Hall. rewrite Forall_lookup in Hall.
      specialize (Hall i f Hf). cbn in Hall. contradiction. }
    assert (Hs' : seekable (cat s') = 1 /\ ctx_duration s' = time').
    { subst s'. unfold read_header_backfill. fold fs. rewrite Hrun.
      simpl_state. rewrite Hcomplete, <- Hlen, Nat.eqb_refl. split; reflexivity. }
    destruct Hs' as (-> & ->). split; [reflexivity|].
    split.
    { rewrite (Hdone Hcomplete). unfold time_after. rewrite take_ge by lia.
      reflexivity. }
    split; [assumption|].
    intros k fk fk1 Hk Hk1. apply (Hchain k fk fk1); [|assumption..].
    apply lookup_lt_Some in Hk1. lia.
  - intros j fj Hj Hdur Hbefore.
    assert (Hij : i = j).
    { destruct (lt_eq_lt_dec i j) as [[Hlt | Heq] | Hgt]; [|assumption|].
      - assert (Hlt' : (i < length fs)%nat).
        { apply lookup_lt_Some in Hj. lia. }
        destruct (Hstop Hlt') as (f & Hf & Hdf).
        exfalso. exact (Hbefore i f Hlt Hf Hdf).
      - exfalso. exact (Hknown j fj Hj Hgt Hdur). }
    assert (Hs' : seekable (cat s') = seekable (cat s) /\
                  ctx_duration s' = ctx_duration s).
    { subst s'. unfold read_header_backfill. fold fs. rewrite Hrun.
      simpl_state.
      destruct (i =? length out)%nat eqn:E; [|split; reflexivity].
      apply Nat.eqb_eq in E. apply lookup_lt_Some in Hj. lia. }
    destruct Hs' as (-> & ->). do 2 (split; [reflexivity|]).
    split; [assumption|]. split.
    + intros k fk fk1 Hlt. apply Hchain. lia.
    + intros k Hk. apply Hafter. lia.
Qed.

End Statements.

(** ** The statements at work on the scripted readers *)

Lemma open_file_all_or_nothing_witness :
  Scripted.table !! 1%nat = Some (mkFile "b" 10000000 5000000) /\
  runs (open_file (lib := Scripted.lib Scripted.healthy) 1)
    (Scripted.playing 1 0) (fun ret s' evs =>
      ctx_duration s' = 22000000 /\ pb_error s' = Some 0 /\
      streams s' = [(1, 1000)] /\
      ((ret < 0 /\ cat s' = cat (Scripted.playing 1 0) /\
        closed evs = opened evs) \/
       (ret = 0 /\ exists h,
          opened evs = [h] /\ closed evs = [0%nat] /\
          avf (cat s') = Some h /\ cur_file (cat s') = Some 1%nat /\
          safe (cat s') = 1 /\ seekable (cat s') = 1 /\ error (cat s') = 0 /\
          rw_timeout (cat s') = -1 /\
          exists t,
            files (cat s') = <[1%nat := mkFile "b" t 5000000]> Scripted.table /\
            (10000000 <> AV_NOPTS_VALUE -> t = 10000000) /\
            (10000000 = AV_NOPTS_VALUE -> 1%nat = 0%nat -> t = 0) /\
            (10000000 = AV_NOPTS_VALUE ->
             forall prev p, 1%nat = S prev -> Scripted.table !! prev = Some p ->
                            t = add64 (start_time p) (duration p))))).
Proof.
  split; [reflexivity|].
  exact (open_file_all_or_nothing (lib := Scripted.lib Scripted.healthy)
           (Scripted.playing 1 0) 1%nat (mkFile "b" 10000000 5000000) eq_refl).
Defined.

Lemma retries_target_same_segment_witness :
  ready (Scripted.playing 1 0) 0%nat 0%nat /\ error (cat (Scripted.playing 1 0)) = 0 /\
  runs (open_next_file (lib := Scripted.lib Scripted.unreachable))
    (Scripted.playing 1 0) (fun ret s' evs =>
      ret < 0 ->
      ready s' 0%nat 0%nat /\ (attempts evs = [] \/ attempts evs = [(1%nat, ret)])) /\
  runs (concat_read_packet (lib := Scripted.lib Scripted.unreachable)
          Scripted.packet) (Scripted.playing 1 0)
    (fun _ s' evs =>
      attempts_follow 0%nat (attempts evs) = true /\
      forall l1 j1 r1 j2 r2 l2,
        attempts evs = l1 ++ (j1, r1) :: (j2, r2) :: l2 ->
        (r1 < 0 -> j2 = j1) /\ (0 <= r1 -> j2 = S j1)).
Proof.
  assert (Hready : ready (Scripted.playing 1 0) 0%nat 0%nat).
  { unfold ready. cbn. repeat split. lia. }
  split; [exact Hready|]. split; [reflexivity|].
  exact (retries_target_same_segment (lib := Scripted.lib Scripted.unreachable)
           (Scripted.playing 1 0) 0%nat 0%nat Scripted.packet Hready eq_refl).
Defined.




Lemma read_packet_offsets_timestamps_witness :
  ready (Scripted.playing 1 0) 0%nat 0%nat /\
  error (cat (Scripted.playing 1 0)) = 0 /\
  runs (concat_read_packet (lib := Scripted.lib Scripted.healthy)
          Scripted.packet) (Scripted.playing 1 0)
    (fun r s' evs =>
      0 <= fst r ->
      exists i' h' file raw evs0,
        ready s' i' h' /\ files (cat s') !! i' = Some file /\
        evs = evs0 ++ [CallReadFrame h' (fst r) raw] /\
        let delta :=
          Scripted.rescale
            (sub64 (start_time file) 2000000) AV_TIME_BASE_Q (1, 1000) in
        pts (snd r) = (if pts raw =? AV_NOPTS_VALUE then AV_NOPTS_VALUE
                       else add64 (pts raw) delta) /\
        dts (snd r) = (if dts raw =? AV_NOPTS_VALUE then AV_NOPTS_VALUE
                       else add64 (dts raw) delta) /\
        stream_index (snd r) = stream_index raw /\
        payload (snd r) = payload raw).
Proof.
  assert (Hready : ready (Scripted.playing 1 0) 0%nat 0%nat).
  { unfold ready. cbn. repeat split. lia. }
  split; [exact Hready|]. split; [reflexivity|].
  exact (read_packet_offsets_timestamps (lib := Scripted.lib Scripted.healthy)
           (Scripted.playing 1 0) 0%nat 0%nat Scripted.packet Hready eq_refl).
Defined.

(** The packet of the healthy reader, pts 100 in 1/1000 s, read from segment
    "a" (start 0, reader start 2 s) comes out 2000 earlier; its unknown dts
    stays unknown. *)
Example healthy_read_run :
  exists s',
    concat_read_packet (lib := Scripted.lib Scripted.healthy)
      Scripted.packet (Scripted.playing 1 0)
    = Done ((0, mkPacket (-1900) AV_NOPTS_VALUE 0 7), s').
Proof. eexists. vm_compute. reflexivity. Qed.

Lemma scripted_table_indexable : int_indexable Scripted.table.
Proof. unfold int_indexable. cbn. lia. Defined.

Lemma scripted_playing_ready seekable error :
  ready (Scripted.playing seekable error) 0%nat 0%nat.
Proof. unfold ready. cbn. repeat split. lia. Defined.

Lemma sticky_error_cleared_by_any_seek_witness :
  ready (Scripted.playing 1 (AVERROR EIO)) 0%nat 0%nat /\
  int_indexable Scripted.table /\
  runs (concat_seek (lib := Scripted.lib Scripted.no_seek) (-1) 0 12000000 20000000 0)
       (Scripted.playing 1 (AVERROR EIO))
       (fun _ s' _ => error (cat s') = 0) /\
  (error (cat (Scripted.playing 1 (AVERROR EIO))) <> 0 ->
   forall pkt,
     runs (concat_read_packet (lib := Scripted.lib Scripted.no_seek) pkt)
       (Scripted.playing 1 (AVERROR EIO)) (fun r s' evs =>
         error (cat s') = AVERROR EIO /\ fst r = AVERROR EIO /\ evs = [])).
Proof.
  split; [apply scripted_playing_ready|].
  split; [apply scripted_table_indexable|].
  exact (sticky_error_cleared_by_any_seek (lib := Scripted.lib Scripted.no_seek)
           (Scripted.playing 1 (AVERROR EIO)) 0%nat 0%nat (-1) 0 12000000 20000000 0
           (scripted_playing_ready 1 (AVERROR EIO)) scripted_table_indexable).
Defined.

(** C2, as the design document has it, fails: on a table that is not
    seekable the seek is refused with [AVERROR(ESPIPE)], a failure, and the
    error that was set is cleared all the same. *)
Lemma refused_seek_clears_error :
  exists ret s',
    error (cat (Scripted.playing 0 (AVERROR EIO))) <> 0 /\
    concat_seek (lib := Scripted.lib Scripted.healthy) (-1) 0 12000000 20000000 0
      (Scripted.playing 0 (AVERROR EIO)) = Done (ret, s') /\
    ret = AVERROR ESPIPE /\ ret < 0 /\ error (cat s') = 0.
Proof.
  do 2 eexists. split; [vm_compute; discriminate|].
  split; [vm_compute; reflexivity|]. repeat split.
Qed.

Lemma seek_rolls_back_or_commits_witness :
  ready (Scripted.playing 1 0) 0%nat 0%nat /\
  int_indexable Scripted.table /\
  runs (concat_seek (lib := Scripted.lib Scripted.no_seek) (-1) 0 12000000 20000000 0)
       (Scripted.playing 1 0) (fun ret s' evs =>
    (ret < 0 ->
       cur_file (cat s') = Some 0%nat /\ avf (cat s') = Some 0%nat /\
       Permutation (closed evs) (opened evs)) /\
    (0 <= ret ->
       exists j h' evs0,
         ready s' j h' /\ evs = evs0 ++ [CallCloseInput 0%nat] /\
         Permutation (h' :: closed evs0) (opened evs))).
Proof.
  split; [apply scripted_playing_ready|].
  split; [apply scripted_table_indexable|].
  exact (seek_rolls_back_or_commits (lib := Scripted.lib Scripted.no_seek)
           (Scripted.playing 1 0) 0%nat 0%nat (-1) 0 12000000 20000000 0
           (scripted_playing_ready 1 0) scripted_table_indexable).
Defined.

(** The seek to 12 s with readers that refuse to seek: segment "b" is
    opened, then segment "c" (it starts at 15 s, before the bound of 20 s),
    both are closed again and reader 0 on segment "a" is back. *)
Example seek_rolls_back_run :
  exists s',
    concat_seek (lib := Scripted.lib Scripted.no_seek) (-1) 0 12000000 20000000 0
      (Scripted.playing 1 0) = Done (AVERROR EIO, s') /\
    cur_file (cat s') = Some 0%nat /\ avf (cat s') = Some 0%nat /\
    attempts (history s') = [(1%nat, 0); (2%nat, 0)] /\
    opened (history s') = [1%nat; 2%nat] /\
    closed (history s') = [1%nat; 2%nat].
Proof. eexists. split; [vm_compute; reflexivity|]. repeat split. Qed.

Lemma unsupported_seeks_rejected_witness :
  (seekable (cat (Scripted.playing 1 0)) = 0 \/
   Z.land AVSEEK_FLAG_BYTE (Z.lor AVSEEK_FLAG_BYTE AVSEEK_FLAG_FRAME) <> 0) /\
  exists ret,
    concat_seek (lib := Scripted.lib Scripted.healthy)
      (-1) 0 12000000 20000000 AVSEEK_FLAG_BYTE (Scripted.playing 1 0)
    = Done (ret, with_cat (with_error 0 (cat (Scripted.playing 1 0)))
                   (Scripted.playing 1 0)) /\
    NotSupported ret /\ ret < 0 /\
    (seekable (cat (Scripted.playing 1 0)) = 0 -> ret = AVERROR ESPIPE) /\
    (seekable (cat (Scripted.playing 1 0)) <> 0 -> ret = AVERROR ENOSYS).
Proof.
  assert (Hflag : seekable (cat (Scripted.playing 1 0)) = 0 \/
            Z.land AVSEEK_FLAG_BYTE (Z.lor AVSEEK_FLAG_BYTE AVSEEK_FLAG_FRAME) <> 0).
  { right. vm_compute. discriminate. }
  split; [exact Hflag|].
  exact (unsupported_seeks_rejected (lib := Scripted.lib Scripted.healthy)
           (Scripted.playing 1 0) (-1) 0 12000000 20000000 AVSEEK_FLAG_BYTE Hflag).
Defined.



Lemma scripted_table_sorted : sorted_starts Scripted.table.
Proof.
  intros i j fi fj Hij Hi Hj.
  destruct i as [|[|[|i]]]; destruct j as [|[|[|j]]];
    cbn in Hi, Hj; try discriminate; try lia;
    injection Hi as <-; injection Hj as <-; cbn; lia.
Defined.

Lemma locate_finds_greatest_start_witness :
  Scripted.table <> [] /\ int_indexable Scripted.table /\
  sorted_starts Scripted.table /\
  exists k,
    locate 3 Scripted.table 12000000 0 (wrap32 3) = Done (Z.of_nat k) /\
    (k < 3)%nat /\
    (forall j fj, Scripted.table !! j = Some fj -> start_time fj <= 12000000 ->
                  (j <= k)%nat) /\
    ((exists fk, Scripted.table !! k = Some fk /\ start_time fk <= 12000000) \/
     (k = 0%nat /\
      forall j fj, Scripted.table !! j = Some fj -> 12000000 < start_time fj)).
Proof.
  assert (Hne : Scripted.table <> []) by discriminate.
  split; [exact Hne|]. split; [apply scripted_table_indexable|].
  split; [apply scripted_table_sorted|].
  exact (locate_finds_greatest_start Scripted.table 12000000 Hne
           scripted_table_indexable scripted_table_sorted).
Defined.

(** 12 s falls in segment "b"; a target before every start falls in
    segment "a". *)
Example locate_run :
  locate 3 Scripted.table 12000000 0 (wrap32 3) = Done 1 /\
  locate 3 Scripted.table (-5) 0 (wrap32 3) = Done 0 /\
  locate 3 Scripted.table 15000000 0 (wrap32 3) = Done 2.
Proof. repeat split. Qed.

Lemma backfill_pass_table_witness :
  starts_unknown Scripted.script_complete /\
  let s' := read_header_backfill (Scripted.parsed Scripted.script_complete) in
  let fs := Scripted.script_complete in
  let fs' := files (cat s') in
  length fs' = length fs /\
  (forall k f', fs' !! k = Some f' ->
     exists f, fs !! k = Some f /\ url f' = url f /\ duration f' = duration f) /\
  (durations_known fs ->
     seekable (cat s') = 1 /\
     ctx_duration s' = fold_left add64 (map duration fs) 0 /\
     (forall f0, fs' !! 0%nat = Some f0 -> start_time f0 = 0) /\
     (forall i fi fj, fs' !! i = Some fi -> fs' !! S i = Some fj ->
        start_time fj = add64 (start_time fi) (duration fi))) /\
  (forall j fj,
     fs !! j = Some fj -> duration fj = AV_NOPTS_VALUE ->
     (forall k f, (k < j)%nat -> fs !! k = Some f -> duration f <> AV_NOPTS_VALUE) ->
     seekable (cat s') = 0 /\
     ctx_duration s' = 0 /\
     (forall f0, fs' !! 0%nat = Some f0 -> start_time f0 = 0) /\
     (forall i fi fi1, (i < j)%nat -> fs' !! i = Some fi -> fs' !! S i = Some fi1 ->
        start_time fi1 = add64 (start_time fi) (duration fi)) /\
     (forall k, (j < k)%nat -> fs' !! k = fs !! k)).
Proof.
  assert (Hunknown : starts_unknown Scripted.script_complete).
  { repeat constructor. }
  split; [exact Hunknown|].
  exact (backfill_pass_table (Scripted.parsed Scripted.script_complete) Hunknown).
Defined.

(** The two scripts of the design document's example: with every duration
    given the table is seekable, 22 s long and starts at 0, 10 and 15 s;
    with the last duration missing the starts are the same and the table is
    not seekable. *)
Example backfill_run :
  read_header_backfill (Scripted.parsed Scripted.script_complete)
  = mkState (mkCat Scripted.table None None 1 1 0 (-1)) 22000000 (Some 0) [] 0%nat []
  /\
  read_header_backfill (Scripted.parsed Scripted.script_open_ended)
  = mkState (mkCat [mkFile "a" 0 10000000; mkFile "b" 10000000 5000000;
                    mkFile "c" 15000000 AV_NOPTS_VALUE]
                   None None 1 0 0 (-1)) 0 (Some 0) [] 0%nat [].
Proof. split; reflexivity. Qed.

(** [safe_filename] on the design document's example and on its neighbours:
    [..] cannot begin a component, a dot inside one is fine. *)
Example safe_filename_run :
  safe_filename "../../etc/passwd" = false /\
  safe_filename "clips/part-01.mkv" = true /\
  safe_filename ".hidden" = false /\
  safe_filename "/etc/passwd" = false /\
  safe_filename "a/../b" = false.
Proof. repeat split. Qed.

(** With successors that cannot be opened, one read asks for segment 1 four
    times, logs the three warnings in between and gives up. *)
Example retry_run :
  exists pkt s',
    concat_read_packet (lib := Scripted.lib Scripted.unreachable)
      Scripted.packet (Scripted.playing 1 0) = Done ((AVERROR_EOF, pkt), s') /\
    attempts (history s')
    = [(1%nat, AVERROR EIO); (1%nat, AVERROR EIO);
       (1%nat, AVERROR EIO); (1%nat, AVERROR EIO)] /\
    warnings (history s') = [1; 2; 3] /\
    error (cat s') = AVERROR EIO /\ pb_error s' = Some (AVERROR EIO) /\
    cur_file (cat s') = Some 0%nat.
Proof. do 2 eexists. split; [vm_compute; reflexivity|]. repeat split. Qed.

(** When it is [avformat_open_input] that answers [AVERROR_EOF] for the
    successor, the code recorded is [AVERROR_EOF] although segment 0 of 3 is
    the active one: the recorded code is the one the last advance returned,
    whatever its origin. *)
Example open_answers_eof_run :
  exists pkt s',
    concat_read_packet
      (lib := Scripted.lib (Scripted.mkAnswers AVERROR_EOF 0 AVERROR_EOF 0))
      Scripted.packet (Scripted.playing 1 0) = Done ((AVERROR_EOF, pkt), s') /\
    attempts (history s')
    = [(1%nat, AVERROR_EOF); (1%nat, AVERROR_EOF);
       (1%nat, AVERROR_EOF); (1%nat, AVERROR_EOF)] /\
    warnings (history s') = [1; 2; 3] /\
    error (cat s') = AVERROR_EOF /\
    cur_file (cat s') = Some 0%nat /\ length (files (cat s')) = 3%nat.
Proof. do 2 eexists. split; [vm_compute; reflexivity|]. repeat split. Qed.

(** The seek to 10 s, where segment "b" starts.  Readers that accept seeks:
    "b" alone is opened, its reader is asked and "b" is active afterwards.
    Readers that refuse: "b" is opened and asked, refuses, then "c" is
    opened and asked. *)
Example seek_to_start_run :
  (exists s',
     concat_seek (lib := Scripted.lib Scripted.healthy) (-1) 0 10000000 20000000 0
       (Scripted.playing 1 0) = Done (0, s') /\
     attempts (history s') = [(1%nat, 0)] /\
     seek_answers (history s') = [(1%nat, 0)] /\
     cur_file (cat s') = Some 1%nat) /\
  (exists s',
     concat_seek (lib := Scripted.lib Scripted.no_seek) (-1) 0 10000000 20000000 0
       (Scripted.playing 1 0) = Done (AVERROR EIO, s') /\
     attempts (history s') = [(1%nat, 0); (2%nat, 0)] /\
     seek_answers (history s') = [(1%nat, AVERROR EIO); (2%nat, AVERROR EIO)] /\
     cur_file (cat s') = Some 0%nat).
Proof.
  split; eexists; (split; [vm_compute; reflexivity|]); repeat split.
Qed.

(** Opening a segment whose start is still unknown backfills it from its
    predecessor: 10 s + 5 s. *)
Example open_file_backfill_run :
  exists s',
    open_file (lib := Scripted.lib Scripted.healthy) 2
      (mkState (mkCat [mkFile "a" 0 10000000; mkFile "b" 10000000 5000000;
                       mkFile "c" AV_NOPTS_VALUE AV_NOPTS_VALUE]
                      (Some 1%nat) (Some 1%nat) 1 0 0 (-1))
               0 (Some 0) [(1, 1000)] 2%nat [])
    = Done (0, s') /\
    files (cat s') = [mkFile "a" 0 10000000; mkFile "b" 10000000 5000000;
                      mkFile "c" 15000000 AV_NOPTS_VALUE] /\
    cur_file (cat s') = Some 2%nat /\ avf (cat s') = Some 2%nat /\
    closed (history s') = [1%nat].
Proof. eexists. split; [vm_compute; reflexivity|]. repeat split. Qed.

(** ** The tokenizer *)

Section Tokenizer.

Implicit Types (s cursor accept : string).

Lemma upto_advance n s : (upto n s ++ advance n s)%string = s.
Proof.
  revert s. induction n as [|n IH]; intros [|c s]; cbn; try reflexivity.
  rewrite IH. reflexivity.
Qed.

Lemma strspn_spec s accept :
  all_chars (fun c => in_set c accept) (upto (strspn s accept) s) = true /\
  match advance (strspn s accept) s with
  | EmptyString => True
  | String c _ => in_set c accept = false
  end.
Proof.
  induction s as [|c s IH]; cbn; [auto|].
  destruct (in_set c accept) eqn:E; cbn; [|auto].
  rewrite E. exact IH.
Qed.

Lemma strcspn_spec s accept :
  all_chars (fun c => negb (in_set c accept)) (upto (strcspn s accept) s) = true /\
  match advance (strcspn s accept) s with
  | EmptyString => True
  | String c _ => in_set c accept = true
  end.
Proof.
  induction s as [|c s IH]; cbn; [auto|].
  destruct (in_set c accept) eqn:E; cbn; [auto|].
  rewrite E. exact IH.
Qed.

(** What [get_keyword] does to a line, piece by piece. *)
Lemma get_keyword_pieces cursor :
  exists lead gap,
    cursor = (lead ++ fst (get_keyword cursor) ++ gap ++ snd (get_keyword cursor))%string /\
    all_chars is_space lead = true /\
    all_chars is_space gap = true /\
    all_chars (fun c => negb (is_space c)) (fst (get_keyword cursor)) = true /\
    starts_on_text (snd (get_keyword cursor)) = true /\
    (gap = EmptyString -> snd (get_keyword cursor) = EmptyString) /\
    (fst (get_keyword cursor) = EmptyString ->
     gap = EmptyString /\ lead = cursor).
Proof.
  unfold get_keyword.
  destruct (strspn_spec cursor SPACE_CHARS) as (Hlead & Hstart).
  pose proof (upto_advance (strspn cursor SPACE_CHARS) cursor) as Hcut1.
  set (lead := upto (strspn cursor SPACE_CHARS) cursor) in *.
  set (text := advance (strspn cursor SPACE_CHARS) cursor) in *.
  destruct (strcspn_spec text SPACE_CHARS) as (Hword & Hstop).
  pose proof (upto_advance (strcspn text SPACE_CHARS) text) as Hcut2.
  set (word := upto (strcspn text SPACE_CHARS) text) in *.
  destruct (advance (strcspn text SPACE_CHARS) text) as [|sep after] eqn:Hafter.
  - exists lead, EmptyString. cbn [fst snd].
    split; [cbn; rewrite <- Hcut1, <- Hcut2; reflexivity|].
    split; [assumption|]. split; [reflexivity|]. split; [assumption|].
    split; [reflexivity|]. split; [reflexivity|].
    intros Hempty. split; [reflexivity|].
    fold word in Hempty. rewrite Hempty in Hcut2. cbn in Hcut2.
    transitivity (lead ++ text)%string; [|exact Hcut1].
    rewrite <- Hcut2. clear. induction lead; cbn; congruence.
  - destruct (strspn_spec after SPACE_CHARS) as (Hgap & Hnext).
    pose proof (upto_advance (strspn after SPACE_CHARS) after) as Hcut3.
    exists lead, (String sep (upto (strspn after SPACE_CHARS) after)).
    cbn [fst snd].
    split.
    { rewrite <- Hcut1 at 1. f_equal. rewrite <- Hcut2 at 1. f_equal.
      cbn. rewrite Hcut3. reflexivity. }
    split; [assumption|]. split.
    { cbn [all_chars]. unfold is_space at 1. rewrite Hstop. exact Hgap. }
    split; [assumption|]. split.
    { unfold starts_on_text, is_space.
      destruct (advance (strspn after SPACE_CHARS) after); [reflexivity|].
      rewrite Hnext. reflexivity. }
    split; [discriminate|].
    intros Hempty. exfalso.
    fold word in Hempty. rewrite Hempty in Hcut2. cbn in Hcut2.
    subst text. rewrite <- Hcut2 in Hstart. congruence.
Qed.

Lemma all_chars_app test s1 s2 :
  all_chars test (s1 ++ s2)%string = all_chars test s1 && all_chars test s2.
Proof.
  induction s1 as [|c s1 IH]; cbn; [reflexivity|].
  rewrite IH, andb_assoc. reflexivity.
Qed.

Lemma all_chars_both test s :
  all_chars test s = true ->
  all_chars (fun c => negb (test c)) s = true ->
  s = EmptyString.
Proof.
  destruct s as [|c s]; [reflexivity|]. cbn.
  destruct (test c); cbn; discriminate.
Qed.

(** X1.  [get_keyword] cuts the line at the cursor into the blanks it steps
    over, the keyword it returns, the blanks behind the keyword and the
    cursor it leaves: put back together they are the line.  The keyword holds
    no blank, and the cursor is left at the end of the line or on text. *)
Theorem get_keyword_splits_line cursor :
  exists lead gap,
    cursor = (lead ++ fst (get_keyword cursor) ++ gap
                   ++ snd (get_keyword cursor))%string /\
    all_chars is_space lead = true /\
    all_chars is_space gap = true /\
    all_chars (fun c => negb (is_space c)) (fst (get_keyword cursor)) = true /\
    starts_on_text (snd (get_keyword cursor)) = true.
Proof.
  destruct (get_keyword_pieces cursor) as (lead & gap & H1 & H2 & H3 & H4 & H5 & _).
  exists lead, gap. auto.
Qed.

(** X2.  The keyword is empty exactly on a line of blanks only (the empty
    line included), and then nothing is left behind the cursor: such a line
    is skipped whole. *)
Theorem get_keyword_empty_iff_blank cursor :
  (fst (get_keyword cursor) = EmptyString <-> all_chars is_space cursor = true) /\
  (fst (get_keyword cursor) = EmptyString -> snd (get_keyword cursor) = EmptyString).
Proof.
  destruct (get_keyword_pieces cursor)
    as (lead & gap & Hline & Hlead & Hgap & Hword & _ & Hend & Hempty).
  split; [split|].
  - intros H. destruct (Hempty H) as (_ & <-). exact Hlead.
  - intros H. rewrite Hline in H.
    rewrite !all_chars_app in H.
    apply andb_true_iff in H as (_ & H). apply andb_true_iff in H as (H & _).
    exact (all_chars_both _ _ H Hword).
  - intros H. destruct (Hempty H) as (Hg & _). exact (Hend Hg).
Qed.

End Tokenizer.

Section Probe.

Context {World : Type} {lib : LibAV World} {hlib : HeaderLib World}.

Lemma upto_prefix m rest pad :
  upto (String.length m) ((m ++ rest) ++ pad)%string = m.
Proof.
  induction m as [|c m IH]; cbn; [reflexivity|]. rewrite IH. reflexivity.
Qed.

Lemma upto_padded m buf pad :
  all_chars (fun c => negb (Ascii.eqb c "000")) m = true ->
  all_chars (fun c => Ascii.eqb c "000") pad = true ->
  upto (String.length m) (buf ++ pad)%string = m ->
  exists rest, buf = (m ++ rest)%string.
Proof.
  revert buf. induction m as [|c m IH]; intros buf Hm Hpad Hcut.
  - exists buf. reflexivity.
  - cbn in Hm. apply andb_true_iff in Hm as (Hc & Hm).
    destruct buf as [|d buf].
    + exfalso. cbn in Hcut. destruct pad as [|z pad]; [discriminate|].
      cbn in Hpad. apply andb_true_iff in Hpad as (Hz & _).
      injection Hcut as -> _. rewrite Hz in Hc. discriminate.
    + cbn in Hcut. injection Hcut as -> Hcut.
      destruct (IH buf Hm Hpad Hcut) as (rest & ->).
      exists rest. reflexivity.
Qed.

(** X3.  [concat_probe] answers AVPROBE_SCORE_MAX exactly on the buffers
    that begin with the 20 bytes of the magic, and 0 on every other one, a
    buffer shorter than the magic included: the padding behind the data is
    compared, never anything beyond it. *)
Theorem concat_probe_recognises_magic buf :
  (concat_probe buf = AVPROBE_SCORE_MAX <->
   exists rest, buf = (ffconcat_magic ++ rest)%string) /\
  (concat_probe buf = AVPROBE_SCORE_MAX \/ concat_probe buf = 0).
Proof.
  unfold concat_probe.
  destruct (String.eqb _ _) eqn:E; (split; [split|]); auto.
  - intros _. apply String.eqb_eq in E.
    exact (upto_padded ffconcat_magic buf (zero_bytes AVPROBE_PADDING_SIZE)
             eq_refl eq_refl E).
  - discriminate.
  - intros (rest & ->). exfalso.
    apply String.eqb_neq in E. apply E.
    exact (upto_prefix ffconcat_magic rest _).
Qed.

Lemma strcspn_at_blank c rest :
  is_space c = true -> strcspn (String c rest) SPACE_CHARS = 0%nat.
Proof. unfold is_space. cbn [strcspn]. intros ->. reflexivity. Qed.

(** The script loop on the line the magic begins. *)
Lemma script_line_on_magic script_name rest c file :
  script_line script_name (ffconcat_magic ++ rest) c file =
  if version_ends rest
  then Parsed 0 (if safe c <? 0 then with_safe 1 c else c) file
  else Failed AVERROR_INVALIDDATA c.
Proof.
  unfold script_line, ffconcat_magic.
  change (get_keyword ("ffconcat version 1.0" ++ rest))
    with ("ffconcat"%string, ("version 1.0" ++ rest)%string).
  cbn [skipped]. change (Ascii.eqb "f" "#") with false. cbv iota.
  change (String.eqb "ffconcat" "file") with false.
  change (String.eqb "ffconcat" "duration") with false.
  change (String.eqb "ffconcat" "ffconcat") with true. cbv iota.
  change (get_keyword ("version 1.0" ++ rest))
    with ("version"%string, ("1.0" ++ rest)%string).
  cbv iota beta.
  change (String.eqb "version" "version") with true. cbn [negb orb].
  destruct rest as [|ch r]; [reflexivity|].
  cbn [version_ends]. unfold get_keyword.
  change (strspn ("1.0" ++ String ch r) SPACE_CHARS) with 0%nat.
  cbn [advance].
  change (strcspn ("1.0" ++ String ch r) SPACE_CHARS)
    with (S (S (S (strcspn (String ch r) SPACE_CHARS)))).
  destruct (is_space ch) eqn:E.
  - rewrite (strcspn_at_blank _ _ E). cbn. reflexivity.
  - unfold is_space in E. cbn [strcspn]. rewrite E. cbn [upto append advance].
    destruct (advance _ r); reflexivity.
Qed.

(** X4.  The line a probed script begins with is the magic and what follows
    it up to the line's end.  The script loop accepts it exactly when the
    version number ends there (end of line or a blank); whatever the line
    holds after that is not looked at, no descriptor is touched, and the only
    effect is that an unset [safe] (negative) becomes 1.  With text glued to
    the version number the header fails with AVERROR_INVALIDDATA although the
    probe score was the maximum. *)
Theorem version_line_accepted script_name rest c file :
  script_line script_name (ffconcat_magic ++ rest) c file =
  if version_ends rest
  then Parsed 0 (if safe c <? 0 then with_safe 1 c else c) file
  else Failed AVERROR_INVALIDDATA c.
Proof. apply script_line_on_magic. Qed.

End Probe.

Section SafeNames.

Lemma safe_filename_from_spec f at_start :
  safe_filename_from at_start f = true <->
  forall i c, String.get i f = Some c ->
    is_safe_char c = true \/
    ((c = "/"%char \/ c = "."%char) /\
     match i with
     | O => at_start = false
     | S j => exists p, String.get j f = Some p /\ p <> "/"%char
     end).
Proof.
  revert at_start. induction f as [|d f IH]; intros at_start.
  - cbn. split; [discriminate|reflexivity].
  - cbn [safe_filename_from].
    assert (Hshift : forall b : bool,
      (b = true <-> d <> "/"%char) ->
      (forall i c, String.get i f = Some c ->
         is_safe_char c = true \/
         ((c = "/"%char \/ c = "."%char) /\
          match i with
          | O => negb b = false
          | S j => exists p, String.get j f = Some p /\ p <> "/"%char
          end)) <->
      (forall i c, String.get (S i) (String d f) = Some c ->
         is_safe_char c = true \/
         ((c = "/"%char \/ c = "."%char) /\
          exists p, String.get i (String d f) = Some p /\ p <> "/"%char))).
    { intros b Hb. split; intros H i c Hget; cbn in Hget.
      - destruct (H i c Hget) as [Hs|(Hc & Hp)]; [left; exact Hs|right].
        split; [exact Hc|]. destruct i as [|j].
        + exists d. split; [reflexivity|]. apply Hb.
          destruct b; [reflexivity|discriminate].
        + exact Hp.
      - destruct (H i c Hget) as [Hs|(Hc & Hp)]; [left; exact Hs|right].
        split; [exact Hc|]. destruct i as [|j].
        + destruct Hp as (p & Hp & Hne). cbn in Hp. injection Hp as <-.
          apply Hb in Hne. rewrite Hne. reflexivity.
        + exact Hp. }
    assert (Hsplit : forall P : nat -> ascii -> Prop,
      (forall i c, String.get i (String d f) = Some c -> P i c) <->
      (P O d /\ forall i c, String.get (S i) (String d f) = Some c -> P (S i) c)).
    { intros P. split.
      - intros H. split; [apply H; reflexivity|]. intros i c Hget. apply H, Hget.
      - intros (H0 & HS) [|i] c Hget; [cbn in Hget; injection Hget as <-; exact H0|].
        apply HS, Hget. }
    rewrite (Hsplit (fun i c => is_safe_char c = true \/
      ((c = "/"%char \/ c = "."%char) /\
       match i with
       | O => at_start = false
       | S j => exists p, String.get j (String d f) = Some p /\ p <> "/"%char
       end))).
    destruct (is_safe_char d) eqn:Hsafe.
    + rewrite IH.
      rewrite <- (Hshift true).
      * cbn [negb]. split; [intros H; split; [left; reflexivity|exact H]|].
        intros (_ & H). exact H.
      * split; [|reflexivity]. intros _ ->. discriminate.
    + destruct at_start.
      * split; [discriminate|]. intros ([H|(_ & H)] & _); discriminate.
      * destruct (Ascii.eqb d "/") eqn:Hslash.
        -- apply Ascii.eqb_eq in Hslash. subst d. rewrite IH.
           rewrite <- (Hshift false).
           ++ cbn [negb]. split.
              ** intros H. split; [right; split; [left|]; reflexivity|exact H].
              ** intros (_ & H). exact H.
           ++ split; [discriminate|]. intros H. contradiction H. reflexivity.
        -- apply Ascii.eqb_neq in Hslash.
           destruct (Ascii.eqb d ".") eqn:Hdot; cbn [negb].
           ++ apply Ascii.eqb_eq in Hdot. subst d. rewrite IH.
              rewrite <- (Hshift true).
              ** cbn [negb]. split.
                 --- intros H. split; [right; split; [right|]; reflexivity|exact H].
                 --- intros (_ & H). exact H.
              ** split; [|reflexivity]. intros _. exact Hslash.
           ++ apply Ascii.eqb_neq in Hdot.
              split; [discriminate|].
              intros ([H|([H|H] & _)] & _); [discriminate|contradiction..].
Qed.

(** X5.  [safe_filename] accepts exactly the names in which every character
    is a letter, a digit, [_] or [-], or else a [/] or a [.] that neither
    begins the name nor follows a [/]: no absolute path, no empty or hidden
    component, no way up with [..], no protocol prefix. *)
Theorem safe_filename_characterised f :
  safe_filename f = true <->
  forall i c, String.get i f = Some c -> char_allowed_at f i c.
Proof.
  unfold safe_filename. rewrite safe_filename_from_spec.
  unfold char_allowed_at.
  split; intros H i c Hget.
  - destruct (H i c Hget) as [Hs|(Hc & Hp)]; [left; exact Hs|right].
    split; [exact Hc|]. destruct i as [|j]; [discriminate|].
    destruct Hp as (p & Hp & Hne). exists j, p. auto.
  - destruct (H i c Hget) as [Hs|(Hc & j & p & -> & Hp & Hne)];
      [left; exact Hs|right].
    split; [exact Hc|]. exists p. auto.
Qed.

End SafeNames.

Section Allocation.

Implicit Types (c : ConcatContext).

Lemma added_nb_files fs c f :
  nb_files (with_files (fs ++ [f]) c) = Z.of_nat (length fs) + 1.
Proof. unfold nb_files. cbn. rewrite length_app. cbn. lia. Qed.

(** X6.  Starting from no table and doubling from 16, [add_file] never
    writes outside the table: whenever it succeeds, the slot it fills lies
    within the capacity it leaves, the capacity has not shrunk and is again
    0 or 16 doubled at most 27 times.  A full table of 2^31 descriptors is
    therefore never grown: there the doubling wraps to 0 in [unsigned],
    FFMAX makes it 16, and the test [n <= cat->nb_files] refuses it. *)
Theorem add_file_alloc_stays_in_table absolute_url size_limit malloc_ok realloc_ok
    filename c nb_files_alloc c' nb_files_alloc' :
  capacity_ok (nb_files c) nb_files_alloc ->
  add_file_alloc absolute_url size_limit malloc_ok realloc_ok filename c
    nb_files_alloc = inr (c', nb_files_alloc') ->
  nb_files c < nb_files_alloc' /\
  nb_files c' = nb_files c + 1 /\
  nb_files_alloc <= nb_files_alloc' /\
  capacity_ok (nb_files c') nb_files_alloc'.
Proof.
  intros ((Hused0 & Hused) & Hcap). unfold add_file_alloc.
  destruct ((safe c >? 0) && negb (safe_filename filename)); [discriminate|].
  destruct (negb malloc_ok); [discriminate|].
  set (added := with_files _ c).
  assert (Hadded : nb_files added = nb_files c + 1) by apply added_nb_files.
  destruct (nb_files c >=? nb_files_alloc) eqn:Hfull.
  - destruct (_ || _) eqn:Hrefused; [discriminate|].
    intros [= <- <-].
    apply orb_false_iff in Hrefused as (Hrefused & _).
    apply orb_false_iff in Hrefused as (Hle & _).
    apply Z.leb_gt in Hle. apply Z.geb_le in Hfull.
    assert (Hsame : nb_files c = nb_files_alloc) by lia.
    destruct Hcap as [-> | (k & Hk & ->)].
    + change (Z.max (wrapu32 (0 * 2)) 16) with 16 in *.
      rewrite Hadded. split; [lia|]. split; [reflexivity|]. split; [lia|].
      split; [lia|]. right. exists 0. split; [lia | reflexivity].
    + assert (Hdouble : 16 * 2 ^ k * 2 = 16 * 2 ^ (k + 1))
        by (rewrite Z.pow_add_r by lia; lia).
      rewrite Hdouble in *.
      assert (Hpos : 0 < 2 ^ k) by (apply Z.pow_pos_nonneg; lia).
      destruct (Z.eq_dec k 27) as [->|Hk27].
      * exfalso. change (wrapu32 (16 * 2 ^ (27 + 1))) with 0 in Hle.
        cbn in Hle. lia.
      * assert (Hsmall : 16 * 2 ^ (k + 1) < 2 ^ 32).
        { change (2 ^ 32) with (16 * 2 ^ 28). apply Z.mul_lt_mono_pos_l; [lia|].
          apply Z.pow_lt_mono_r; lia. }
        assert (Hbig : 16 <= 16 * 2 ^ (k + 1)).
        { assert (0 < 2 ^ (k + 1)) by (apply Z.pow_pos_nonneg; lia). lia. }
        rewrite wrapu32_small in * by lia.
        rewrite Z.max_l in * by lia.
        rewrite Hadded. split; [lia|]. split; [reflexivity|].
        split; [rewrite Z.pow_add_r by lia; lia|].
        split; [lia|]. right. exists (k + 1). split; [lia | reflexivity].
  - intros [= <- <-]. rewrite Hadded.
    assert (nb_files c < nb_files_alloc).
    { destruct (Z.geb_spec (nb_files c) nb_files_alloc); [discriminate | lia]. }
    split; [lia|]. split; [reflexivity|]. split; [lia|].
    split; [lia | exact Hcap].
Qed.

(** X7.  The allocations change nothing but the chance to fail: when
    [add_file] succeeds the table is the one [add_file] builds when every
    allocation succeeds, and when it fails the code is AVERROR(EPERM) for a
    name refused in safe mode, before anything is allocated, or
    AVERROR(ENOMEM) for a name that would have been added. *)
Theorem add_file_alloc_agrees absolute_url size_limit malloc_ok realloc_ok
    filename c nb_files_alloc :
  match add_file_alloc absolute_url size_limit malloc_ok realloc_ok filename c
          nb_files_alloc with
  | inr (c', _) => add_file absolute_url filename c = inr c'
  | inl e =>
      (e = AVERROR EPERM /\ add_file absolute_url filename c = inl e /\
       0 < safe c /\ safe_filename filename = false) \/
      (e = AVERROR ENOMEM /\ exists c', add_file absolute_url filename c = inr c')
  end.
Proof.
  unfold add_file_alloc, add_file.
  destruct (safe c >? 0) eqn:Hsafe; cbn [andb].
  - destruct (safe_filename filename) eqn:Hname; cbn [negb].
    + destruct malloc_ok; cbn [negb]; [|right; eauto].
      destruct (_ >=? _); [|reflexivity].
      destruct (_ || _); [right; eauto | reflexivity].
    + left. repeat split. apply Z.gtb_lt in Hsafe. lia.
  - destruct malloc_ok; cbn [negb]; [|right; eauto].
    destruct (_ >=? _); [|reflexivity].
    destruct (_ || _); [right; eauto | reflexivity].
Qed.

End Allocation.

Section ScriptFacts.

Context {World : Type} {lib : LibAV World} {hlib : HeaderLib World}.

Implicit Types (c : ConcatContext) (file : option nat) (buf : string).

Lemma AVERROR_INVALIDDATA_neg : AVERROR_INVALIDDATA < 0.
Proof. reflexivity. Qed.

Lemma table_extended_refl absolute_url c : table_extended absolute_url c c.
Proof.
  unfold table_extended. repeat (split; [reflexivity|]).
  split; [left; reflexivity|]. split; [|auto].
  exists []. cbn. rewrite app_nil_r. split; [reflexivity | constructor].
Qed.

Lemma table_extended_trans absolute_url c1 c2 c3 :
  table_extended absolute_url c1 c2 -> table_extended absolute_url c2 c3 ->
  table_extended absolute_url c1 c3.
Proof.
  intros (Hc & Ha & Hs & He & Ht & Hsafe & (n1 & Hn1 & Hok1) & Hu)
         (Hc' & Ha' & Hs' & He' & Ht' & Hsafe' & (n2 & Hn2 & Hok2) & Hu').
  unfold table_extended. repeat (split; [congruence|]).
  split; [|split; [|auto]].
  - destruct Hsafe as [H1|(H1 & H1')], Hsafe' as [H2|(H2 & H2')];
      (left; congruence) || (right; split; lia).
  - exists (n1 ++ n2). rewrite Hn2, Hn1, map_app, app_assoc.
    split; [reflexivity|]. intros Hon. apply Forall_app.
    split; [apply Hok1, Hon|]. apply Hok2.
    destruct Hsafe as [H1|(H1 & _)]; lia.
Qed.

Lemma add_file_extends absolute_url filename c :
  match add_file absolute_url filename c with
  | inl e => e = AVERROR EPERM /\ 0 < safe c /\ safe_filename filename = false
  | inr c' =>
      table_extended absolute_url c c' /\
      files c' = files c ++ [mkFile (absolute_url filename)
                                    AV_NOPTS_VALUE AV_NOPTS_VALUE] /\
      (0 < safe c -> safe_filename filename = true)
  end.
Proof.
  unfold add_file.
  destruct (safe c >? 0) eqn:Hsafe; cbn [andb].
  - apply Z.gtb_lt in Hsafe.
    destruct (safe_filename filename) eqn:Hname; cbn [negb]; [|auto].
    split; [|auto]. unfold table_extended. cbn.
    repeat (split; [reflexivity|]). split; [left; reflexivity|]. split.
    + exists [filename]. rewrite map_app. cbn. split; [reflexivity|].
      intros _. constructor; [assumption | constructor].
    + intros Hall. apply Forall_app. split; [assumption|].
      constructor; [reflexivity | constructor].
  - split; [|split; [reflexivity|]].
    + unfold table_extended. cbn.
      repeat (split; [reflexivity|]). split; [left; reflexivity|]. split.
      * exists [filename]. rewrite map_app. cbn. split; [reflexivity|].
        intros Hon. destruct (Z.gtb_spec (safe c) 0); [discriminate | lia].
      * intros Hall. apply Forall_app. split; [assumption|].
        constructor; [reflexivity | constructor].
    + intros Hon. destruct (Z.gtb_spec (safe c) 0); [discriminate | lia].
Qed.

Lemma map_alter_same {A B} (f : A -> B) (g : A -> A) (i : nat) (l : list A) :
  (forall a, f (g a) = f a) -> map f (alter g i l) = map f l.
Proof.
  intros Hsame. revert i. induction l as [|a l IH]; intros [|i]; cbn;
    rewrite ?Hsame, ?IH; reflexivity.
Qed.

Lemma set_duration_extends absolute_url i dur c :
  table_extended absolute_url c (set_duration i dur c) /\
  length (files (set_duration i dur c)) = length (files c).
Proof.
  unfold set_duration, table_extended. cbn.
  split; [|apply length_alter].
  repeat (split; [reflexivity|]). split; [left; reflexivity|]. split.
  - exists []. cbn. rewrite app_nil_r. split; [|constructor].
    apply map_alter_same. reflexivity.
  - intros Hall. apply Forall_alter; [exact Hall|]. auto.
Qed.

Lemma with_safe_extends absolute_url c :
  safe c < 0 -> table_extended absolute_url c (with_safe 1 c).
Proof.
  intros Hunset. unfold table_extended. cbn.
  repeat (split; [reflexivity|]). split; [right; auto|]. split; [|auto].
  exists []. cbn. rewrite app_nil_r. split; [reflexivity | constructor].
Qed.

(** One round of the script loop. *)
Lemma script_line_extends name buf c file :
  points_at_last c file ->
  match script_line name buf c file with
  | Failed e c' => e < 0 /\ c' = c
  | Parsed ret c' file' =>
      0 <= ret /\ table_extended (ff_make_absolute_url name) c c' /\
      points_at_last c' file'
  end.
Proof.
  intros Hlast. unfold script_line.
  destruct (get_keyword buf) as [keyword cursor].
  destruct (skipped keyword).
  { split; [lia|]. split; [apply table_extended_refl | exact Hlast]. }
  destruct (String.eqb keyword "file").
  { destruct (av_get_token cursor) as [filename|];
      [|split; [apply AVERROR_INVALIDDATA_neg | reflexivity]].
    pose proof (add_file_extends (ff_make_absolute_url name) filename c) as Hadd.
    destruct (add_file _ filename c) as [e|c'].
    - destruct Hadd as (-> & _). split; [reflexivity | reflexivity].
    - destruct Hadd as (Hext & Hfiles & _). split; [lia|]. split; [exact Hext|].
      unfold points_at_last. rewrite Hfiles, length_app. cbn. lia. }
  destruct (String.eqb keyword "duration").
  { destruct (get_keyword cursor) as [dur_str ?].
    destruct file as [i|]; [|split; [apply AVERROR_INVALIDDATA_neg | reflexivity]].
    destruct (av_parse_time dur_str) as [ret dur].
    destruct (ret <? 0) eqn:Hret.
    - apply Z.ltb_lt in Hret. auto.
    - apply Z.ltb_ge in Hret. split; [exact Hret|].
      destruct (set_duration_extends (ff_make_absolute_url name) i dur c)
        as (Hext & Hlen).
      split; [exact Hext|]. unfold points_at_last in *. congruence. }
  destruct (String.eqb keyword "ffconcat").
  { destruct (get_keyword cursor) as [ver_kw cursor'].
    destruct (get_keyword cursor') as [ver_val ?].
    destruct (_ || _); [split; [apply AVERROR_INVALIDDATA_neg | reflexivity]|].
    split; [lia|]. destruct (safe c <? 0) eqn:Hunset.
    - apply Z.ltb_lt in Hunset. split; [apply with_safe_extends, Hunset|].
      destruct file; exact Hlast.
    - split; [apply table_extended_refl | exact Hlast]. }
  split; [apply AVERROR_INVALIDDATA_neg | reflexivity].
Qed.

(** The whole loop. *)
Lemma read_script_extends name lines : forall c file,
  points_at_last c file ->
  match read_script name lines c file with
  | Failed e c' => e < 0 /\ table_extended (ff_make_absolute_url name) c c'
  | Parsed ret c' file' =>
      ret = 0 /\ table_extended (ff_make_absolute_url name) c c' /\
      points_at_last c' file'
  end.
Proof.
  induction lines as [|buf rest IH]; intros c file Hlast; cbn [read_script].
  { split; [reflexivity|]. split; [apply table_extended_refl | exact Hlast]. }
  destruct (Z.of_nat (String.length buf) <=? 0) eqn:Hend.
  { apply Z.leb_le in Hend. split; [lia|].
    split; [apply table_extended_refl | exact Hlast]. }
  pose proof (script_line_extends name buf c file Hlast) as Hline.
  destruct (script_line name buf c file) as [e c1|ret c1 file1].
  - destruct Hline as (He & ->). split; [exact He | apply table_extended_refl].
  - destruct Hline as (_ & Hext1 & Hlast1).
    specialize (IH c1 file1 Hlast1).
    destruct (read_script name rest c1 file1) as [e c2|ret2 c2 file2].
    + destruct IH as (He & Hext2). split; [exact He|].
      eapply table_extended_trans; eassumption.
    + destruct IH as (Hret & Hext2 & Hlast2). split; [exact Hret|].
      split; [eapply table_extended_trans; eassumption | exact Hlast2].
Qed.

Lemma get_keyword_skips_lead lead s :
  all_chars is_space lead = true ->
  get_keyword (lead ++ s) = get_keyword s.
Proof.
  induction lead as [|ch lead IH]; [reflexivity|].
  cbn [all_chars]. intros Hlead. apply andb_true_iff in Hlead as (Hch & Hlead).
  rewrite <- (IH Hlead). unfold get_keyword, is_space in *.
  cbn [append strspn]. rewrite Hch. reflexivity.
Qed.

Lemma comment_or_blank_skipped buf :
  comment_or_blank buf ->
  (Z.of_nat (String.length buf) <=? 0) = false /\
  skipped (fst (get_keyword buf)) = true.
Proof.
  intros (Hsome & Hwhat). split.
  { destruct buf; [contradiction|]. cbn [String.length]. apply Z.leb_gt. lia. }
  destruct Hwhat as [Hblank | (lead & rest & -> & Hlead)].
  - destruct (get_keyword_pieces buf)
      as (lead & gap & Hline & _ & _ & Hword & _).
    rewrite Hline in Hblank. rewrite !all_chars_app in Hblank.
    apply andb_true_iff in Hblank as (_ & H). apply andb_true_iff in H as (H & _).
    rewrite (all_chars_both _ _ H Hword). reflexivity.
  - rewrite (get_keyword_skips_lead _ _ Hlead).
    unfold get_keyword.
    change (strspn (String "#" rest) SPACE_CHARS) with 0%nat.
    cbn [advance].
    change (strcspn (String "#" rest) SPACE_CHARS)
      with (S (strcspn rest SPACE_CHARS)).
    cbn [upto advance].
    destruct (advance (strcspn rest SPACE_CHARS) rest); reflexivity.
Qed.

(** X8.  Blank lines and comment lines may stand anywhere in the script:
    leaving one out changes nothing of what the script loop builds or
    returns. *)
Theorem read_script_passes_over name before buf after c file :
  comment_or_blank buf ->
  read_script name (before ++ buf :: after) c file =
  read_script name (before ++ after) c file.
Proof.
  intros Hbuf. destruct (comment_or_blank_skipped buf Hbuf) as (Hlen & Hskip).
  revert c file. induction before as [|l before IH]; intros c file.
  - cbn [app read_script]. rewrite Hlen. unfold script_line.
    destruct (get_keyword buf) as [keyword cursor]. cbn [fst] in Hskip.
    rewrite Hskip. reflexivity.
  - cbn [app read_script].
    destruct (Z.of_nat (String.length l) <=? 0); [reflexivity|].
    destruct (script_line name l c file); [reflexivity | apply IH].
Qed.

(** X9.  The script loop, entered with an empty table, ends with return
    code 0 or fails with a negative code.  Either way the table holds
    only descriptors whose [start_time] is unknown, and [cur_file], [avf],
    [seekable], [error] and [rw_timeout] were not written.  When it ends
    normally [file] is NULL if no descriptor was added and on the last
    descriptor otherwise, so that a [duration] line speaks of the [file]
    line before it. *)
Theorem read_script_builds_table name lines c :
  files c = [] ->
  match read_script name lines c None with
  | Failed e c' =>
      e < 0 /\ table_extended (ff_make_absolute_url name) c c' /\
      Forall (fun f => start_time f = AV_NOPTS_VALUE) (files c')
  | Parsed ret c' file' =>
      ret = 0 /\ table_extended (ff_make_absolute_url name) c c' /\
      Forall (fun f => start_time f = AV_NOPTS_VALUE) (files c') /\
      points_at_last c' file'
  end.
Proof.
  intros Hempty.
  pose proof (read_script_extends name lines c None Hempty) as H.
  destruct (read_script name lines c None) as [e c'|ret c' file'].
  - destruct H as (He & Hext). split; [exact He|]. split; [exact Hext|].
    apply Hext. rewrite Hempty. constructor.
  - destruct H as (Hret & Hext & Hlast). split; [exact Hret|].
    split; [exact Hext|]. split; [|exact Hlast].
    apply Hext. rewrite Hempty. constructor.
Qed.

Lemma read_script_names name lines c file :
  points_at_last c file ->
  table_extended (ff_make_absolute_url name) c
    (context_of (read_script name lines c file)).
Proof.
  intros Hlast. pose proof (read_script_extends name lines c file Hlast) as H.
  destruct (read_script name lines c file); cbn [context_of]; apply H.
Qed.

(** X10.  With safe mode on, every descriptor the script adds, up to the
    line the loop stops at, is for a name [safe_filename] accepts, and safe
    mode stays on. *)
Theorem safe_mode_checks_names name lines c file :
  0 < safe c -> points_at_last c file ->
  let c' := context_of (read_script name lines c file) in
  safe c' = safe c /\
  exists names,
    map url (files c') = map url (files c) ++ map (ff_make_absolute_url name) names /\
    Forall (fun filename => safe_filename filename = true) names.
Proof.
  intros Hon Hlast c'.
  destruct (read_script_names name lines c file Hlast)
    as (_ & _ & _ & _ & _ & Hsafe & (names & Hnames & Hok) & _).
  split; [destruct Hsafe as [H|(H & _)]; [exact H | lia]|].
  exists names. auto.
Qed.

(** X11.  With [safe] unset (the option's default, -1), a script that
    begins with its version line, as every script the probe accepts does, is
    read in safe mode: [safe] is 1 afterwards and every descriptor is for a
    name [safe_filename] accepts. *)
Theorem probed_script_is_read_safely name rest lines c :
  safe c < 0 -> files c = [] -> version_ends rest = true ->
  let c' := context_of (read_script name ((ffconcat_magic ++ rest)%string :: lines)
                          c None) in
  safe c' = 1 /\
  exists names,
    map url (files c') = map (ff_make_absolute_url name) names /\
    Forall (fun filename => safe_filename filename = true) names.
Proof.
  intros Hunset Hempty Hends c'. subst c'. cbn [read_script].
  change (Z.of_nat (String.length (ffconcat_magic ++ rest)) <=? 0) with false.
  cbv iota.
  pose proof (script_line_on_magic (hlib := hlib) name rest c None) as Hline.
  rewrite Hends in Hline.
  assert (Hlt : (safe c <? 0) = true) by (apply Z.ltb_lt, Hunset).
  rewrite Hlt in Hline. rewrite Hline.
  destruct (read_script_names name lines (with_safe 1 c) None)
    as (_ & _ & _ & _ & _ & Hsafe & (names & Hnames & Hok) & _).
  { exact Hempty. }
  cbn [safe with_safe files] in *.
  split; [destruct Hsafe as [H|(H & _)]; [exact H | lia]|].
  exists names. rewrite Hnames, Hempty. split; [reflexivity|].
  apply Hok. lia.
Qed.

(** X24.  A [duration] line gives its duration to the descriptor of the
    [file] line before it, the last one of the table, and touches no other
    descriptor. *)
Theorem duration_line_sets_latest name buf c i dur_ret dur :
  points_at_last c (Some i) ->
  fst (get_keyword buf) = "duration"%string ->
  av_parse_time (fst (get_keyword (snd (get_keyword buf)))) = (dur_ret, dur) ->
  0 <= dur_ret ->
  exists before last,
    files c = before ++ [last] /\
    script_line name buf c (Some i) =
      Parsed dur_ret (with_files (before ++ [with_duration dur last]) c) (Some i).
Proof.
  intros Hlast Hkw Hparse Hok. unfold points_at_last in Hlast.
  assert (Hsome : files c <> []).
  { intros Hnone. rewrite Hnone in Hlast. discriminate. }
  destruct (exists_last Hsome) as (before & last & Hfiles).
  rewrite Hfiles, length_app in Hlast. cbn in Hlast.
  assert (Hi : i = length before) by lia. subst i.
  exists before, last. split; [exact Hfiles|].
  unfold script_line. destruct (get_keyword buf) as [keyword cursor].
  cbn [fst snd] in *. subst keyword. cbn [skipped].
  change (Ascii.eqb "d" "#") with false. cbv iota.
  change (String.eqb "duration" "file") with false.
  change (String.eqb "duration" "duration") with true. cbv iota.
  destruct (get_keyword cursor) as [dur_str rest]. cbn [fst] in Hparse.
  rewrite Hparse.
  assert (Hnot : (dur_ret <? 0) = false) by (apply Z.ltb_ge, Hok).
  rewrite Hnot. unfold set_duration. rewrite Hfiles.
  replace (length before) with (length before + 0)%nat at 1 by lia.
  rewrite alter_app_r. reflexivity.
Qed.

End ScriptFacts.

Section HeaderRun.

Context {World : Type} {lib : LibAV World} {hlib : HeaderLib World}.

Local Abbreviation M := (StateM (State World)).
Implicit Types (s : State World) (c : ConcatContext) (evs : list Event).

Lemma runs_modify (f : State World -> State World) s Q :
  history (f s) = history s -> Q tt (f s) [] -> runs (modify f) s Q.
Proof.
  intros Hh HQ. exists tt, (f s), []. rewrite app_nil_r. auto.
Qed.

Lemma runs_ask {A} (f : World -> A * World) s Q :
  (forall a w, f (world s) = (a, w) -> Q a (with_world w s) []) ->
  runs (ask f) s Q.
Proof.
  intros HQ. unfold runs, ask. destruct (f (world s)) as [a w].
  exists a, (with_world w s), []. simpl_state. rewrite app_nil_r.
  split; [reflexivity|]. split; [reflexivity|]. apply HQ. reflexivity.
Qed.

(** [concat_read_close] closes the reader that is installed, if one is, and
    lets go of the table. *)
Lemma concat_read_close_spec s :
  runs concat_read_close s (fun ret s' evs =>
    ret = 0 /\
    evs = match avf (cat s) with Some h => [CallCloseInput h] | None => [] end /\
    cat s' = with_files [] (with_avf None (cat s)) /\
    ctx_duration s' = ctx_duration s /\ pb_error s' = pb_error s /\
    streams s' = streams s).
Proof.
  unfold concat_read_close. wp.
  split; [reflexivity|]. rewrite !app_nil_r. cbn [app].
  split; [reflexivity|].
  destruct (avf (cat s)); simpl_state; repeat split.
Qed.

Lemma header_fail_spec e s :
  runs (header_fail e) s (fun ret s' evs =>
    ret = e /\
    evs = match avf (cat s) with Some h => [CallCloseInput h] | None => [] end /\
    cat s' = with_files [] (with_avf None (cat s)) /\
    ctx_duration s' = ctx_duration s /\ pb_error s' = pb_error s /\
    streams s' = streams s).
Proof.
  unfold header_fail. wp.
  eapply runs_weaken; [apply concat_read_close_spec|]. cbv beta.
  intros ret s' evs (_ & -> & Hcat & Hd & Hp & Hst). wp.
  rewrite app_nil_r. repeat (split; [assumption || reflexivity|]). assumption.
Qed.

Lemma insert_last {A} (l : list A) (x y : A) :
  <[(length (l ++ [x]) - 1)%nat := y]> (l ++ [x]) = l ++ [y].
Proof.
  rewrite length_app. cbn [length].
  replace (length l + 1 - 1)%nat with (length l + 0)%nat by lia.
  rewrite insert_app_r. reflexivity.
Qed.

(** The stream loop: the streams it made carry the time bases of the
    reader's, in order; it changes nothing else. *)
Lemma copy_streams_spec n : forall i h s,
  runs (copy_streams n i h) s (fun ret s' evs =>
    evs = [] /\ cat s' = cat s /\ ctx_duration s' = ctx_duration s /\
    pb_error s' = pb_error s /\ world s' = world s /\
    ((ret = 0 /\
      streams s' = streams s ++
        map (fun k => reader_time_base h (Z.of_nat k) (world s)) (seq i n)) \/
     (ret < 0 /\ exists made, streams s' = streams s ++ made))).
Proof.
  induction n as [|n IH]; intros i h s; cbn [copy_streams].
  { wp. repeat (split; [reflexivity|]). left. cbn. rewrite app_nil_r. auto. }
  wp. destruct (avformat_new_stream i (world s)); cbn [negb]; wp.
  2:{ repeat (split; [reflexivity|]). right.
      split; [reflexivity|]. exists []. rewrite app_nil_r. reflexivity. }
  apply runs_modify; [reflexivity|]. wp.
  cbn [with_streams cat ctx_duration pb_error streams world history].
  destruct (avcodec_copy_context h i (world s) <? 0) eqn:Hcopy; wp.
  { repeat (split; [reflexivity|]). right.
    apply Z.ltb_lt in Hcopy. split; [exact Hcopy|]. eauto. }
  apply runs_modify; [reflexivity|].
  cbn [with_streams cat ctx_duration pb_error streams world history].
  rewrite insert_last.
  eapply runs_weaken; [apply IH|]. cbv beta.
  intros ret s' evs (-> & Hcat & Hd & Hp & Hw & Hres).
  cbn [with_streams cat ctx_duration pb_error streams world history] in *.
  repeat (split; [assumption || reflexivity|]).
  destruct Hres as [(-> & Hst) | (Hneg & made & Hst)].
  - left. split; [reflexivity|]. rewrite Hst, <- app_assoc. reflexivity.
  - right. split; [exact Hneg|]. rewrite Hst, <- app_assoc. eauto.
Qed.

Lemma read_header_backfill_frame s :
  history (read_header_backfill s) = history s /\
  pb_error (read_header_backfill s) = pb_error s /\
  streams (read_header_backfill s) = streams s /\
  world (read_header_backfill s) = world s /\
  cur_file (cat (read_header_backfill s)) = cur_file (cat s) /\
  avf (cat (read_header_backfill s)) = avf (cat s) /\
  safe (cat (read_header_backfill s)) = safe (cat s) /\
  error (cat (read_header_backfill s)) = error (cat s) /\
  rw_timeout (cat (read_header_backfill s)) = rw_timeout (cat s) /\
  files (cat (read_header_backfill s)) = fst (fst (backfill (files (cat s)) 0)).
Proof.
  unfold read_header_backfill.
  destruct (backfill (files (cat s)) 0) as [[fs i] time].
  destruct (i =? length fs)%nat; simpl_state; repeat split.
Qed.

Lemma script_line_length name buf c file :
  (length (files (context_of (script_line name buf c file)))
   <= S (length (files c)))%nat.
Proof.
  unfold script_line.
  destruct (get_keyword buf) as [keyword cursor].
  destruct (skipped keyword); [cbn; lia|].
  destruct (String.eqb keyword "file").
  { destruct (av_get_token cursor) as [filename|]; [|cbn; lia].
    pose proof (add_file_extends (ff_make_absolute_url name) filename c) as Hadd.
    destruct (add_file _ filename c) as [e|c']; [cbn; lia|].
    destruct Hadd as (_ & Hfiles & _). cbn [context_of].
    rewrite Hfiles, length_app. cbn. lia. }
  destruct (String.eqb keyword "duration").
  { destruct (get_keyword cursor) as [dur_str ?].
    destruct file as [i|]; [|cbn; lia].
    destruct (av_parse_time dur_str) as [ret dur].
    destruct (ret <? 0); [cbn; lia|]. cbn [context_of].
    unfold set_duration. cbn. rewrite length_alter. lia. }
  destruct (String.eqb keyword "ffconcat").
  { destruct (get_keyword cursor) as [ver_kw cursor'].
    destruct (get_keyword cursor') as [ver_val ?].
    destruct (_ || _); [cbn; lia|].
    destruct (safe c <? 0); cbn; lia. }
  cbn. lia.
Qed.

Lemma read_script_length name lines : forall c file,
  (length (files (context_of (read_script name lines c file)))
   <= length (files c) + length lines)%nat.
Proof.
  induction lines as [|buf rest IH]; intros c file; cbn [read_script].
  { cbn. lia. }
  destruct (Z.of_nat (String.length buf) <=? 0); [cbn; lia|].
  pose proof (script_line_length name buf c file) as Hline.
  destruct (script_line name buf c file) as [e c1|ret c1 file1];
    cbn [context_of] in *; [cbn; lia|].
  specialize (IH c1 file1). cbn [length]. lia.
Qed.

(** The resolver's segments: each one adds a descriptor with the duration
    the resolver names. *)
Lemma resolve_segments_spec name n :
  (forall u w, av_strdup u w = true) ->
  forall i ret s,
  runs (resolve_segments name n i ret) s (fun r s' evs =>
    evs = [] /\ ctx_duration s' = ctx_duration s /\
    pb_error s' = pb_error s /\ streams s' = streams s /\
    table_extended (ff_make_absolute_url name) (cat s) (cat s') /\
    (length (files (cat s')) <= length (files (cat s)) + n)%nat /\
    match r with inl e => e < 0 | inr _ => True end).
Proof.
  intros Hcopy.
  induction n as [|n IH]; intros i ret s; cbn [resolve_segments].
  { wp. repeat (split; [reflexivity|]).
    split; [apply table_extended_refl|]. split; [lia | exact I]. }
  wp. apply runs_ask. intros [[cb_ret fsc_url] fsc_duration] w _. simpl_state.
  assert (Hskip : forall ret',
    runs (resolve_segments name n (i + 1) ret') (with_world w s)
      (fun r s' evs =>
         [] ++ evs = [] /\ ctx_duration s' = ctx_duration s /\
         pb_error s' = pb_error s /\ streams s' = streams s /\
         table_extended (ff_make_absolute_url name) (cat s) (cat s') /\
         (length (files (cat s')) <= length (files (cat s)) + S n)%nat /\
         match r with inl e => e < 0 | inr _ => True end)).
  { intros ret'. eapply runs_weaken; [apply IH|]. cbv beta.
    intros r s' evs (-> & Hd & Hp & Hst & Hext & Hlen & Hr). simpl_state.
    repeat (split; [assumption || reflexivity|]).
    split; [lia | exact Hr]. }
  destruct fsc_url as [u|]; [|apply Hskip].
  destruct (cb_ret =? 0); [|apply Hskip]. wp.
  rewrite Hcopy. cbn [negb]. wp.
  pose proof (add_file_extends (ff_make_absolute_url name) u (cat s)) as Hadd.
  destruct (add_file _ u (cat s)) as [e|c']; wp.
  { destruct Hadd as (-> & _). repeat (split; [reflexivity|]).
    split; [apply table_extended_refl|]. split; [lia | reflexivity]. }
  destruct Hadd as (Hext & Hfiles & _).
  destruct (set_duration_extends (ff_make_absolute_url name)
              (length (files (cat s))) fsc_duration c') as (Hext' & Hlen').
  eapply runs_weaken; [apply IH|]. cbv beta.
  intros r s' evs (-> & Hd & Hp & Hst & Hext2 & Hlen & Hr). simpl_state.
  repeat (split; [assumption || reflexivity|]).
  split.
  { eapply table_extended_trans; [exact Hext|].
    eapply table_extended_trans; [exact Hext' | exact Hext2]. }
  split; [|exact Hr].
  rewrite Hlen', Hfiles, length_app in Hlen. cbn in Hlen. lia.
Qed.

Lemma run_resolver_spec name stack s :
  resolver_allocates ->
  runs (run_resolver name stack) s (fun r s' evs =>
    evs = [] /\ ctx_duration s' = ctx_duration s /\
    pb_error s' = pb_error s /\ streams s' = streams s /\
    table_extended (ff_make_absolute_url name) (cat s) (cat s') /\
    (length (files (cat s')) <= length (files (cat s)) + resolver_count s)%nat /\
    match r with
    | inl e => e < 0
    | inr (ret, count) => count <= 0 -> cat s' = cat s
    end).
Proof.
  unfold resolver_allocates, run_resolver, resolver_count.
  destruct control_message_cb as [cb|]; intros Hcopy.
  2:{ wp. repeat (split; [reflexivity|]).
      split; [apply table_extended_refl|]. split; [lia | reflexivity]. }
  destruct Hcopy as [Hcopy|Hcopy]; [discriminate|].
  wp. apply runs_ask. intros [cb_ret count] w ->. simpl_state.
  destruct (cb_ret =? 0); wp.
  2:{ repeat (split; [reflexivity|]).
      split; [apply table_extended_refl|]. split; [lia | reflexivity]. }
  destruct (Z.to_nat count) as [|n] eqn:Hcount.
  { cbn [resolve_segments]. wp. repeat (split; [reflexivity|]).
    split; [apply table_extended_refl|]. split; [lia | reflexivity]. }
  eapply runs_weaken; [apply resolve_segments_spec, Hcopy|]. cbv beta.
  intros r s' evs (-> & Hd & Hp & Hst & Hext & Hlen & Hr). simpl_state.
  destruct r as [e|ret]; wp.
  - repeat (split; [assumption || reflexivity|]). exact Hr.
  - repeat (split; [assumption || reflexivity|]). lia.
Qed.

Lemma run_script_spec name lines count ret s :
  (count <= 0 -> files (cat s) = []) ->
  runs (run_script name lines count ret) s (fun r s' evs =>
    evs = [] /\ ctx_duration s' = ctx_duration s /\
    pb_error s' = pb_error s /\ streams s' = streams s /\
    table_extended (ff_make_absolute_url name) (cat s) (cat s') /\
    (if count <=? 0
     then cat s' = context_of (read_script name lines (cat s) None) /\
          (length (files (cat s')) <= length (files (cat s)) + length lines)%nat
     else cat s' = cat s) /\
    match r with
    | inl e => e < 0
    | inr ret' => if count <=? 0 then ret' = 0 else ret' = ret
    end).
Proof.
  intros Hempty. unfold run_script.
  destruct (count <=? 0) eqn:Hcount; wp.
  2:{ repeat (split; [reflexivity|]). split; [apply table_extended_refl|].
      split; reflexivity. }
  apply Z.leb_le in Hcount. specialize (Hempty Hcount).
  pose proof (read_script_extends name lines (cat s) None Hempty) as Hext.
  pose proof (read_script_length name lines (cat s) None) as Hlen.
  destruct (read_script name lines (cat s) None) as [e c'|ret' c' file'];
    cbn [context_of] in Hlen; wp.
  - destruct Hext as (He & Hext).
    do 5 (split; [assumption || reflexivity|]).
    split; [split; [reflexivity | exact Hlen]|]. exact He.
  - destruct Hext as (Hret & Hext & _).
    do 5 (split; [assumption || reflexivity|]).
    split; [split; [reflexivity | exact Hlen]|]. exact Hret.
Qed.

(** [concat_read_header] always returns, and as [header_outcome] says. *)
Lemma concat_read_header_spec name lines stack s :
  unopened s -> resolver_allocates ->
  runs (concat_read_header name lines stack) s
       (header_outcome name lines stack s).
Proof.
  intros (Hfiles0 & Hcur0 & Havf0 & Hseek0 & Herr0) Hcopy.
  assert (Hfail : forall e s2 pre,
    e < 0 ->
    pb_error s2 = pb_error s -> error (cat s2) = 0 ->
    rw_timeout (cat s2) = rw_timeout (cat s) ->
    (safe (cat s2) = safe (cat s) \/ (safe (cat s) < 0 /\ safe (cat s2) = 1)) ->
    warnings pre = [] -> reads pre = [] ->
    closed pre ++ reader_list (avf (cat s2)) = opened pre ->
    (exists made, streams s2 = streams s ++ made) ->
    runs (header_fail e) s2 (fun ret s' evs =>
      header_outcome name lines stack s ret s' (pre ++ evs))).
  { intros e s2 pre He Hp He0 Ht Hs Hw Hr Hbal (made & Hmade).
    eapply runs_weaken; [apply header_fail_spec|]. cbv beta.
    intros ret s' evs (-> & -> & Hcat & _ & Hp' & Hst').
    unfold header_outcome.
    rewrite Hcat. simpl_state. events. rewrite Hw, Hr.
    split; [congruence|]. split; [exact He0|]. split; [exact Ht|].
    split; [exact Hs|].
    split; [destruct (avf (cat s2)); reflexivity|].
    split; [destruct (avf (cat s2)); reflexivity|].
    left. split; [exact He|]. split; [reflexivity|]. split; [reflexivity|].
    split.
    - rewrite <- Hbal. destruct (avf (cat s2)); cbn; rewrite !app_nil_r;
        reflexivity.
    - exists made. congruence. }
  unfold concat_read_header. wp.
  eapply runs_weaken.
  { apply (runs_strengthen _ _ _
             (fun r s1 _ => run_resolver name stack s = Done (r, s1))
             (run_resolver_spec name stack s Hcopy)).
    intros r s1 evs1 Hrun1 _. exact Hrun1. }
  cbv beta.
  intros r s1 evs1 ((-> & Hd1 & Hp1 & Hst1 & Hext1 & Hlen1 & Hr1) & Hrun1).
  pose proof Hext1 as (Hc1 & Ha1 & Hs1 & He1 & Ht1 & Hsafe1 & _ & _).
  rewrite Hfiles0 in Hlen1. cbn [length Nat.add] in Hlen1.
  destruct r as [e|[ret count]].
  { eapply runs_weaken.
    - apply (Hfail e s1 []);
        [exact Hr1 | congruence | congruence | congruence | exact Hsafe1
        | reflexivity | reflexivity | | ].
      + rewrite Ha1, Havf0. reflexivity.
      + exists []. rewrite app_nil_r. exact Hst1.
    - cbv beta. intros ret s' evs H. exact H. }
  wp. eapply runs_weaken.
  { apply (run_script_spec name lines count ret s1).
    intros Hcount. rewrite (Hr1 Hcount). exact Hfiles0. }
  cbv beta.
  intros r s2 evs2 (-> & Hd2 & Hp2 & Hst2 & Hext2 & Hlen2 & Hr2).
  assert (Hext : table_extended (ff_make_absolute_url name) (cat s) (cat s2))
    by (eapply table_extended_trans; eassumption).
  pose proof Hext as (Hc2 & Ha2 & Hs2 & He2 & Ht2 & Hsafe2 & (names & Hnames & Hok) & Hunk).
  assert (Hsize : (length (files (cat s2)) <= length lines + resolver_count s)%nat).
  { destruct (count <=? 0); [lia | rewrite Hlen2; lia]. }
  assert (Hbuilt : built_by name lines stack s (files (cat s2))).
  { exists ret, count, s1. split; [exact Hrun1|].
    destruct (count <=? 0) eqn:Hcount.
    - destruct Hlen2 as (-> & _). apply Z.leb_le in Hcount.
      rewrite (Hr1 Hcount). reflexivity.
    - rewrite Hlen2. reflexivity. }
  assert (Hpre : forall e, e < 0 ->
    runs (header_fail e) s2 (fun b s' evs =>
      header_outcome name lines stack s b s' ([] ++ [] ++ evs))).
  { intros e He. eapply runs_weaken.
    - apply (Hfail e s2 []);
        [exact He | congruence | congruence | congruence | exact Hsafe2
        | reflexivity | reflexivity | | ].
      + rewrite Ha2, Havf0. reflexivity.
      + exists []. rewrite app_nil_r. congruence.
    - cbv beta. intros b s' evs H. exact H. }
  cbn [app] in Hpre.
  destruct r as [e|ret2]; [apply Hpre, Hr2|].
  destruct (ret2 <? 0) eqn:Hneg; [apply Hpre, Z.ltb_lt, Hneg|]. wp.
  unfold nb_files.
  destruct (Z.of_nat (length (files (cat s2))) =? 0) eqn:Hnone;
    [apply Hpre; reflexivity|].
  clear Hpre. apply Z.eqb_neq in Hnone.
  apply runs_bind, runs_modify; [apply read_header_backfill_frame|].
  destruct (read_header_backfill_frame s2)
    as (_ & Hp3 & Hst3 & _ & Hc3 & Ha3 & Hsafe3 & He3 & Ht3 & Hfiles3).
  remember (files (cat s2)) as fs eqn:Hfs.
  assert (Hunknown : starts_unknown fs).
  { apply Hunk. rewrite Hfiles0. constructor. }
  destruct (backfill_spec fs 0 Hunknown)
    as (out & i & time' & Hrun & Hlen & Hi & Hupto & _).
  rewrite Hrun in Hfiles3. cbn [fst] in Hfiles3.
  destruct fs as [|f0 rest]; [cbn in Hnone; lia|].
  assert (Hfirst : out !! 0%nat = Some (with_start_time 0 f0)).
  { apply (Hupto 0%nat f0); [reflexivity | lia]. }
  set (s3 := read_header_backfill s2) in *.
  assert (Hseek3 : if (i =? length (f0 :: rest))%nat
                   then seekable (cat s3) = 1 /\ ctx_duration s3 = time'
                   else seekable (cat s3) = 0 /\ ctx_duration s3 = ctx_duration s).
  { subst s3. unfold read_header_backfill. rewrite <- Hfs, Hrun. rewrite Hlen.
    destruct (i =? length (f0 :: rest))%nat; simpl_state.
    - split; reflexivity.
    - split; congruence. }
  apply runs_bind. eapply runs_weaken.
  { apply (open_file_spec s3 0%nat (with_start_time 0 f0)).
    rewrite Hfiles3. exact Hfirst. }
  cbv beta. intros ret4 s4 evs4 (Hd4 & Hp4 & Hst4 & Hw4 & Hr4 & Hatt4 & Hcases).
  destruct Hcases as [(Hneg4 & Hcat4 & Hclosed4) |
                      (-> & h & Hopened4 & Hclosed4 & Hcat4)].
  { assert (Hlt : (ret4 <? 0) = true) by (apply Z.ltb_lt, Hneg4). rewrite Hlt.
    eapply runs_weaken.
    - apply (Hfail ret4 s4 evs4);
        [exact Hneg4 | congruence | congruence | congruence
        | rewrite Hcat4, Hsafe3; exact Hsafe2 | exact Hw4 | exact Hr4 | | ].
      + rewrite Hcat4, Ha3, Ha2, Havf0. cbn. rewrite app_nil_r. exact Hclosed4.
      + exists []. rewrite app_nil_r. congruence.
    - cbv beta. intros b s' evs H. cbn [app]. exact H. }
  cbn [Z.ltb Z.compare]. wp.
  assert (Havf4 : avf (cat s4) = Some h) by (rewrite Hcat4; reflexivity).
  eapply runs_deref; [exact Havf4|]. wp.
  eapply runs_weaken; [apply copy_streams_spec|]. cbv beta.
  intros ret5 s5 evs5 (-> & Hcat5 & Hd5 & Hp5 & Hw5 & Hres5).
  cbn [app].
  assert (Hinstalled : cat s4 = with_cur_file (Some 0%nat) (with_avf (Some h) (cat s3))).
  { rewrite Hcat4. unfold installed, start_time_after_open.
    cbn [start_time with_start_time]. change (0 =? AV_NOPTS_VALUE) with false.
    cbv iota. rewrite Hfiles3.
    replace (with_start_time 0 (with_start_time 0 f0)) with (with_start_time 0 f0)
      by reflexivity.
    rewrite (list_insert_id _ _ _ Hfirst).
    destruct (cat s3); cbn in *. subst. reflexivity. }
  rewrite Ha3, Ha2, Havf0 in Hclosed4. cbn [reader_list] in Hclosed4.
  destruct Hres5 as [(-> & Hst5) | (Hneg5 & made & Hst5)].
  - cbn [Z.ltb Z.compare]. wp. rewrite !app_nil_r.
    unfold header_outcome.
    rewrite Hcat5, Hinstalled. simpl_state.
    split; [congruence|]. split; [congruence|]. split; [congruence|].
    split; [rewrite Hsafe3; exact Hsafe2|].
    split; [exact Hw4|]. split; [exact Hr4|].
    right. split; [reflexivity|]. exists h, (f0 :: rest).
    split; [exact Hbuilt|].
    split; [exact Hunknown|]. split; [discriminate|].
    split; [exact Hsize|]. split.
    { exists names. rewrite Hfiles0 in Hnames. cbn in Hnames. auto. }
    rewrite Hrun. cbn [fst snd].
    split; [exact Hfiles3|]. split; [reflexivity|]. split; [reflexivity|].
    split.
    { destruct (i =? length (f0 :: rest))%nat; destruct Hseek3; split; congruence. }
    split; [exact Hopened4|]. split; [exact Hclosed4|]. split; [exact Hatt4|].
    rewrite Hst5, Hw5. congruence.
  - assert (Hlt : (ret5 <? 0) = true) by (apply Z.ltb_lt, Hneg5). rewrite Hlt.
    eapply runs_weaken.
    + apply (Hfail ret5 s5 evs4);
        [exact Hneg5 | congruence | | | | exact Hw4 | exact Hr4 | | ].
      * rewrite Hcat5, Hinstalled. simpl_state. congruence.
      * rewrite Hcat5, Hinstalled. simpl_state. congruence.
      * rewrite Hcat5, Hinstalled. simpl_state. rewrite Hsafe3. exact Hsafe2.
      * rewrite Hcat5, Havf4, Hclosed4, Hopened4. reflexivity.
      * exists made. congruence.
    + cbv beta. intros b s' evs H. exact H.
Qed.

(** The table the resolver loop builds, when it comes to its end. *)
Lemma resolve_segments_table name n : forall i ret s r s',
  resolve_segments name n i ret s = Done (inr r, s') ->
  files (cat s') = files (cat s) ++ resolved_files name (resolved n i (world s)).
Proof.
  induction n as [|n IH]; intros i ret s r s' Hrun;
    cbn [resolve_segments resolved] in *.
  { injection Hrun as _ <-. cbn. rewrite app_nil_r. reflexivity. }
  apply bind_done in Hrun as ([[cb_ret fsc_url] fsc_duration] & s1 & Hask & Hrun).
  unfold ask in Hask.
  destruct (resolve_segment_offline i (world s)) as [[[cb_ret0 url0] d0] w].
  injection Hask as <- <- <- <-.
  assert (Hskip : forall ret',
    resolve_segments name n (i + 1) ret' (with_world w s) = Done (inr r, s') ->
    files (cat s') = files (cat s) ++ resolved_files name (resolved n (i + 1) w)).
  { intros ret' Hrest. apply IH in Hrest. exact Hrest. }
  destruct url0 as [u|]; [|eapply Hskip; exact Hrun].
  destruct (cb_ret0 =? 0); [|eapply Hskip; exact Hrun].
  apply bind_done in Hrun as (copied & s2 & [= <- <-] & Hrun).
  destruct (av_strdup u w); cbn [negb] in Hrun; [|discriminate Hrun].
  apply bind_done in Hrun as (c & s2 & [= <- <-] & Hrun). simpl_state.
  pose proof (add_file_extends (ff_make_absolute_url name) u (cat s)) as Hadd.
  change (cat (with_world w s)) with (cat s) in Hrun.
  destruct (add_file (ff_make_absolute_url name) u (cat s)) as [e|c'];
    [discriminate|].
  destruct Hadd as (_ & Hfiles & _).
  apply bind_done in Hrun as ([] & s2 & [= <-] & Hrun).
  apply IH in Hrun. rewrite Hrun. simpl_state.
  unfold set_duration. cbn [files with_files]. rewrite Hfiles.
  replace (length (files (cat s))) with (length (files (cat s)) + 0)%nat by lia.
  rewrite alter_app_r. cbn [alter list_alter resolved_files map fst snd].
  rewrite <- app_assoc. reflexivity.
Qed.

(** The table and the count the resolver part leaves, when the header goes
    on behind it. *)
Lemma run_resolver_table name stack s cb cb_ret count w ret count' s1 :
  control_message_cb = Some cb ->
  resolve_segment_concat (world s) = (cb_ret, count, w) ->
  run_resolver name stack s = Done (inr (ret, count'), s1) ->
  count' = count /\
  files (cat s1) = files (cat s) ++
    (if cb_ret =? 0 then resolved_files name (resolved (Z.to_nat count) 0 w)
     else []).
Proof.
  intros Hcb Hask Hrun. unfold run_resolver in Hrun. rewrite Hcb in Hrun.
  apply bind_done in Hrun as ([cb_ret0 count0] & s0 & Hask0 & Hrun).
  unfold ask in Hask0. rewrite Hask in Hask0. injection Hask0 as <- <- <-.
  destruct (cb_ret =? 0).
  - apply bind_done in Hrun as ([e|ret0] & s2 & Hloop & Hrun);
      [discriminate|].
    injection Hrun as _ <- <-. split; [reflexivity|].
    apply resolve_segments_table in Hloop. exact Hloop.
  - injection Hrun as _ <- <-. split; [reflexivity|].
    cbn. rewrite app_nil_r. reflexivity.
Qed.

Lemma backfill_first fs :
  starts_unknown fs -> fs <> [] ->
  length (fst (fst (backfill fs 0))) = length fs /\
  exists f0, fst (fst (backfill fs 0)) !! 0%nat = Some f0 /\ start_time f0 = 0.
Proof.
  intros Hunknown Hsome.
  destruct (backfill_spec fs 0 Hunknown)
    as (out & i & time' & Hrun & Hlen & Hi & Hupto & _).
  rewrite Hrun. cbn [fst]. split; [exact Hlen|].
  destruct fs as [|f0 rest]; [contradiction|].
  exists (with_start_time 0 f0). split; [|reflexivity].
  apply (Hupto 0%nat f0); [reflexivity | lia].
Qed.

(** X12.  Unless the resolver loop runs out of memory for the copy of a
    locator, [concat_read_header], entered with a demuxer that was just
    allocated, always returns, and all or nothing: with 0, segment 0 active
    on the one reader it opened, no reader closed; or with a negative code,
    the table released, no reader installed, and every reader it opened
    closed again.  It reads no packet, leaves the sticky error clear and
    does not touch [avf->pb->error]. *)
Theorem concat_read_header_all_or_nothing name lines stack s :
  unopened s -> resolver_allocates ->
  runs (concat_read_header name lines stack) s (fun ret s' evs =>
    reads evs = [] /\ error (cat s') = 0 /\ pb_error s' = pb_error s /\
    ((ret = 0 /\ exists h,
        ready s' 0 h /\ opened evs = [h] /\ closed evs = []) \/
     (ret < 0 /\ files (cat s') = [] /\ avf (cat s') = None /\
      closed evs = opened evs))).
Proof.
  intros Hfresh Hcopy.
  eapply runs_weaken; [apply concat_read_header_spec; assumption|]. cbv beta.
  intros ret s' evs (Hp & He & _ & _ & _ & Hr & Hcases).
  repeat (split; [assumption|]).
  destruct Hcases as [(Hneg & Hfiles & Havf & Hbal & _) |
                      (-> & h & fs & _ & Hunk & Hsome & _ & _ & Hfiles & Hcur
                       & Havf & _ & Hop & Hcl & _)].
  - right. auto.
  - left. split; [reflexivity|]. exists h.
    split; [|auto]. unfold ready. split; [exact Hcur|]. split; [exact Havf|].
    rewrite Hfiles. destruct (backfill_first fs Hunk Hsome) as (-> & _).
    destruct fs; [contradiction | cbn; lia].
Qed.

(** X13.  When [concat_read_header] returns 0, the table is the one its
    pass over the starts made of the table [fs] that had been built, and
    [fs] is what the script or the resolver says.  Without a callback, and
    with one that left a count that is not positive, [fs] is what the
    script loop makes of the lines, from the empty table.  With a callback
    that left a positive count, the callback had answered 0 and [fs] holds,
    in order, one descriptor for each position below the count for which it
    answered 0 with a locator: the locator made absolute, the duration it
    gave.  [fs] has a descriptor and none of its starts is known (what the
    pass is specified for), and [open_file(avf, 0)] and the stream loop
    change neither the table nor [seekable] nor [avf->duration] afterwards.
    The first segment starts at 0, and the demuxer has got one stream for
    each stream of the first reader, in order, with the reader's time
    bases. *)
Theorem concat_read_header_keeps_pass name lines stack s :
  unopened s -> resolver_allocates ->
  runs (concat_read_header name lines stack) s (fun ret s' evs =>
    ret = 0 ->
    exists h fs,
      let built := with_cat (with_files fs (cat s)) s in
      built_by name lines stack s fs /\
      (control_message_cb = None ->
       fs = files (context_of (read_script name lines (cat s) None))) /\
      (forall cb cb_ret count w,
         control_message_cb = Some cb ->
         resolve_segment_concat (world s) = (cb_ret, count, w) ->
         (count <= 0 ->
          fs = files (context_of (read_script name lines (cat s) None))) /\
         (0 < count ->
          cb_ret = 0 /\
          fs = resolved_files name (resolved (Z.to_nat count) 0 w))) /\
      starts_unknown (files (cat built)) /\ fs <> [] /\
      files (cat s') = files (cat (read_header_backfill built)) /\
      seekable (cat s') = seekable (cat (read_header_backfill built)) /\
      ctx_duration s' = ctx_duration (read_header_backfill built) /\
      (exists f0, files (cat s') !! 0%nat = Some f0 /\ start_time f0 = 0) /\
      avf (cat s') = Some h /\
      streams s' = streams s ++
        map (fun k => reader_time_base h (Z.of_nat k) (world s'))
            (seq 0 (Z.to_nat (reader_nb_streams h (world s'))))).
Proof.
  intros Hfresh Hcopy.
  eapply runs_weaken; [apply concat_read_header_spec; assumption|]. cbv beta.
  intros ret s' evs (_ & _ & _ & _ & _ & _ & Hcases) ->.
  destruct Hcases as [(Hneg & _) |
                      (_ & h & fs & Hbuilt & Hunk & Hsome & _ & _ & Hfiles & _
                       & Havf & Hseek & _ & _ & _ & Hst)]; [lia|].
  destruct Hfresh as (Hfiles0 & _ & _ & Hseek0 & _).
  exists h, fs. cbv zeta. simpl_state.
  split; [exact Hbuilt|]. split.
  { intros Hcb. destruct Hbuilt as (ret0 & count & s1 & Hrun & ->).
    unfold run_resolver in Hrun. rewrite Hcb in Hrun.
    injection Hrun as _ <- <-.
    destruct (uninit_count stack <=? 0); [reflexivity|].
    exfalso. apply Hsome. exact Hfiles0. }
  split.
  { intros cb cb_ret count w Hcb Hask.
    destruct Hbuilt as (ret0 & count' & s1 & Hrun & Hfs).
    destruct (run_resolver_table _ _ _ _ _ _ _ _ _ _ Hcb Hask Hrun)
      as (-> & Htable).
    rewrite Hfiles0 in Htable. cbn [app] in Htable. split.
    - intros Hcount. apply Z.leb_le in Hcount. rewrite Hcount in Hfs.
      exact Hfs.
    - intros Hcount. apply Z.leb_gt in Hcount. rewrite Hcount in Hfs.
      rewrite Htable in Hfs. destruct (cb_ret =? 0) eqn:Hret.
      + split; [apply Z.eqb_eq, Hret | exact Hfs].
      + contradiction. }
  split; [exact Hunk|]. split; [exact Hsome|].
  destruct (backfill_first fs Hunk Hsome) as (Hlen & Hfirst).
  unfold read_header_backfill. simpl_state.
  destruct (backfill fs 0) as [[out i] time'] eqn:Hrun. cbn [fst snd] in *.
  rewrite Hlen.
  destruct (i =? length fs)%nat; simpl_state.
  - destruct Hseek as (Hs & Hd).
    repeat (split; [assumption || reflexivity|]).
    split; [rewrite Hfiles; exact Hfirst|]. split; assumption.
  - destruct Hseek as (Hs & Hd).
    split; [exact Hfiles|]. split; [congruence|]. split; [exact Hd|].
    split; [rewrite Hfiles; exact Hfirst|]. split; assumption.
Qed.

Lemma read_script_no_file name lines : forall c,
  Forall (fun buf => fst (get_keyword buf) <> "file"%string) lines ->
  match read_script name lines c None with
  | Failed e c' => e = AVERROR_INVALIDDATA /\ files c' = files c
  | Parsed ret c' file' => ret = 0 /\ files c' = files c /\ file' = None
  end.
Proof.
  induction lines as [|buf rest IH]; intros c Hlines; cbn [read_script].
  { auto. }
  apply Forall_cons in Hlines as [Hbuf Hrest].
  destruct (Z.of_nat (String.length buf) <=? 0) eqn:Hend.
  { apply Z.leb_le in Hend. split; [lia | auto]. }
  assert (Hline : script_line name buf c None = Failed AVERROR_INVALIDDATA c \/
                  exists ret c', script_line name buf c None = Parsed ret c' None /\
                                 files c' = files c).
  { unfold script_line. destruct (get_keyword buf) as [keyword cursor].
    cbn [fst] in Hbuf. apply String.eqb_neq in Hbuf. rewrite Hbuf.
    destruct (skipped keyword); [right; eauto|].
    destruct (String.eqb keyword "duration").
    { destruct (get_keyword cursor). left. reflexivity. }
    destruct (String.eqb keyword "ffconcat"); [|left; reflexivity].
    destruct (get_keyword cursor) as [ver_kw cursor'].
    destruct (get_keyword cursor') as [ver_val ?].
    destruct (_ || _); [left; reflexivity|]. right.
    destruct (safe c <? 0); eauto. }
  destruct Hline as [-> | (ret & c' & -> & Hsame)]; [auto|].
  specialize (IH c' Hrest). rewrite Hsame in IH. exact IH.
Qed.

(** X14.  A script without a [file] line never opens anything: whatever
    else it holds, and whatever [ret] held before the loop, the header fails
    with AVERROR_INVALIDDATA, for the first line that is wrong or for the
    empty table, without a single call to a reader. *)
Theorem header_without_file_line_fails name lines stack s :
  unopened s -> control_message_cb = None -> uninit_count stack <= 0 ->
  Forall (fun buf => fst (get_keyword buf) <> "file"%string) lines ->
  runs (concat_read_header name lines stack) s (fun ret s' evs =>
    ret = AVERROR_INVALIDDATA /\ evs = [] /\ files (cat s') = []).
Proof.
  intros (Hfiles0 & _ & Havf0 & _) Hcb Hcount Hlines.
  assert (Hfail : forall s2,
    avf (cat s2) = None ->
    runs (header_fail AVERROR_INVALIDDATA) s2 (fun ret s' evs =>
      ret = AVERROR_INVALIDDATA /\ [] ++ [] ++ evs = [] /\ files (cat s') = [])).
  { intros s2 Havf2. eapply runs_weaken; [apply header_fail_spec|]. cbv beta.
    intros ret s' evs (-> & -> & -> & _). rewrite Havf2. repeat split. }
  unfold concat_read_header, run_resolver. rewrite Hcb. wp.
  unfold run_script.
  assert (Hle : (uninit_count stack <=? 0) = true) by (apply Z.leb_le, Hcount).
  rewrite Hle. wp.
  pose proof (read_script_no_file name lines (cat s) Hlines) as Hscript.
  pose proof (read_script_extends name lines (cat s) None Hfiles0) as Hext.
  destruct (read_script name lines (cat s) None) as [e c'|ret c' file']; wp.
  - destruct Hscript as (-> & Hsame). destruct Hext as (_ & _ & Ha & _).
    apply Hfail. simpl_state. congruence.
  - destruct Hscript as (-> & Hsame & _). destruct Hext as (_ & (_ & Ha & _) & _).
    cbn [Z.ltb Z.compare]. wp. unfold nb_files. simpl_state.
    rewrite Hsame, Hfiles0. cbn [length Z.of_nat Z.eqb].
    eapply runs_weaken; [apply Hfail; simpl_state; congruence|].
    cbv beta. intros ret s' evs H. exact H.
Qed.

Lemma bind_same_start {A B} (m : M A) (k k' : A -> M B) s :
  (forall a s1, m s = Done (a, s1) -> k a s1 = k' a s1) ->
  bind m k s = bind m k' s.
Proof.
  intros Hsame. unfold bind.
  destruct (m s) as [[a s1]| |]; [apply Hsame|..]; reflexivity.
Qed.

Lemma run_resolver_count name stack s cb cb_ret count w ret count' s1 :
  control_message_cb = Some cb ->
  resolve_segment_concat (world s) = (cb_ret, count, w) ->
  run_resolver name stack s = Done (inr (ret, count'), s1) ->
  count' = count.
Proof.
  intros Hcb Hask. unfold run_resolver. rewrite Hcb.
  unfold bind at 1. unfold ask. rewrite Hask.
  destruct (cb_ret =? 0); [|intros [= _ <- _]; reflexivity].
  unfold bind.
  destruct (resolve_segments name (Z.to_nat count) 0 (uninit_ret stack)
              (with_world w s)) as [[[e|r] s']| |];
    [discriminate | | discriminate | discriminate].
  intros [= _ <- _]. reflexivity.
Qed.

(** X15.  Once the resolver callback has reported segments, a positive
    [fsc_cat.count], the script is never read: the header does the same
    whatever the script holds, a script that could not be parsed
    included. *)
Theorem resolver_segments_replace_script name lines lines' stack s
    cb cb_ret count w :
  control_message_cb = Some cb ->
  resolve_segment_concat (world s) = (cb_ret, count, w) ->
  0 < count ->
  concat_read_header name lines stack s = concat_read_header name lines' stack s.
Proof.
  intros Hcb Hask Hcount. unfold concat_read_header.
  apply bind_same_start. intros [e|[ret count']] s1 Hrun; [reflexivity|].
  rewrite (run_resolver_count _ _ _ _ _ _ _ _ _ _ Hcb Hask Hrun).
  unfold run_script.
  assert (Hgt : (count <=? 0) = false) by (apply Z.leb_gt, Hcount).
  rewrite Hgt. reflexivity.
Qed.

(** X27.  The copy [av_strdup] makes of a resolved locator is passed on
    unchecked.  When the callback has reported segments and answers for
    the first of them with a locator that cannot be copied, the header
    does not fail with a code: [add_file] reads through the null pointer
    it is given, and nothing is defined from there on. *)
Theorem resolver_strdup_failure_crashes name lines stack s
    cb count w u d w1 :
  control_message_cb = Some cb ->
  resolve_segment_concat (world s) = (0, count, w) ->
  0 < count ->
  resolve_segment_offline 0 w = (0, Some u, d, w1) ->
  av_strdup u w1 = false ->
  concat_read_header name lines stack s = Undefined.
Proof.
  intros Hcb Hask Hcount Hoff Hdup.
  unfold concat_read_header, run_resolver. rewrite Hcb.
  unfold bind at 1. unfold bind at 1. unfold ask at 1. rewrite Hask.
  cbn [Z.eqb]. unfold bind at 1.
  destruct (Z.to_nat count) as [|n] eqn:Hn; [lia|].
  cbn [resolve_segments]. unfold bind at 1. unfold ask at 1.
  simpl_state. rewrite Hoff. cbn [Z.eqb].
  unfold bind at 1. unfold gets at 1. simpl_state. rewrite Hdup.
  reflexivity.
Qed.

(** X16.  Without a callback nothing ever writes [fsc_cat.count] and
    [ret] before the script loop tests the one and, if the loop is skipped,
    the code after it tests the other.  Should the count the loop finds be
    positive, the script is not read at all: the header fails, with what
    [ret] held if that was negative and with AVERROR_INVALIDDATA for the
    empty table otherwise, however good the script is. *)
Theorem uninitialised_count_skips_script name lines stack s :
  unopened s -> control_message_cb = None -> 0 < uninit_count stack ->
  runs (concat_read_header name lines stack) s (fun ret s' evs =>
    ret = (if uninit_ret stack <? 0 then uninit_ret stack
           else AVERROR_INVALIDDATA) /\
    evs = [] /\ files (cat s') = []).
Proof.
  intros (Hfiles0 & _ & Havf0 & _) Hcb Hcount.
  assert (Hfail : forall e,
    runs (header_fail e) s (fun ret s' evs =>
      ret = e /\ [] ++ [] ++ evs = [] /\ files (cat s') = [])).
  { intros e. eapply runs_weaken; [apply header_fail_spec|]. cbv beta.
    intros ret s' evs (-> & -> & -> & _). rewrite Havf0. repeat split. }
  unfold concat_read_header, run_resolver. rewrite Hcb. wp.
  unfold run_script.
  assert (Hgt : (uninit_count stack <=? 0) = false) by (apply Z.leb_gt, Hcount).
  rewrite Hgt. wp.
  destruct (uninit_ret stack <? 0); [apply Hfail|]. wp.
  unfold nb_files. rewrite Hfiles0. cbn [length Z.of_nat Z.eqb].
  eapply runs_weaken; [apply Hfail|]. cbv beta. intros ret s' evs H. exact H.
Qed.

End HeaderRun.

Section Steady.

Context {World : Type} {lib : LibAV World}.

Local Abbreviation M := (StateM (State World)).
Implicit Types (s : State World) (c : ConcatContext) (evs : list Event).
Implicit Types (fs : list ConcatFile).

Lemma table_kept_refl fs : table_kept fs fs.
Proof. split; [reflexivity|]. intros k f Hk. exists f. auto. Qed.

Lemma table_kept_trans fs1 fs2 fs3 :
  table_kept fs1 fs2 -> table_kept fs2 fs3 -> table_kept fs1 fs3.
Proof.
  intros (Hlen1 & H1) (Hlen2 & H2). split; [congruence|].
  intros k f Hk.
  destruct (H1 k f Hk) as (f' & Hk' & Hu & Hs & Hd).
  destruct (H2 k f' Hk') as (f'' & Hk'' & Hu' & Hs' & Hd').
  exists f''. split; [exact Hk''|]. split; [congruence|].
  split; intros Hknown.
  - rewrite <- (Hs Hknown). apply Hs'. rewrite (Hs Hknown). exact Hknown.
  - rewrite <- (Hd Hknown). apply Hd'. rewrite (Hd Hknown). exact Hknown.
Qed.

Lemma table_kept_insert fs k f f' :
  fs !! k = Some f -> url f' = url f ->
  (start_time f <> AV_NOPTS_VALUE -> start_time f' = start_time f) ->
  (duration f <> AV_NOPTS_VALUE -> duration f' = duration f) ->
  table_kept fs (<[k := f']> fs).
Proof.
  intros Hk Hu Hs Hd. split; [apply length_insert|].
  intros j g Hj. destruct (decide (j = k)) as [->|Hne].
  - exists f'. rewrite list_lookup_insert_eq by (eapply lookup_lt_Some; eassumption).
    assert (g = f) as -> by congruence. auto.
  - exists g. rewrite list_lookup_insert_ne by congruence. auto.
Qed.

Lemma accounted_trans s1 s2 s3 evs1 evs2 :
  accounted s1 s2 evs1 -> accounted s2 s3 evs2 ->
  accounted s1 s3 (evs1 ++ evs2).
Proof.
  unfold accounted. intros H1 H2. events.
  rewrite (Permutation_app_comm (closed evs1)), app_assoc, H2.
  rewrite <- app_assoc, (Permutation_app_comm (opened evs2)), app_assoc, H1.
  rewrite <- app_assoc. reflexivity.
Qed.

Lemma steady_refl s : steady s s.
Proof.
  split; [apply table_kept_refl|]. exists []. rewrite app_nil_r.
  split; [reflexivity|]. unfold accounted. reflexivity.
Qed.

Lemma steady_trans s1 s2 s3 : steady s1 s2 -> steady s2 s3 -> steady s1 s3.
Proof.
  intros (Ht1 & evs1 & Hh1 & Hb1) (Ht2 & evs2 & Hh2 & Hb2).
  split; [eapply table_kept_trans; eassumption|].
  exists (evs1 ++ evs2). rewrite Hh2, Hh1, app_assoc.
  split; [reflexivity|]. eapply accounted_trans; eassumption.
Qed.

(** A step that leaves [files] and [avf] alone and neither opens nor
    closes. *)
Lemma steady_quiet s s' evs :
  files (cat s') = files (cat s) -> avf (cat s') = avf (cat s) ->
  history s' = history s ++ evs -> opened evs = [] -> closed evs = [] ->
  steady s s'.
Proof.
  intros Hf Ha Hh Ho Hc. split; [rewrite Hf; apply table_kept_refl|].
  exists evs. split; [exact Hh|]. unfold accounted. rewrite Ha, Ho, Hc.
  reflexivity.
Qed.

Lemma runs_keeps {A} (m : M A) s Q :
  runs m s Q -> keeps (World := World) steady m ->
  runs m s (fun a s' evs =>
    Q a s' evs /\ table_kept (files (cat s)) (files (cat s')) /\
    accounted s s' evs).
Proof.
  intros (a & s' & evs & Hm & Hh & HQ) Hkeeps.
  destruct (Hkeeps s a s' Hm) as (Ht & evs' & Hh' & Hb).
  assert (evs' = evs) as -> by (rewrite Hh in Hh'; eapply app_inv_head; eauto).
  exists a, s', evs. auto.
Qed.

Lemma keeps_bind {A B} (m : M A) (k : A -> M B) :
  keeps (World := World) steady m -> (forall a, keeps (World := World) steady (k a)) -> keeps (World := World) steady (bind m k).
Proof.
  intros Hm Hk s b s' Hrun.
  apply bind_done in Hrun as (a & s1 & Hrun1 & Hrun2).
  eapply steady_trans; [eapply Hm | eapply Hk]; eassumption.
Qed.

Lemma keeps_pure {A} (a : A) : keeps (World := World) steady (pure a : M A).
Proof. intros s a' s' [= _ <-]. apply steady_refl. Qed.

Lemma keeps_gets {A} (f : State World -> A) : keeps (World := World) steady (gets f).
Proof. intros s a' s' [= _ <-]. apply steady_refl. Qed.

Lemma keeps_deref {A} (o : option A) : keeps (World := World) steady (deref o : M A).
Proof.
  destruct o; intros s a' s' Hrun; [|discriminate].
  injection Hrun as _ <-. apply steady_refl.
Qed.

Lemma keeps_lift_result {A} (r : result A) :
  keeps (World := World) steady (lift_result r : M A).
Proof.
  destruct r as [a| |]; intros s a' s' Hrun; try discriminate.
  injection Hrun as _ <-. apply steady_refl.
Qed.

Lemma keeps_out_of_fuel {A} : keeps (World := World) steady (out_of_fuel : M A).
Proof. intros s a s' Hrun. discriminate. Qed.

Lemma keeps_modify_cat (f : ConcatContext -> ConcatContext) :
  (forall c, files (f c) = files c /\ avf (f c) = avf c) ->
  keeps (World := World) steady (modify_cat f).
Proof.
  intros Hf s u s' [= _ <-]. destruct (Hf (cat s)) as (Hfiles & Havf).
  apply (steady_quiet _ _ []); simpl_state;
    [exact Hfiles | exact Havf | symmetry; apply app_nil_r | reflexivity..].
Qed.

Lemma keeps_emit_warning n : keeps (World := World) steady (emit (LogOpenNextFailed n)).
Proof.
  intros s u s' [= _ <-].
  apply (steady_quiet _ _ [LogOpenNextFailed n]); reflexivity.
Qed.

Lemma keeps_set_pb_error ret : keeps (World := World) steady (set_pb_error ret).
Proof.
  intros s u s' Hrun.
  destruct (runs_done _ _ _ _ _ (runs_set_pb_error ret s (fun _ s1 evs1 =>
              s1 = with_pb_error (pb_error_after ret (pb_error s)) s /\ evs1 = [])
              (conj eq_refl eq_refl)) Hrun) as (evs & Hh & -> & ->).
  apply (steady_quiet _ _ []); reflexivity || (symmetry; apply app_nil_r).
Qed.

Lemma keeps_call_read_frame h pkt : keeps (World := World) steady (call_read_frame h pkt).
Proof.
  intros s r s' Hrun. unfold call_read_frame in Hrun.
  destruct (av_read_frame h pkt (world s)) as [[ret pkt'] w].
  injection Hrun as _ <-.
  apply (steady_quiet _ _ [CallReadFrame h ret pkt']); reflexivity.
Qed.

Lemma keeps_call_seek_file h stream min_ts ts max_ts flags :
  keeps (World := World) steady (call_seek_file h stream min_ts ts max_ts flags).
Proof.
  intros s r s' Hrun. unfold call_seek_file in Hrun.
  destruct (avformat_seek_file h stream min_ts ts max_ts flags (world s))
    as [ret w].
  injection Hrun as _ <-.
  apply (steady_quiet _ _ [CallSeekFile h stream min_ts ts max_ts flags ret]);
    reflexivity.
Qed.

(** [open_file], whenever it returns: on failure nothing has changed and
    the reader it opened is closed; on success descriptor [fileno] has got
    its start if that was unknown, and the new reader has taken the place
    of the old one, which is closed. *)
Lemma keeps_open_file fileno : keeps (World := World) steady (open_file fileno).
Proof.
  intros s ret s' Hrun.
  destruct (files (cat s) !! fileno) as [file|] eqn:Hfile.
  2:{ unfold open_file, bind, gets, deref in Hrun. rewrite Hfile in Hrun.
      discriminate. }
  destruct (runs_done _ _ _ _ _ (open_file_spec s fileno file Hfile) Hrun)
    as (evs & Hh & _ & _ & _ & _ & _ & _ & Hcases).
  destruct Hcases as [(_ & Hcat & Hbal) | (_ & h & Hop & Hcl & Hcat)].
  - split; [rewrite Hcat; apply table_kept_refl|].
    exists evs. split; [exact Hh|]. unfold accounted. rewrite Hcat, Hbal.
    reflexivity.
  - split.
    + rewrite Hcat. unfold installed. simpl_state.
      apply (table_kept_insert _ _ file); [exact Hfile | reflexivity | |reflexivity].
      intros Hknown. cbn [start_time with_start_time].
      unfold start_time_after_open. apply Z.eqb_neq in Hknown.
      rewrite Hknown. reflexivity.
    + exists evs. split; [exact Hh|]. unfold accounted.
      rewrite Hcat, Hop, Hcl. unfold installed. simpl_state.
      cbn [reader_list]. apply Permutation_app_comm.
Qed.

Lemma keeps_open_next_file : keeps (World := World) steady open_next_file.
Proof.
  intros s ret s' Hrun. unfold open_next_file in Hrun.
  apply bind_done in Hrun as (c & s0 & [= <- <-] & Hrun).
  apply bind_done in Hrun as (fileno & s0 & Hcur & Hrun).
  destruct (cur_file (cat s)) as [i|]; [|discriminate].
  injection Hcur as <- <-.
  apply bind_done in Hrun as (file & s0 & Hfile & Hrun).
  destruct (files (cat s) !! i) as [f|] eqn:Hf; [|discriminate].
  injection Hfile as <- <-.
  apply bind_done in Hrun as (u & s1 & Hdur & Hrun).
  assert (Hstep : steady s s1).
  { destruct (duration f =? AV_NOPTS_VALUE) eqn:Hunknown.
    - apply bind_done in Hdur as (h & s0 & Hh & Hdur).
      destruct (avf (cat s)); [|discriminate]. injection Hh as <- <-.
      apply bind_done in Hdur as (d & s0 & [= <- <-] & Hdur).
      injection Hdur as _ <-.
      split.
      + simpl_state.
        apply (table_kept_insert _ _ f); [exact Hf | reflexivity | reflexivity|].
        apply Z.eqb_eq in Hunknown. intros Hknown. contradiction.
      + exists []. simpl_state. rewrite app_nil_r. split; [reflexivity|].
        unfold accounted. simpl_state. reflexivity.
    - injection Hdur as _ <-. apply steady_refl. }
  eapply steady_trans; [exact Hstep|].
  destruct (length (files (cat s)) <=? S i)%nat.
  - injection Hrun as _ <-. apply steady_refl.
  - eapply keeps_open_file. exact Hrun.
Qed.

Lemma keeps_read_loop fuel : forall try_counter pkt,
  keeps (World := World) steady (read_loop fuel try_counter pkt).
Proof.
  induction fuel as [|fuel IH]; intros tc pkt; cbn [read_loop].
  { apply keeps_out_of_fuel. }
  apply keeps_bind; [apply keeps_gets|]. intros c.
  apply keeps_bind; [apply keeps_deref|]. intros h.
  apply keeps_bind; [apply keeps_call_read_frame|]. intros [ret pkt'].
  destruct (negb (ret =? AVERROR_EOF)); [apply keeps_pure|].
  apply keeps_bind; [apply keeps_open_next_file|]. intros ret1.
  destruct (ret1 <? 0); [|apply IH].
  destruct (tc + 1 >? CONCAT_MAX_OPEN_TRY).
  - apply keeps_bind; [apply keeps_modify_cat; intros c'; split; reflexivity|].
    intros _. apply keeps_bind; [apply keeps_set_pb_error|].
    intros _. apply keeps_pure.
  - apply keeps_bind; [apply keeps_emit_warning|]. intros _. apply IH.
Qed.

Lemma keeps_concat_read_packet pkt : keeps (World := World) steady (concat_read_packet pkt).
Proof.
  unfold concat_read_packet.
  apply keeps_bind; [apply keeps_gets|]. intros c.
  destruct (negb (error c =? 0)); [apply keeps_pure|].
  apply keeps_bind; [apply keeps_read_loop|]. intros [ret raw|ret raw];
    [|apply keeps_pure].
  destruct (ret <? 0); [apply keeps_pure|].
  apply keeps_bind; [apply keeps_gets|]. intros c'.
  apply keeps_bind; [apply keeps_deref|]. intros fileno.
  apply keeps_bind; [apply keeps_deref|]. intros file.
  apply keeps_bind; [apply keeps_deref|]. intros h.
  apply keeps_bind; [apply keeps_gets|]. intros reader_start.
  apply keeps_bind; [apply keeps_gets|]. intros time_base.
  apply keeps_pure.
Qed.

Lemma keeps_try_seek stream min_ts ts max_ts flags :
  keeps (World := World) steady (try_seek stream min_ts ts max_ts flags).
Proof.
  unfold try_seek.
  apply keeps_bind; [apply keeps_gets|]. intros c.
  apply keeps_bind; [apply keeps_deref|]. intros fileno.
  apply keeps_bind; [apply keeps_deref|]. intros file.
  apply keeps_bind; [apply keeps_deref|]. intros h.
  apply keeps_bind; [apply keeps_gets|]. intros reader_start.
  destruct (stream >=? 0); [|apply keeps_call_seek_file].
  apply keeps_bind; [apply keeps_gets|]. intros nb_streams.
  destruct (stream >=? nb_streams); [apply keeps_pure|].
  apply keeps_bind; [apply keeps_gets|]. intros time_base.
  destruct (rescale_interval _ _ _ _ _) as [[a b] d].
  apply keeps_call_seek_file.
Qed.

Lemma keeps_seek_from left stream min_ts ts max_ts flags :
  keeps (World := World) steady (seek_from left stream min_ts ts max_ts flags).
Proof.
  unfold seek_from.
  apply keeps_bind; [apply keeps_open_file|]. intros ret.
  destruct (ret <? 0); [apply keeps_pure|].
  apply keeps_bind; [apply keeps_try_seek|]. intros ret'.
  apply keeps_bind; [apply keeps_gets|]. intros c.
  apply keeps_bind.
  { destruct (_ && _); [|apply keeps_pure].
    apply keeps_bind; [apply keeps_deref|]. intros next. apply keeps_pure. }
  intros [|]; [|apply keeps_pure].
  apply keeps_bind; [apply keeps_open_file|]. intros ret2.
  destruct (ret2 <? 0); [apply keeps_pure | apply keeps_try_seek].
Qed.

Lemma keeps_real_seek stream min_ts ts max_ts flags :
  keeps (World := World) steady (real_seek stream min_ts ts max_ts flags).
Proof.
  unfold real_seek.
  apply keeps_bind; [apply keeps_gets|]. intros st.
  destruct (_ && _); [apply keeps_pure|].
  apply keeps_bind.
  { destruct (stream >=? 0); [|apply keeps_pure].
    apply keeps_bind; [apply keeps_deref|]. intros tb. apply keeps_pure. }
  intros [[a b] d].
  apply keeps_bind; [apply keeps_gets|]. intros c.
  apply keeps_bind; [apply keeps_lift_result|]. intros left.
  apply keeps_seek_from.
Qed.

Lemma close_input_done (p : option Reader) s u s' :
  call_close_input p s = Done (u, s') ->
  cat s' = cat s /\
  history s' = history s ++ match p with Some h => [CallCloseInput h] | None => [] end.
Proof.
  destruct p as [h|]; intros [= _ <-]; simpl_state.
  - split; reflexivity.
  - rewrite app_nil_r. split; reflexivity.
Qed.

(** [concat_seek], whenever it returns: it takes the reader out of the
    context while it searches, and either puts it back, closing what it
    opened, or closes it and keeps the one it opened. *)
Lemma keeps_concat_seek stream min_ts ts max_ts flags :
  keeps (World := World) steady (concat_seek stream min_ts ts max_ts flags).
Proof.
  intros s ret s' Hrun. unfold concat_seek in Hrun.
  apply bind_done in Hrun as (c & s0 & [= <- <-] & Hrun).
  apply bind_done in Hrun as (u & s1 & [= _ <-] & Hrun).
  assert (H1 : steady s (with_cat (with_error 0 (cat s)) s)).
  { apply (steady_quiet _ _ []); simpl_state;
      [reflexivity | reflexivity | symmetry; apply app_nil_r | reflexivity..]. }
  destruct (seekable (cat s) =? 0); [injection Hrun as _ <-; exact H1|].
  destruct (negb _); [injection Hrun as _ <-; exact H1|].
  clear H1.
  apply bind_done in Hrun as (u2 & s2 & [= _ <-] & Hrun).
  apply bind_done in Hrun as (r & s3 & Hseek & Hrun).
  destruct (keeps_real_seek _ _ _ _ _ _ _ _ Hseek) as (Ht3 & evs3 & Hh3 & Hb3).
  unfold accounted in Hb3. simpl_state. cbn [reader_list app] in Hb3.
  destruct (r <? 0).
  - apply bind_done in Hrun as (c3 & s0 & [= <- <-] & Hrun).
    apply bind_done in Hrun as (u3 & s4 & Hclose & Hrun).
    apply bind_done in Hrun as (u4 & s5 & [= _ <-] & Hrun).
    injection Hrun as _ <-.
    apply close_input_done in Hclose as (Hcat4 & Hh4).
    split; [simpl_state; rewrite Hcat4; exact Ht3|].
    exists (evs3 ++ match avf (cat s3) with
                    | Some h => [CallCloseInput h] | None => [] end).
    simpl_state. split; [rewrite Hh4, Hh3, app_assoc; reflexivity|].
    unfold accounted. simpl_state. events.
    destruct (close_events_projections (avf (cat s3))) as (-> & -> & _).
    rewrite app_nil_r. apply Permutation_app_head.
    rewrite Permutation_app_comm. exact Hb3.
  - apply bind_done in Hrun as (u3 & s4 & Hclose & Hrun).
    injection Hrun as _ <-.
    apply close_input_done in Hclose as (Hcat4 & Hh4).
    split; [rewrite Hcat4; exact Ht3|].
    exists (evs3 ++ match avf (cat s) with
                    | Some h => [CallCloseInput h] | None => [] end).
    split; [rewrite Hh4, Hh3, app_assoc; reflexivity|].
    unfold accounted. rewrite Hcat4. events.
    destruct (close_events_projections (avf (cat s))) as (-> & -> & _).
    rewrite app_nil_r, app_assoc, Hb3. apply Permutation_app_comm.
Qed.

Lemma keeps_session calls : keeps (World := World) steady (session calls).
Proof.
  induction calls as [|[pkt|stream min_ts ts max_ts flags] rest IH];
    cbn [session].
  - apply keeps_pure.
  - apply keeps_bind; [apply keeps_concat_read_packet|]. intros _. exact IH.
  - apply keeps_bind; [apply keeps_concat_seek|]. intros _. exact IH.
Qed.

End Steady.

Section Playing.

Context {World : Type} {lib : LibAV World} {hlib : HeaderLib World}.

Local Abbreviation M := (StateM (State World)).
Implicit Types (s : State World) (c : ConcatContext) (evs : list Event).

Lemma steady_history s s' :
  steady s s' -> exists evs, history s' = history s ++ evs.
Proof. intros (_ & evs & Hh & _). eauto. Qed.

Lemma open_file_other fileno s ret s' k :
  open_file fileno s = Done (ret, s') -> k <> fileno ->
  files (cat s') !! k = files (cat s) !! k.
Proof.
  intros Hrun Hne.
  destruct (files (cat s) !! fileno) as [file|] eqn:Hfile.
  2:{ unfold open_file, bind, gets, deref in Hrun. rewrite Hfile in Hrun.
      discriminate. }
  destruct (runs_done _ _ _ _ _ (open_file_spec s fileno file Hfile) Hrun)
    as (evs & Hh & _ & _ & _ & _ & _ & _ & Hcases).
  destruct Hcases as [(_ & -> & _) | (_ & h & _ & _ & ->)]; [reflexivity|].
  unfold installed. simpl_state. apply list_lookup_insert_ne. congruence.
Qed.

(** X17.  [open_next_file] records how long the segment it leaves was: if
    the duration of the active segment was unknown it is the reader's
    afterwards, whether or not there is a next segment and whether or not
    that one could be opened; a duration that was known, the locator and
    the start are left as they were. *)
Theorem open_next_file_records_duration s i h f :
  ready s i h -> files (cat s) !! i = Some f ->
  runs open_next_file s (fun ret s' evs =>
    exists f', files (cat s') !! i = Some f' /\
      url f' = url f /\ start_time f' = start_time f /\
      duration f' = (if duration f =? AV_NOPTS_VALUE
                     then reader_duration h (world s) else duration f)).
Proof.
  intros Hready Hf.
  eapply runs_weaken.
  { apply (runs_strengthen _ _ _
             (fun _ s' _ =>
                exists f', files (cat s') !! i = Some f' /\
                  url f' = url f /\ start_time f' = start_time f /\
                  duration f' = (if duration f =? AV_NOPTS_VALUE
                                 then reader_duration h (world s) else duration f))
             (open_next_file_spec s i h Hready)).
    destruct Hready as (Hcur & Havf & Hlt).
    intros ret s' evs Hrun _. unfold open_next_file in Hrun.
    apply bind_done in Hrun as (c & s0 & [= <- <-] & Hrun).
    rewrite Hcur in Hrun.
    apply bind_done in Hrun as (fileno & s0 & [= <- <-] & Hrun).
    rewrite Hf in Hrun.
    apply bind_done in Hrun as (file & s0 & [= <- <-] & Hrun).
    apply bind_done in Hrun as (u & s1 & Hdur & Hrun).
    assert (Hstep : exists f', files (cat s1) !! i = Some f' /\
      url f' = url f /\ start_time f' = start_time f /\
      duration f' = (if duration f =? AV_NOPTS_VALUE
                     then reader_duration h (world s) else duration f)).
    { destruct (duration f =? AV_NOPTS_VALUE).
      - rewrite Havf in Hdur.
        apply bind_done in Hdur as (h0 & s0 & [= <- <-] & Hdur).
        apply bind_done in Hdur as (d & s0 & [= <- <-] & Hdur).
        injection Hdur as _ <-. simpl_state.
        exists (with_duration (reader_duration h (world s)) f).
        rewrite list_lookup_insert_eq by exact Hlt. repeat split.
      - injection Hdur as _ <-. exists f. repeat split. exact Hf. }
    destruct (length (files (cat s)) <=? S i)%nat.
    - injection Hrun as _ <-. exact Hstep.
    - rewrite (open_file_other _ _ _ _ i Hrun) by lia. exact Hstep. }
  cbv beta. intros ret s' evs (_ & H). exact H.
Qed.

Lemma ready_accounted s s' evs i h i' h' :
  ready s i h -> ready s' i' h' -> accounted s s' evs ->
  Permutation (h' :: closed evs) (h :: opened evs).
Proof.
  intros (_ & Ha & _) (_ & Ha' & _). unfold accounted. rewrite Ha, Ha'.
  intros H. exact H.
Qed.

(** X18.  [concat_read_packet] from an active segment leaves a segment
    active, keeps the table (its length, every locator, and every start and
    duration that was known), and keeps the books of the readers: the
    reader it leaves installed and the readers it closed are the reader it
    found installed and the readers it opened. *)
Theorem concat_read_packet_keeps_books s i h pkt :
  ready s i h ->
  runs (concat_read_packet pkt) s (fun _ s' evs =>
    table_kept (files (cat s)) (files (cat s')) /\
    exists i' h', ready s' i' h' /\
      Permutation (h' :: closed evs) (h :: opened evs)).
Proof.
  intros Hready. eapply runs_weaken.
  { apply runs_keeps;
      [apply (concat_read_packet_keeps_ready s i h pkt Hready)
      | apply keeps_concat_read_packet]. }
  cbv beta. intros r s' evs (((i' & h' & Hready') & _) & Ht & Hb).
  split; [exact Ht|]. exists i', h'. split; [exact Hready'|].
  eapply ready_accounted; eassumption.
Qed.

(** X19.  [concat_seek] from an active segment keeps the table in the same
    sense, whether it succeeds, fails or refuses: a seek gives some
    descriptors their start and changes nothing that was known. *)
Theorem concat_seek_keeps_table s i h stream min_ts ts max_ts flags :
  ready s i h -> int_indexable (files (cat s)) ->
  runs (concat_seek stream min_ts ts max_ts flags) s (fun _ s' _ =>
    table_kept (files (cat s)) (files (cat s'))).
Proof.
  intros Hready Hsize. eapply runs_weaken.
  { apply runs_keeps;
      [apply (concat_seek_keeps_ready s i h _ _ _ _ _ Hready Hsize)
      | apply keeps_concat_seek]. }
  cbv beta. intros r s' evs (_ & Ht & _). exact Ht.
Qed.

Lemma session_stays_ready calls : forall s i h,
  ready s i h -> int_indexable (files (cat s)) ->
  runs (session calls) s (fun _ s' _ =>
    (exists i' h', ready s' i' h') /\
    length (files (cat s')) = length (files (cat s))).
Proof.
  induction calls as [|[pkt|stream min_ts ts max_ts flags] rest IH];
    intros s i h Hready Hsize; cbn [session].
  - wp. split; [eauto | reflexivity].
  - wp. eapply runs_weaken;
      [apply (concat_read_packet_keeps_ready s i h pkt Hready)|].
    cbv beta. intros r s1 evs1 ((i1 & h1 & Hready1) & Hlen1).
    eapply runs_weaken; [apply (IH s1 i1 h1 Hready1)|].
    + unfold int_indexable in *. rewrite Hlen1. exact Hsize.
    + cbv beta. intros u s2 evs2 (Hr & Hlen2). split; [exact Hr | congruence].
  - wp. eapply runs_weaken;
      [apply (concat_seek_keeps_ready s i h _ _ _ _ _ Hready Hsize)|].
    cbv beta. intros r s1 evs1 ((i1 & h1 & Hready1) & Hlen1).
    eapply runs_weaken; [apply (IH s1 i1 h1 Hready1)|].
    + unfold int_indexable in *. rewrite Hlen1. exact Hsize.
    + cbv beta. intros u s2 evs2 (Hr & Hlen2). split; [exact Hr | congruence].
Qed.

Lemma session_spec calls s i h :
  ready s i h -> int_indexable (files (cat s)) ->
  runs (session calls) s (fun _ s' evs =>
    table_kept (files (cat s)) (files (cat s')) /\
    exists i' h', ready s' i' h' /\
      Permutation (h' :: closed evs) (h :: opened evs)).
Proof.
  intros Hready Hsize. eapply runs_weaken.
  { apply runs_keeps;
      [apply (session_stays_ready calls s i h Hready Hsize)
      | apply keeps_session]. }
  cbv beta. intros r s' evs (((i' & h' & Hready') & _) & Ht & Hb).
  split; [exact Ht|]. exists i', h'. split; [exact Hready'|].
  eapply ready_accounted; eassumption.
Qed.

(** X20.  Whatever packets are asked for and whatever seeks are made, in
    whatever order and with whatever answers from the readers, every call
    returns and none runs into a null or dangling [cur_file] or [avf]: a
    segment is active after each of them.  Over the whole session the table
    is kept and the books of the readers balance. *)
Theorem session_keeps_playing calls s i h :
  ready s i h -> int_indexable (files (cat s)) ->
  runs (session calls) s (fun _ s' evs =>
    table_kept (files (cat s)) (files (cat s')) /\
    exists i' h', ready s' i' h' /\
      Permutation (h' :: closed evs) (h :: opened evs)).
Proof. apply session_spec. Qed.

(** X21.  A whole life: header, any session, close.  If the script and the
    resolver fit and the resolver loop is never out of memory for the copy
    of a locator, every step returns; if the header fails its code is what
    the client gets and nothing is left behind; otherwise
    [concat_read_close] returns 0.  Either way no reader is installed and
    the table is released at the end, and the readers that were closed are
    exactly the readers that were opened. *)
Theorem play_closes_every_reader name lines stack calls s :
  unopened s -> script_fits lines s -> resolver_allocates ->
  runs (play name lines stack calls) s (fun ret s' evs =>
    ret <= 0 /\ avf (cat s') = None /\ files (cat s') = [] /\
    Permutation (closed evs) (opened evs)).
Proof.
  intros Hfresh Hfits Hcopy. unfold play. wp.
  eapply runs_weaken; [apply concat_read_header_spec; assumption|]. cbv beta.
  intros ret s1 evs1 (_ & _ & _ & _ & _ & _ & Hcases).
  destruct Hcases as [(Hneg & Hfiles & Havf & Hbal & _) |
                      (-> & h & fs & _ & Hunk & Hsome & Hsize & _ & Hfiles & Hcur
                       & Havf & _ & Hop & Hcl & _)].
  { assert (Hlt : (ret <? 0) = true) by (apply Z.ltb_lt, Hneg). rewrite Hlt.
    wp. rewrite app_nil_r. split; [lia|]. split; [exact Havf|].
    split; [exact Hfiles|]. rewrite Hbal. reflexivity. }
  cbn [Z.ltb Z.compare]. wp.
  destruct (backfill_first fs Hunk Hsome) as (Hlen & _).
  assert (Hready : ready s1 0 h).
  { unfold ready. rewrite Hcur, Havf, Hfiles, Hlen.
    destruct fs; [contradiction | cbn; auto with lia]. }
  eapply runs_weaken.
  { apply (session_spec calls s1 0%nat h Hready).
    unfold int_indexable, script_fits in *. rewrite Hfiles, Hlen. lia. }
  cbv beta. intros u s2 evs2 (_ & i' & h' & (_ & Havf2 & _) & Hbal2).
  eapply runs_weaken; [apply concat_read_close_spec|]. cbv beta.
  intros ret s3 evs3 (-> & -> & -> & _). rewrite Havf2. simpl_state.
  split; [lia|]. split; [reflexivity|]. split; [reflexivity|].
  events. rewrite Hop, Hcl, app_nil_r. cbn [app].
  rewrite <- Permutation_cons_append. exact Hbal2.
Qed.

Lemma read_loop_reads_first fuel try_counter pkt s h r s' :
  avf (cat s) = Some h ->
  read_loop fuel try_counter pkt s = Done (r, s') ->
  exists ret raw rest,
    history s' = history s ++ CallReadFrame h ret raw :: rest.
Proof.
  intros Havf Hrun. destruct fuel as [|fuel]; [discriminate|].
  cbn [read_loop] in Hrun.
  apply bind_done in Hrun as (c & s0 & [= <- <-] & Hrun).
  rewrite Havf in Hrun.
  apply bind_done in Hrun as (h0 & s0 & [= <- <-] & Hrun).
  apply bind_done in Hrun as ([ret raw] & s1 & Hread & Hrun).
  unfold call_read_frame in Hread.
  destruct (av_read_frame h pkt (world s)) as [[ret0 raw0] w].
  injection Hread as <- <- <-.
  match type of Hrun with
  | ?k _ = _ => assert (Hk : keeps (World := World) steady k)
  end.
  { destruct (negb _); [apply keeps_pure|].
    apply keeps_bind; [apply keeps_open_next_file|]. intros ret1.
    destruct (ret1 <? 0); [|apply keeps_read_loop].
    destruct (_ >? _).
    - apply keeps_bind; [apply keeps_modify_cat; intros c'; split; reflexivity|].
      intros _. apply keeps_bind; [apply keeps_set_pb_error|].
      intros _. apply keeps_pure.
    - apply keeps_bind; [apply keeps_emit_warning|]. intros _.
      apply keeps_read_loop. }
  destruct (steady_history _ _ (Hk _ _ _ Hrun)) as (rest & Hh).
  exists ret0, raw0, rest. rewrite Hh. simpl_state.
  rewrite <- app_assoc. reflexivity.
Qed.

Lemma concat_read_packet_reads_first pkt s h r s' :
  avf (cat s) = Some h -> error (cat s) = 0 ->
  concat_read_packet pkt s = Done (r, s') ->
  exists ret raw rest,
    history s' = history s ++ CallReadFrame h ret raw :: rest.
Proof.
  intros Havf Herr Hrun. unfold concat_read_packet in Hrun.
  apply bind_done in Hrun as (c & s0 & [= <- <-] & Hrun).
  rewrite Herr in Hrun. cbn [Z.eqb negb] in Hrun.
  apply bind_done in Hrun as (exit & s1 & Hloop & Hrun).
  destruct (read_loop_reads_first _ _ _ _ _ _ _ Havf Hloop)
    as (ret & raw & rest & Hh1).
  match type of Hrun with
  | ?k _ = _ => assert (Hk : keeps (World := World) steady k)
  end.
  { destruct exit as [ret' raw'|ret' raw']; [|apply keeps_pure].
    destruct (ret' <? 0); [apply keeps_pure|].
    apply keeps_bind; [apply keeps_gets|]. intros c'.
    apply keeps_bind; [apply keeps_deref|]. intros fileno.
    apply keeps_bind; [apply keeps_deref|]. intros file.
    apply keeps_bind; [apply keeps_deref|]. intros h1.
    apply keeps_bind; [apply keeps_gets|]. intros reader_start.
    apply keeps_bind; [apply keeps_gets|]. intros time_base.
    apply keeps_pure. }
  destruct (steady_history _ _ (Hk _ _ _ Hrun)) as (rest' & Hh).
  exists ret, raw, (rest ++ rest'). rewrite Hh, Hh1, <- app_assoc.
  reflexivity.
Qed.

(** X22.  A packet asked for after a seek is read from a reader, whatever
    the seek answered and even if the demuxer had reported its end before.
    The seek itself calls [av_read_frame] on nothing and leaves a segment
    active: after a failed or refused seek the segment and the reader that
    were active before, after a successful one the reader the seek opened
    and did not close again (its last act being to close the old one).
    From the state the seek leaves, the first thing any
    [concat_read_packet] does is [av_read_frame] on that reader. *)
Theorem read_after_seek_reads s i h stream min_ts ts max_ts flags :
  ready s i h -> int_indexable (files (cat s)) ->
  runs (concat_seek stream min_ts ts max_ts flags) s (fun ret s1 evs1 =>
    reads evs1 = [] /\
    exists i1 h1,
      ready s1 i1 h1 /\
      (ret < 0 -> i1 = i /\ h1 = h) /\
      (0 <= ret ->
         exists evs0, evs1 = evs0 ++ [CallCloseInput h] /\
                      Permutation (h1 :: closed evs0) (opened evs1)) /\
      forall pkt,
        runs (concat_read_packet pkt) s1 (fun _ _ evs2 =>
          exists ret2 raw rest, evs2 = CallReadFrame h1 ret2 raw :: rest)).
Proof.
  intros Hready Hsize.
  eapply runs_weaken; [apply (concat_seek_spec _ _ _ _ _ _ _ _ Hready Hsize)|].
  cbv beta.
  intros ret s1 evs1 (Herr1 & Hsetup & _ & _ & Hreads & Hfail & Hok & _).
  split; [exact Hreads|].
  assert (Hready1 : exists i1 h1, ready s1 i1 h1 /\
            (ret < 0 -> i1 = i /\ h1 = h) /\
            (0 <= ret ->
               exists evs0, evs1 = evs0 ++ [CallCloseInput h] /\
                            Permutation (h1 :: closed evs0) (opened evs1))).
  { destruct (Z_lt_le_dec ret 0) as [Hneg|Hpos].
    - destruct (Hfail Hneg) as (Hc & Ha & _).
      destruct Hready as (Hcur & Havf & Hlt).
      exists i, h. split; [|split; [auto | lia]]. unfold ready.
      rewrite Hc, Ha. destruct Hsetup as (_ & _ & _ & _ & _ & ->). auto.
    - destruct (Hok Hpos) as (j & h' & evs0 & Hready' & Hevs & Hperm).
      exists j, h'. split; [exact Hready'|]. split; [lia|]. eauto. }
  destruct Hready1 as (i1 & h1 & Hready1 & Hsame & Hnew).
  exists i1, h1. do 3 (split; [assumption|]). intros pkt.
  eapply runs_weaken.
  { apply (runs_strengthen _ _ _
             (fun _ _ evs2 => exists ret2 raw rest,
                evs2 = CallReadFrame h1 ret2 raw :: rest)
             (concat_read_packet_keeps_ready s1 i1 h1 pkt Hready1)).
    intros r s2 evs2 Hrun Hh.
    destruct Hready1 as (_ & Havf1 & _).
    destruct (concat_read_packet_reads_first _ _ _ _ _ Havf1 Herr1 Hrun)
      as (ret2 & raw & rest & Hh').
    exists ret2, raw, rest. rewrite Hh in Hh'.
    eapply app_inv_head. exact Hh'. }
  cbv beta. intros r s2 evs2 (_ & H). exact H.
Qed.

Lemma sub64_add64 p d : in_int64 p -> sub64 (add64 p d) d = p.
Proof.
  unfold in_int64, INT64_MIN, INT64_MAX, sub64, add64, wrap64. intros Hp.
  replace ((p + d + 2 ^ 63) mod 2 ^ 64 - 2 ^ 63 - d + 2 ^ 63)
    with ((p + d + 2 ^ 63) mod 2 ^ 64 - d) by lia.
  rewrite Zminus_mod_idemp_l.
  replace (p + d + 2 ^ 63 - d) with (p + 2 ^ 63) by lia.
  rewrite Z.mod_small; lia.
Qed.

(** X23.  Seeking undoes the offset of reading.  [concat_read_packet] hands
    out the reader's time [p] moved by the segment's start minus the
    reader's start; [try_seek], asked without a stream for the time so
    moved, sends the reader to [p] again, in the wrap-around arithmetic of
    [int64_t] both ways.  Bounds that are open (INT64_MIN, INT64_MAX) are
    passed on open. *)
Theorem try_seek_undoes_offset s i h file p min_ts max_ts flags :
  ready s i h -> files (cat s) !! i = Some file ->
  in_int64 p -> p <> AV_NOPTS_VALUE ->
  let t0 := sub64 (start_time file) (reader_start_time h (world s)) in
  runs (try_seek (-1) min_ts (offset_timestamp p t0) max_ts flags) s
    (fun ret s' evs =>
       exists lo hi,
         evs = [CallSeekFile h (-1) lo p hi flags ret] /\
         (min_ts = INT64_MIN -> lo = INT64_MIN) /\
         (max_ts = INT64_MAX -> hi = INT64_MAX)).
Proof.
  intros (Hcur & Havf & Hlt) Hfile Hp Hknown t0. unfold try_seek. wp.
  eapply runs_deref; [exact Hcur|]. wp.
  eapply runs_deref; [exact Hfile|]. wp.
  eapply runs_deref; [exact Havf|]. wp.
  change (-1 >=? 0) with false. cbv iota. wp. cbn [app].
  fold t0. unfold offset_timestamp.
  apply Z.eqb_neq in Hknown. rewrite Hknown. cbn [negb].
  rewrite (sub64_add64 p t0 Hp).
  eexists _, _. split; [reflexivity|].
  split; intros ->; reflexivity.
Qed.

(** X25.  A time seek on a seekable table that names a stream the demuxer
    does not have is refused by [real_seek] with AVERROR(EINVAL) before
    anything is searched or opened: no library call is made, the active
    segment and its reader are put back, and the only change is that the
    sticky error is cleared. *)
Theorem seek_on_missing_stream_refused s stream min_ts ts max_ts flags :
  seekable (cat s) <> 0 ->
  Z.land flags (Z.lor AVSEEK_FLAG_BYTE AVSEEK_FLAG_FRAME) = 0 ->
  stream_rejected (streams s) stream = true ->
  concat_seek stream min_ts ts max_ts flags s
  = Done (AVERROR EINVAL, with_cat (with_error 0 (cat s)) s).
Proof.
  intros Hseekable Hflags Hstream.
  unfold concat_seek, real_seek, bind, gets, modify_cat, modify, pure.
  cbn [cat with_cat seekable with_error streams].
  apply Z.eqb_neq in Hseekable. rewrite Hseekable.
  apply Z.eqb_eq in Hflags. rewrite Hflags. cbn [negb].
  unfold stream_rejected in Hstream.
  cbn [cat with_cat with_avf streams]. rewrite Hstream.
  change (AVERROR EINVAL <? 0) with true. cbv iota.
  cbn [avf with_avf call_close_input pure cat with_cat].
  destruct s as [c d pb st w hist]. destruct c. reflexivity.
Qed.

(** X26.  A seek on a stream that the reader of the active segment does not
    have (the demuxer's streams are those of the first segment) is answered
    by [try_seek] with AVERROR(EIO): [avformat_seek_file] is not called and
    nothing changes. *)
Theorem try_seek_on_missing_stream s i h stream min_ts ts max_ts flags :
  ready s i h ->
  0 <= stream -> reader_nb_streams h (world s) <= stream ->
  try_seek stream min_ts ts max_ts flags s = Done (AVERROR EIO, s).
Proof.
  intros (Hcur & Havf & Hlt) Hstream Hmissing.
  destruct (lookup_lt_is_Some_2 (files (cat s)) i Hlt) as [file Hfile].
  unfold try_seek, bind, gets, deref, pure.
  rewrite Hcur, Hfile, Havf.
  assert (H1 : (stream >=? 0) = true) by (apply Z.geb_le; lia).
  assert (H2 : (stream >=? reader_nb_streams h (world s)) = true)
    by (apply Z.geb_le; lia).
  rewrite H1, H2. reflexivity.
Qed.

End Playing.

(** ** The statements on the script, the header and a session, at the
    scripted readers *)

Lemma scripted_fresh_unopened safe : unopened (ScriptedHeader.fresh safe).
Proof. repeat split. Qed.

Lemma add_file_alloc_stays_in_table_witness :
  capacity_ok (nb_files (cat (ScriptedHeader.fresh 1))) 0 /\
  nb_files (cat (ScriptedHeader.fresh 1)) < 16 /\
  nb_files (with_files [mkFile "a.mkv" AV_NOPTS_VALUE AV_NOPTS_VALUE]
              (cat (ScriptedHeader.fresh 1)))
  = nb_files (cat (ScriptedHeader.fresh 1)) + 1 /\
  0 <= 16 /\
  capacity_ok
    (nb_files (with_files [mkFile "a.mkv" AV_NOPTS_VALUE AV_NOPTS_VALUE]
                 (cat (ScriptedHeader.fresh 1)))) 16.
Proof.
  assert (Hcap : capacity_ok (nb_files (cat (ScriptedHeader.fresh 1))) 0).
  { change (nb_files (cat (ScriptedHeader.fresh 1))) with 0.
    split; [lia | left; reflexivity]. }
  split; [exact Hcap|].
  exact (add_file_alloc_stays_in_table (fun name => name) (2 ^ 59) true true
           "a.mkv" (cat (ScriptedHeader.fresh 1)) 0
           (with_files [mkFile "a.mkv" AV_NOPTS_VALUE AV_NOPTS_VALUE]
              (cat (ScriptedHeader.fresh 1))) 16 Hcap eq_refl).
Defined.

Lemma read_script_passes_over_witness :
  comment_or_blank (String.append "# two clips" (String "010" EmptyString)) /\
  read_script (hlib := ScriptedHeader.hlib) "list.ffconcat"
    ([String.append "file a.mkv" (String "010" EmptyString)]
     ++ String.append "# two clips" (String "010" EmptyString)
     :: [String.append "duration 10" (String "010" EmptyString)])
    (cat (ScriptedHeader.fresh 1)) None =
  read_script (hlib := ScriptedHeader.hlib) "list.ffconcat"
    ([String.append "file a.mkv" (String "010" EmptyString)]
     ++ [String.append "duration 10" (String "010" EmptyString)])
    (cat (ScriptedHeader.fresh 1)) None.
Proof.
  assert (Hbuf : comment_or_blank
                   (String.append "# two clips" (String "010" EmptyString))).
  { split; [discriminate|]. right.
    exists EmptyString, (String.append " two clips" (String "010" EmptyString)).
    split; reflexivity. }
  split; [exact Hbuf|].
  exact (read_script_passes_over (hlib := ScriptedHeader.hlib) "list.ffconcat"
           [String.append "file a.mkv" (String "010" EmptyString)]
           (String.append "# two clips" (String "010" EmptyString))
           [String.append "duration 10" (String "010" EmptyString)]
           (cat (ScriptedHeader.fresh 1)) None Hbuf).
Defined.

Lemma read_script_builds_table_witness :
  files (cat (ScriptedHeader.fresh (-1))) = [] /\
  match read_script (hlib := ScriptedHeader.hlib) "list.ffconcat"
          ScriptedHeader.script (cat (ScriptedHeader.fresh (-1))) None with
  | Failed e c' =>
      e < 0 /\
      table_extended (ff_make_absolute_url (HeaderLib := ScriptedHeader.hlib)
                        "list.ffconcat")
        (cat (ScriptedHeader.fresh (-1))) c' /\
      Forall (fun f => start_time f = AV_NOPTS_VALUE) (files c')
  | Parsed ret c' file' =>
      ret = 0 /\
      table_extended (ff_make_absolute_url (HeaderLib := ScriptedHeader.hlib)
                        "list.ffconcat")
        (cat (ScriptedHeader.fresh (-1))) c' /\
      Forall (fun f => start_time f = AV_NOPTS_VALUE) (files c') /\
      points_at_last c' file'
  end.
Proof.
  split; [reflexivity|].
  exact (read_script_builds_table (hlib := ScriptedHeader.hlib) "list.ffconcat"
           ScriptedHeader.script (cat (ScriptedHeader.fresh (-1))) eq_refl).
Defined.

Lemma safe_mode_checks_names_witness :
  0 < safe (cat (ScriptedHeader.fresh 1)) /\
  points_at_last (cat (ScriptedHeader.fresh 1)) None /\
  safe (context_of (read_script (hlib := ScriptedHeader.hlib) "list.ffconcat"
                      ScriptedHeader.script (cat (ScriptedHeader.fresh 1)) None))
  = safe (cat (ScriptedHeader.fresh 1)) /\
  exists names,
    map url (files (context_of
                      (read_script (hlib := ScriptedHeader.hlib) "list.ffconcat"
                         ScriptedHeader.script (cat (ScriptedHeader.fresh 1))
                         None)))
    = map url (files (cat (ScriptedHeader.fresh 1)))
      ++ map (ff_make_absolute_url (HeaderLib := ScriptedHeader.hlib)
                "list.ffconcat") names /\
    Forall (fun filename => safe_filename filename = true) names.
Proof.
  split; [reflexivity|]. split; [reflexivity|].
  exact (safe_mode_checks_names (hlib := ScriptedHeader.hlib) "list.ffconcat"
           ScriptedHeader.script (cat (ScriptedHeader.fresh 1)) None
           eq_refl eq_refl).
Defined.

Lemma probed_script_is_read_safely_witness :
  safe (cat (ScriptedHeader.fresh (-1))) < 0 /\
  files (cat (ScriptedHeader.fresh (-1))) = [] /\
  version_ends (String "010" EmptyString) = true /\
  safe (context_of
          (read_script (hlib := ScriptedHeader.hlib) "list.ffconcat"
             ((ffconcat_magic ++ String "010" EmptyString)%string
              :: [String.append "file a.mkv" (String "010" EmptyString)])
             (cat (ScriptedHeader.fresh (-1))) None)) = 1 /\
  exists names,
    map url (files (context_of
          (read_script (hlib := ScriptedHeader.hlib) "list.ffconcat"
             ((ffconcat_magic ++ String "010" EmptyString)%string
              :: [String.append "file a.mkv" (String "010" EmptyString)])
             (cat (ScriptedHeader.fresh (-1))) None)))
    = map (ff_make_absolute_url (HeaderLib := ScriptedHeader.hlib)
             "list.ffconcat") names /\
    Forall (fun filename => safe_filename filename = true) names.
Proof.
  split; [reflexivity|]. split; [reflexivity|]. split; [reflexivity|].
  exact (probed_script_is_read_safely (hlib := ScriptedHeader.hlib)
           "list.ffconcat" (String "010" EmptyString)
           [String.append "file a.mkv" (String "010" EmptyString)]
           (cat (ScriptedHeader.fresh (-1))) eq_refl eq_refl eq_refl).
Defined.

Lemma duration_line_sets_latest_witness :
  points_at_last
    (with_files [mkFile "a.mkv" AV_NOPTS_VALUE AV_NOPTS_VALUE]
       (cat (ScriptedHeader.fresh 1))) (Some 0%nat) /\
  fst (get_keyword (String.append "duration 10" (String "010" EmptyString)))
  = "duration"%string /\
  0 <= 0 /\
  exists before last,
    files (with_files [mkFile "a.mkv" AV_NOPTS_VALUE AV_NOPTS_VALUE]
             (cat (ScriptedHeader.fresh 1))) = before ++ [last] /\
    script_line (hlib := ScriptedHeader.hlib) "list.ffconcat"
      (String.append "duration 10" (String "010" EmptyString))
      (with_files [mkFile "a.mkv" AV_NOPTS_VALUE AV_NOPTS_VALUE]
         (cat (ScriptedHeader.fresh 1))) (Some 0%nat) =
    Parsed 0
      (with_files (before ++ [with_duration 10000000 last])
         (with_files [mkFile "a.mkv" AV_NOPTS_VALUE AV_NOPTS_VALUE]
            (cat (ScriptedHeader.fresh 1)))) (Some 0%nat).
Proof.
  split; [reflexivity|]. split; [reflexivity|]. split; [lia|].
  exact (duration_line_sets_latest (hlib := ScriptedHeader.hlib) "list.ffconcat"
           (String.append "duration 10" (String "010" EmptyString))
           (with_files [mkFile "a.mkv" AV_NOPTS_VALUE AV_NOPTS_VALUE]
              (cat (ScriptedHeader.fresh 1)))
           0%nat 0 10000000 eq_refl eq_refl eq_refl (Z.le_refl 0)).
Defined.

Lemma scripted_resolver_allocates a :
  resolver_allocates (lib := ScriptedHeader.lib_with_resolver a)
    (hlib := ScriptedHeader.hlib).
Proof. right. intros u w. reflexivity. Qed.

Lemma scripted_no_callback a (hlib : HeaderLib nat) :
  resolver_allocates (lib := Scripted.lib a) (hlib := hlib).
Proof. left. reflexivity. Qed.

Lemma concat_read_header_all_or_nothing_witness :
  unopened (ScriptedHeader.fresh (-1)) /\
  resolver_allocates (lib := ScriptedHeader.lib_with_resolver Scripted.healthy)
    (hlib := ScriptedHeader.hlib) /\
  runs (concat_read_header (lib := ScriptedHeader.lib_with_resolver Scripted.healthy)
          (hlib := ScriptedHeader.hlib) "list.ffconcat" ScriptedHeader.script
          ScriptedHeader.stack)
    (ScriptedHeader.fresh (-1))
    (fun ret s' evs =>
       reads evs = [] /\ error (cat s') = 0 /\
       pb_error s' = pb_error (ScriptedHeader.fresh (-1)) /\
       ((ret = 0 /\ exists h,
           ready s' 0 h /\ opened evs = [h] /\ closed evs = []) \/
        (ret < 0 /\ files (cat s') = [] /\ avf (cat s') = None /\
         closed evs = opened evs))).
Proof.
  split; [apply scripted_fresh_unopened|].
  split; [apply scripted_resolver_allocates|].
  exact (concat_read_header_all_or_nothing
           (lib := ScriptedHeader.lib_with_resolver Scripted.healthy)
           (hlib := ScriptedHeader.hlib)
           "list.ffconcat" ScriptedHeader.script ScriptedHeader.stack
           (ScriptedHeader.fresh (-1)) (scripted_fresh_unopened (-1))
           (scripted_resolver_allocates Scripted.healthy)).
Defined.

Lemma concat_read_header_keeps_pass_witness :
  unopened (ScriptedHeader.fresh (-1)) /\
  resolver_allocates (lib := ScriptedHeader.lib_with_resolver Scripted.healthy)
    (hlib := ScriptedHeader.hlib) /\
  runs (concat_read_header
          (lib := ScriptedHeader.lib_with_resolver Scripted.healthy)
          (hlib := ScriptedHeader.hlib) "list.ffconcat" ScriptedHeader.script
          ScriptedHeader.stack)
    (ScriptedHeader.fresh (-1))
    (fun ret s' evs =>
       ret = 0 ->
       exists h fs,
         let built := with_cat (with_files fs (cat (ScriptedHeader.fresh (-1))))
                        (ScriptedHeader.fresh (-1)) in
         built_by (lib := ScriptedHeader.lib_with_resolver Scripted.healthy)
           (hlib := ScriptedHeader.hlib) "list.ffconcat" ScriptedHeader.script
           ScriptedHeader.stack (ScriptedHeader.fresh (-1)) fs /\
         (control_message_cb
            (LibAV := ScriptedHeader.lib_with_resolver Scripted.healthy) = None ->
          fs = files (context_of
                        (read_script (hlib := ScriptedHeader.hlib)
                           "list.ffconcat" ScriptedHeader.script
                           (cat (ScriptedHeader.fresh (-1))) None))) /\
         (forall cb cb_ret count w,
            control_message_cb
              (LibAV := ScriptedHeader.lib_with_resolver Scripted.healthy)
            = Some cb ->
            resolve_segment_concat (HeaderLib := ScriptedHeader.hlib)
              (world (ScriptedHeader.fresh (-1))) = (cb_ret, count, w) ->
            (count <= 0 ->
             fs = files (context_of
                           (read_script (hlib := ScriptedHeader.hlib)
                              "list.ffconcat" ScriptedHeader.script
                              (cat (ScriptedHeader.fresh (-1))) None))) /\
            (0 < count ->
             cb_ret = 0 /\
             fs = resolved_files (hlib := ScriptedHeader.hlib) "list.ffconcat"
                    (resolved (hlib := ScriptedHeader.hlib)
                       (Z.to_nat count) 0 w))) /\
         starts_unknown (files (cat built)) /\ fs <> [] /\
         files (cat s') = files (cat (read_header_backfill built)) /\
         seekable (cat s') = seekable (cat (read_header_backfill built)) /\
         ctx_duration s' = ctx_duration (read_header_backfill built) /\
         (exists f0, files (cat s') !! 0%nat = Some f0 /\ start_time f0 = 0) /\
         avf (cat s') = Some h /\
         streams s' = streams (ScriptedHeader.fresh (-1)) ++
           map (fun k => reader_time_base
                           (LibAV := ScriptedHeader.lib_with_resolver Scripted.healthy)
                           h (Z.of_nat k) (world s'))
               (seq 0 (Z.to_nat (reader_nb_streams
                                   (LibAV := ScriptedHeader.lib_with_resolver
                                               Scripted.healthy)
                                   h (world s'))))).
Proof.
  split; [apply scripted_fresh_unopened|].
  split; [apply scripted_resolver_allocates|].
  exact (concat_read_header_keeps_pass
           (lib := ScriptedHeader.lib_with_resolver Scripted.healthy)
           (hlib := ScriptedHeader.hlib)
           "list.ffconcat" ScriptedHeader.script ScriptedHeader.stack
           (ScriptedHeader.fresh (-1)) (scripted_fresh_unopened (-1))
           (scripted_resolver_allocates Scripted.healthy)).
Defined.

Lemma header_without_file_line_fails_witness :
  unopened (ScriptedHeader.fresh (-1)) /\
  control_message_cb (LibAV := Scripted.lib Scripted.healthy) = None /\
  uninit_count ScriptedHeader.stack <= 0 /\
  Forall (fun buf => fst (get_keyword buf) <> "file"%string)
    [String.append "ffconcat version 1.0" (String "010" EmptyString);
     String.append "duration 10" (String "010" EmptyString)] /\
  runs (concat_read_header (lib := Scripted.lib Scripted.healthy)
          (hlib := ScriptedHeader.hlib) "list.ffconcat"
          [String.append "ffconcat version 1.0" (String "010" EmptyString);
           String.append "duration 10" (String "010" EmptyString)]
          ScriptedHeader.stack)
    (ScriptedHeader.fresh (-1))
    (fun ret s' evs =>
       ret = AVERROR_INVALIDDATA /\ evs = [] /\ files (cat s') = []).
Proof.
  assert (Hlines : Forall (fun buf => fst (get_keyword buf) <> "file"%string)
    [String.append "ffconcat version 1.0" (String "010" EmptyString);
     String.append "duration 10" (String "010" EmptyString)]).
  { repeat constructor; discriminate. }
  assert (Hcount : uninit_count ScriptedHeader.stack <= 0) by (cbn; lia).
  split; [apply scripted_fresh_unopened|]. split; [reflexivity|].
  split; [exact Hcount|]. split; [exact Hlines|].
  exact (header_without_file_line_fails
           (lib := Scripted.lib Scripted.healthy) (hlib := ScriptedHeader.hlib)
           "list.ffconcat" _ ScriptedHeader.stack (ScriptedHeader.fresh (-1))
           (scripted_fresh_unopened (-1)) eq_refl Hcount Hlines).
Defined.

Lemma resolver_segments_replace_script_witness :
  control_message_cb (LibAV := ScriptedHeader.lib_with_resolver Scripted.healthy)
  = Some (fun _ w => (1, None, w)) /\
  resolve_segment_concat (HeaderLib := ScriptedHeader.hlib)
    (world (ScriptedHeader.fresh (-1))) = (0, 2, 0%nat) /\
  0 < 2 /\
  concat_read_header (lib := ScriptedHeader.lib_with_resolver Scripted.healthy)
    (hlib := ScriptedHeader.hlib) "list.ffconcat" ScriptedHeader.script
    ScriptedHeader.stack (ScriptedHeader.fresh (-1)) =
  concat_read_header (lib := ScriptedHeader.lib_with_resolver Scripted.healthy)
    (hlib := ScriptedHeader.hlib) "list.ffconcat" []
    ScriptedHeader.stack (ScriptedHeader.fresh (-1)).
Proof.
  split; [reflexivity|]. split; [reflexivity|]. split; [lia|].
  exact (resolver_segments_replace_script
           (lib := ScriptedHeader.lib_with_resolver Scripted.healthy)
           (hlib := ScriptedHeader.hlib) "list.ffconcat" ScriptedHeader.script []
           ScriptedHeader.stack (ScriptedHeader.fresh (-1))
           (fun _ w => (1, None, w)) 0 2 0%nat eq_refl eq_refl eq_refl).
Defined.

(** The header of the scripted demuxer.  From the script: segments
    "a.mkv" and "b.mkv" of 10 s and 5 s.  From the resolver, which replaces
    the script: "r0" and "r1" of 4 s each.  Either way the table is
    seekable, segment 0 is open and safe mode was switched on only by the
    script's version line. *)
Example header_run :
  (exists s',
     concat_read_header (lib := Scripted.lib Scripted.healthy)
       (hlib := ScriptedHeader.hlib) "list.ffconcat" ScriptedHeader.script
       ScriptedHeader.stack (ScriptedHeader.fresh (-1)) = Done (0, s') /\
     files (cat s') = [mkFile "a.mkv" 0 10000000; mkFile "b.mkv" 10000000 5000000] /\
     seekable (cat s') = 1 /\ ctx_duration s' = 15000000 /\
     safe (cat s') = 1 /\ cur_file (cat s') = Some 0%nat) /\
  (exists s',
     concat_read_header (lib := ScriptedHeader.lib_with_resolver Scripted.healthy)
       (hlib := ScriptedHeader.hlib) "list.ffconcat" ScriptedHeader.script
       ScriptedHeader.stack (ScriptedHeader.fresh (-1)) = Done (0, s') /\
     files (cat s') = [mkFile "r0" 0 4000000; mkFile "r1" 4000000 4000000] /\
     seekable (cat s') = 1 /\ ctx_duration s' = 8000000 /\
     safe (cat s') = -1 /\ cur_file (cat s') = Some 0%nat).
Proof.
  split; eexists; (split; [vm_compute; reflexivity|]); repeat split.
Qed.

Lemma resolver_strdup_failure_crashes_witness :
  control_message_cb (LibAV := ScriptedHeader.lib_with_resolver Scripted.healthy)
  = Some (fun _ w => (1, None, w)) /\
  resolve_segment_concat (HeaderLib := ScriptedHeader.hlib_no_memory)
    (world (ScriptedHeader.fresh (-1))) = (0, 2, 0%nat) /\
  0 < 2 /\
  resolve_segment_offline (HeaderLib := ScriptedHeader.hlib_no_memory) 0 0%nat
  = (0, Some "r0"%string, 4000000, 0%nat) /\
  av_strdup (HeaderLib := ScriptedHeader.hlib_no_memory) "r0" 0%nat = false /\
  concat_read_header (lib := ScriptedHeader.lib_with_resolver Scripted.healthy)
    (hlib := ScriptedHeader.hlib_no_memory) "list.ffconcat" ScriptedHeader.script
    ScriptedHeader.stack (ScriptedHeader.fresh (-1)) = Undefined.
Proof.
  split; [reflexivity|]. split; [reflexivity|]. split; [lia|].
  split; [reflexivity|]. split; [reflexivity|].
  exact (resolver_strdup_failure_crashes
           (lib := ScriptedHeader.lib_with_resolver Scripted.healthy)
           (hlib := ScriptedHeader.hlib_no_memory) "list.ffconcat"
           ScriptedHeader.script ScriptedHeader.stack (ScriptedHeader.fresh (-1))
           (fun _ w => (1, None, w)) 2 0%nat "r0" 4000000 0%nat
           eq_refl eq_refl eq_refl eq_refl eq_refl).
Defined.

Lemma uninitialised_count_skips_script_witness :
  unopened (ScriptedHeader.fresh (-1)) /\
  control_message_cb (LibAV := Scripted.lib Scripted.healthy) = None /\
  0 < uninit_count (mkIndeterminate 3 0) /\
  runs (concat_read_header (lib := Scripted.lib Scripted.healthy)
          (hlib := ScriptedHeader.hlib) "list.ffconcat" ScriptedHeader.script
          (mkIndeterminate 3 0))
    (ScriptedHeader.fresh (-1))
    (fun ret s' evs =>
       ret = (if uninit_ret (mkIndeterminate 3 0) <? 0
              then uninit_ret (mkIndeterminate 3 0)
              else AVERROR_INVALIDDATA) /\
       evs = [] /\ files (cat s') = []).
Proof.
  split; [apply scripted_fresh_unopened|]. split; [reflexivity|].
  split; [reflexivity|].
  exact (uninitialised_count_skips_script
           (lib := Scripted.lib Scripted.healthy) (hlib := ScriptedHeader.hlib)
           "list.ffconcat" ScriptedHeader.script (mkIndeterminate 3 0)
           (ScriptedHeader.fresh (-1)) (scripted_fresh_unopened (-1))
           eq_refl eq_refl).
Defined.

Lemma open_next_file_records_duration_witness :
  ready (Scripted.playing 1 0) 0%nat 0%nat /\
  files (cat (Scripted.playing 1 0)) !! 0%nat = Some (mkFile "a" 0 10000000) /\
  runs (open_next_file (lib := Scripted.lib Scripted.healthy))
    (Scripted.playing 1 0)
    (fun ret s' evs =>
       exists f', files (cat s') !! 0%nat = Some f' /\
         url f' = url (mkFile "a" 0 10000000) /\
         start_time f' = start_time (mkFile "a" 0 10000000) /\
         duration f' =
           (if duration (mkFile "a" 0 10000000) =? AV_NOPTS_VALUE
            then reader_duration (LibAV := Scripted.lib Scripted.healthy)
                   0%nat (world (Scripted.playing 1 0))
            else duration (mkFile "a" 0 10000000))).
Proof.
  split; [apply scripted_playing_ready|]. split; [reflexivity|].
  exact (open_next_file_records_duration (lib := Scripted.lib Scripted.healthy)
           (Scripted.playing 1 0) 0%nat 0%nat (mkFile "a" 0 10000000)
           (scripted_playing_ready 1 0) eq_refl).
Defined.

Lemma concat_read_packet_keeps_books_witness :
  ready (Scripted.playing 1 0) 0%nat 0%nat /\
  runs (concat_read_packet (lib := Scripted.lib Scripted.unreachable)
          Scripted.packet) (Scripted.playing 1 0)
    (fun _ s' evs =>
       table_kept (files (cat (Scripted.playing 1 0))) (files (cat s')) /\
       exists i' h', ready s' i' h' /\
         Permutation (h' :: closed evs) (0%nat :: opened evs)).
Proof.
  split; [apply scripted_playing_ready|].
  exact (concat_read_packet_keeps_books (lib := Scripted.lib Scripted.unreachable)
           (Scripted.playing 1 0) 0%nat 0%nat Scripted.packet
           (scripted_playing_ready 1 0)).
Defined.

Lemma concat_seek_keeps_table_witness :
  ready (Scripted.playing 1 0) 0%nat 0%nat /\
  int_indexable (files (cat (Scripted.playing 1 0))) /\
  runs (concat_seek (lib := Scripted.lib Scripted.healthy)
          (-1) 0 12000000 INT64_MAX 0) (Scripted.playing 1 0)
    (fun _ s' _ =>
       table_kept (files (cat (Scripted.playing 1 0))) (files (cat s'))).
Proof.
  split; [apply scripted_playing_ready|].
  split; [apply scripted_table_indexable|].
  exact (concat_seek_keeps_table (lib := Scripted.lib Scripted.healthy)
           (Scripted.playing 1 0) 0%nat 0%nat (-1) 0 12000000 INT64_MAX 0
           (scripted_playing_ready 1 0) scripted_table_indexable).
Defined.

Lemma session_keeps_playing_witness :
  ready (Scripted.playing 1 0) 0%nat 0%nat /\
  int_indexable (files (cat (Scripted.playing 1 0))) /\
  runs (session (lib := Scripted.lib Scripted.healthy)
          [ReadPacket Scripted.packet; Seek (-1) 0 12000000 INT64_MAX 0;
           ReadPacket Scripted.packet])
    (Scripted.playing 1 0)
    (fun _ s' evs =>
       table_kept (files (cat (Scripted.playing 1 0))) (files (cat s')) /\
       exists i' h', ready s' i' h' /\
         Permutation (h' :: closed evs) (0%nat :: opened evs)).
Proof.
  split; [apply scripted_playing_ready|].
  split; [apply scripted_table_indexable|].
  exact (session_keeps_playing (lib := Scripted.lib Scripted.healthy)
           [ReadPacket Scripted.packet; Seek (-1) 0 12000000 INT64_MAX 0;
            ReadPacket Scripted.packet]
           (Scripted.playing 1 0) 0%nat 0%nat
           (scripted_playing_ready 1 0) scripted_table_indexable).
Defined.

Lemma scripted_script_fits :
  script_fits (lib := Scripted.lib Scripted.healthy)
    (hlib := ScriptedHeader.hlib) ScriptedHeader.script
    (ScriptedHeader.fresh (-1)).
Proof. unfold script_fits. cbn. lia. Qed.

Lemma play_closes_every_reader_witness :
  unopened (ScriptedHeader.fresh (-1)) /\
  script_fits (lib := Scripted.lib Scripted.healthy)
    (hlib := ScriptedHeader.hlib) ScriptedHeader.script
    (ScriptedHeader.fresh (-1)) /\
  resolver_allocates (lib := Scripted.lib Scripted.healthy)
    (hlib := ScriptedHeader.hlib) /\
  runs (play (lib := Scripted.lib Scripted.healthy)
          (hlib := ScriptedHeader.hlib) "list.ffconcat" ScriptedHeader.script
          ScriptedHeader.stack
          [ReadPacket Scripted.packet; Seek (-1) 0 12000000 INT64_MAX 0;
           ReadPacket Scripted.packet])
    (ScriptedHeader.fresh (-1))
    (fun ret s' evs =>
       ret <= 0 /\ avf (cat s') = None /\ files (cat s') = [] /\
       Permutation (closed evs) (opened evs)).
Proof.
  split; [apply scripted_fresh_unopened|].
  split; [apply scripted_script_fits|].
  split; [apply scripted_no_callback|].
  exact (play_closes_every_reader (lib := Scripted.lib Scripted.healthy)
           (hlib := ScriptedHeader.hlib) "list.ffconcat" ScriptedHeader.script
           ScriptedHeader.stack
           [ReadPacket Scripted.packet; Seek (-1) 0 12000000 INT64_MAX 0;
            ReadPacket Scripted.packet]
           (ScriptedHeader.fresh (-1)) (scripted_fresh_unopened (-1))
           scripted_script_fits
           (scripted_no_callback Scripted.healthy ScriptedHeader.hlib)).
Defined.

Lemma read_after_seek_reads_witness :
  ready (Scripted.playing 1 (AVERROR EIO)) 0%nat 0%nat /\
  int_indexable (files (cat (Scripted.playing 1 (AVERROR EIO)))) /\
  runs (concat_seek (lib := Scripted.lib Scripted.no_seek)
          (-1) 0 12000000 INT64_MAX 0)
    (Scripted.playing 1 (AVERROR EIO))
    (fun ret s1 evs1 =>
       reads evs1 = [] /\
       exists i1 h1,
         ready s1 i1 h1 /\
         (ret < 0 -> i1 = 0%nat /\ h1 = 0%nat) /\
         (0 <= ret ->
            exists evs0, evs1 = evs0 ++ [CallCloseInput 0%nat] /\
                         Permutation (h1 :: closed evs0) (opened evs1)) /\
         forall pkt,
           runs (concat_read_packet (lib := Scripted.lib Scripted.no_seek) pkt)
             s1 (fun _ _ evs2 =>
               exists ret2 raw rest, evs2 = CallReadFrame h1 ret2 raw :: rest)).
Proof.
  split; [apply scripted_playing_ready|].
  split; [apply scripted_table_indexable|].
  exact (read_after_seek_reads (lib := Scripted.lib Scripted.no_seek)
           (Scripted.playing 1 (AVERROR EIO)) 0%nat 0%nat
           (-1) 0 12000000 INT64_MAX 0
           (scripted_playing_ready 1 (AVERROR EIO)) scripted_table_indexable).
Defined.

Lemma try_seek_undoes_offset_witness :
  ready (Scripted.playing 1 0) 0%nat 0%nat /\
  files (cat (Scripted.playing 1 0)) !! 0%nat = Some (mkFile "a" 0 10000000) /\
  in_int64 100 /\ 100 <> AV_NOPTS_VALUE /\
  runs (try_seek (lib := Scripted.lib Scripted.healthy) (-1) INT64_MIN
          (offset_timestamp 100
             (sub64 (start_time (mkFile "a" 0 10000000))
                (reader_start_time (LibAV := Scripted.lib Scripted.healthy)
                   0%nat (world (Scripted.playing 1 0)))))
          INT64_MAX 0)
    (Scripted.playing 1 0)
    (fun ret s' evs =>
       exists lo hi,
         evs = [CallSeekFile 0%nat (-1) lo 100 hi 0 ret] /\
         (INT64_MIN = INT64_MIN -> lo = INT64_MIN) /\
         (INT64_MAX = INT64_MAX -> hi = INT64_MAX)).
Proof.
  assert (Hp : in_int64 100) by (unfold in_int64, INT64_MIN, INT64_MAX; lia).
  assert (Hknown : 100 <> AV_NOPTS_VALUE) by discriminate.
  split; [apply scripted_playing_ready|]. split; [reflexivity|].
  split; [exact Hp|]. split; [exact Hknown|].
  exact (try_seek_undoes_offset (lib := Scripted.lib Scripted.healthy)
           (Scripted.playing 1 0) 0%nat 0%nat (mkFile "a" 0 10000000)
           100 INT64_MIN INT64_MAX 0
           (scripted_playing_ready 1 0) eq_refl Hp Hknown).
Defined.

Lemma seek_on_missing_stream_refused_witness :
  seekable (cat (Scripted.playing 1 (AVERROR EIO))) <> 0 /\
  Z.land 0 (Z.lor AVSEEK_FLAG_BYTE AVSEEK_FLAG_FRAME) = 0 /\
  stream_rejected (streams (Scripted.playing 1 (AVERROR EIO))) 1 = true /\
  concat_seek (lib := Scripted.lib Scripted.healthy) 1 0 12000 INT64_MAX 0
    (Scripted.playing 1 (AVERROR EIO))
  = Done (AVERROR EINVAL,
          with_cat (with_error 0 (cat (Scripted.playing 1 (AVERROR EIO))))
            (Scripted.playing 1 (AVERROR EIO))).
Proof.
  assert (Hseekable : seekable (cat (Scripted.playing 1 (AVERROR EIO))) <> 0)
    by discriminate.
  split; [exact Hseekable|]. split; [reflexivity|]. split; [reflexivity|].
  exact (seek_on_missing_stream_refused (lib := Scripted.lib Scripted.healthy)
           (Scripted.playing 1 (AVERROR EIO)) 1 0 12000 INT64_MAX 0
           Hseekable eq_refl eq_refl).
Defined.

Lemma try_seek_on_missing_stream_witness :
  ready (Scripted.playing 1 0) 0%nat 0%nat /\
  0 <= 1 /\
  reader_nb_streams (LibAV := Scripted.lib Scripted.healthy) 0%nat
    (world (Scripted.playing 1 0)) <= 1 /\
  try_seek (lib := Scripted.lib Scripted.healthy) 1 0 12000 INT64_MAX 0
    (Scripted.playing 1 0)
  = Done (AVERROR EIO, Scripted.playing 1 0).
Proof.
  assert (Hstream : 0 <= 1) by lia.
  assert (Hmissing : reader_nb_streams (LibAV := Scripted.lib Scripted.healthy)
                       0%nat (world (Scripted.playing 1 0)) <= 1)
    by (cbn; lia).
  split; [apply scripted_playing_ready|]. split; [exact Hstream|].
  split; [exact Hmissing|].
  exact (try_seek_on_missing_stream (lib := Scripted.lib Scripted.healthy)
           (Scripted.playing 1 0) 0%nat 0%nat 1 0 12000 INT64_MAX 0
           (scripted_playing_ready 1 0) Hstream Hmissing).
Defined.
